(** * juit-lib-ping: the native [open] addon, [src/native/ping.c]

    A shallow embedding of the C addon that opens an ICMP datagram socket
    for Node.js: argument validation ([_open]), the worker-thread body
    ([_open_execute], [_open_execute_fail]), the completion step
    ([_open_complete]) and the error translation ([_system_error]).

    The C code runs against three collaborators that are not part of the
    repository.  Each is a record of answers, so that every theorem below
    is about the addon for all behaviours of its surroundings:
    - [platform]: constants of the C headers, libc's [inet_pton], the
      kernel's answers to [socket], [setsockopt], [if_nametoindex], [bind],
      and libuv's error tables;
    - [runtime]: the status every N-API call returns, keyed by the call's
      name and source line, and what the JavaScript handler does;
    - the [world]: the pending JavaScript exception, [errno], the set of
      open descriptors, the queued work item and the trace of effects. *)

From Stdlib Require Import ZArith List String Ascii Bool Lia DecimalString.
From Stdlib.Strings Require Import Byte.
Import ListNotations.
Open Scope Z_scope.

(* ------------------------------------------------------------------ *)
(** ** C library helpers *)

Module C.

(** [bzero(buf, n)] on a fresh buffer: [n] zero bytes. *)
Definition bzero (n : nat) : list byte := repeat x00 n.

(** The bytes of the C string that starts a buffer: up to the first NUL. *)
Fixpoint c_str_bytes (buf : list byte) : list byte :=
  match buf with
  | [] => []
  | b :: rest => if Byte.eqb b x00 then [] else b :: c_str_bytes rest
  end.

Definition c_str (buf : list byte) : string :=
  string_of_list_byte (c_str_bytes buf).

(** [memcpy(dst, src, n)]: the first [n] bytes of [src] over the first
    [n] bytes of [dst].  [None] when [n] exceeds either object: the C
    standard gives such a call no meaning. *)
Definition memcpy (dst src : list byte) (n : nat) : option (list byte) :=
  if ((n <=? List.length dst) && (n <=? List.length src))%nat
  then Some (firstn n src ++ skipn n dst)
  else None.

(** [%d] of printf. *)
Definition fmt_d (z : Z) : string := NilZero.string_of_int (Z.to_int z).

(** [snprintf(buf, size, ...)] keeps at most [size - 1] characters. *)
Definition snprintf (size : nat) (s : string) : string :=
  substring 0 (size - 1) s.

(** Conversion of an [int] to [uint32_t], and of a number to [int32_t]. *)
Definition to_uint32 (z : Z) : Z := z mod 2 ^ 32.
Definition to_int32 (z : Z) : Z := (z + 2 ^ 31) mod 2 ^ 32 - 2 ^ 31.

End C.

(* ------------------------------------------------------------------ *)
(** ** JavaScript values as the addon sees them through N-API *)

Inductive napi_valuetype : Set :=
| napi_undefined | napi_null | napi_boolean | napi_number | napi_string
| napi_symbol | napi_object | napi_function | napi_external | napi_bigint.

(** Strings are taken as their Latin-1 bytes, numbers as integers. An error
    object carries its class, the [code] given to [napi_create_error], its
    message and the named properties set on it afterwards, latest last. *)
#[warnings="-register-all"]
Inductive js_value : Type :=
| JsUndefined
| JsNull
| JsBoolean (b : bool)
| JsNumber (n : Z)
| JsString (s : string)
| JsObject (id : nat)
| JsFunction (id : nat)
| JsError (type_error : bool) (code : option string) (message : string)
          (props : list (string * js_value)).

Definition typeof (v : js_value) : napi_valuetype :=
  match v with
  | JsUndefined => napi_undefined
  | JsNull => napi_null
  | JsBoolean _ => napi_boolean
  | JsNumber _ => napi_number
  | JsString _ => napi_string
  | JsObject _ => napi_object
  | JsFunction _ => napi_function
  | JsError _ _ _ _ => napi_object
  end.

Definition valuetype_eqb (a b : napi_valuetype) : bool :=
  match a, b with
  | napi_undefined, napi_undefined | napi_null, napi_null
  | napi_boolean, napi_boolean | napi_number, napi_number
  | napi_string, napi_string | napi_symbol, napi_symbol
  | napi_object, napi_object | napi_function, napi_function
  | napi_external, napi_external | napi_bigint, napi_bigint => true
  | _, _ => false
  end.

(** [napi_status] is a C enum; [napi_ok] is its zero. *)
Definition napi_status : Set := Z.
Definition napi_ok : napi_status := 0.
Definition napi_invalid_arg : napi_status := 1.
Definition napi_generic_failure : napi_status := 9.
Definition napi_pending_exception : napi_status := 10.
Definition napi_cancelled : napi_status := 11.

(** What [napi_get_value_string_latin1] leaves in a buffer of [bufsize]
    bytes and reports as copied: at most [bufsize - 1] bytes of the string,
    the terminator after them, the rest of the buffer as it was. *)
Definition copy_latin1 (s : string) (buf : list byte) (bufsize : nat)
  : list byte * nat :=
  let copied := firstn (bufsize - 1) (list_byte_of_string s) in
  (copied ++ x00 :: skipn (S (List.length copied)) buf, List.length copied).

(* ------------------------------------------------------------------ *)
(** ** [struct _open_data] (ping.c, lines 174-202) *)

Record _open_data : Type := mk_open_data {
  (** the [napi_async_work] of this operation: created or still NULL *)
  __async_work : bool;
  (** the reference to the JavaScript callback, or NULL *)
  __callback_ref : option js_value;
  (** the size of the socket address, or [0] when we shouldn't bind *)
  __sockaddr_size : nat;
  (** [__sockaddr.sa_family] of the union *)
  __sa_family : Z;
  (** the [sin_addr] / [sin6_addr] bytes of the union *)
  __sin_addr : list byte;
  (** the length of the interface name, or zero if no device *)
  __interface_length : nat;
  (** [char __interface[IFNAMSIZ + 1]] *)
  __interface : list byte;
  (** NULL or the name of the system call that failed *)
  __syscall : option string;
  (** [0] or the [errno] of the system call that failed *)
  __errno : Z;
  (** the descriptor of the open socket, or [-1] on error *)
  __fd : Z
}.

Definition set_async_work (v : bool) (d : _open_data) : _open_data :=
  mk_open_data v (__callback_ref d) (__sockaddr_size d) (__sa_family d)
    (__sin_addr d) (__interface_length d) (__interface d) (__syscall d)
    (__errno d) (__fd d).
Definition set_callback_ref (v : option js_value) (d : _open_data) : _open_data :=
  mk_open_data (__async_work d) v (__sockaddr_size d) (__sa_family d)
    (__sin_addr d) (__interface_length d) (__interface d) (__syscall d)
    (__errno d) (__fd d).
Definition set_sockaddr_size (v : nat) (d : _open_data) : _open_data :=
  mk_open_data (__async_work d) (__callback_ref d) v (__sa_family d)
    (__sin_addr d) (__interface_length d) (__interface d) (__syscall d)
    (__errno d) (__fd d).
Definition set_sa_family (v : Z) (d : _open_data) : _open_data :=
  mk_open_data (__async_work d) (__callback_ref d) (__sockaddr_size d) v
    (__sin_addr d) (__interface_length d) (__interface d) (__syscall d)
    (__errno d) (__fd d).
Definition set_sin_addr (v : list byte) (d : _open_data) : _open_data :=
  mk_open_data (__async_work d) (__callback_ref d) (__sockaddr_size d)
    (__sa_family d) v (__interface_length d) (__interface d) (__syscall d)
    (__errno d) (__fd d).
Definition set_interface_length (v : nat) (d : _open_data) : _open_data :=
  mk_open_data (__async_work d) (__callback_ref d) (__sockaddr_size d)
    (__sa_family d) (__sin_addr d) v (__interface d) (__syscall d)
    (__errno d) (__fd d).
Definition set_interface (v : list byte) (d : _open_data) : _open_data :=
  mk_open_data (__async_work d) (__callback_ref d) (__sockaddr_size d)
    (__sa_family d) (__sin_addr d) (__interface_length d) v (__syscall d)
    (__errno d) (__fd d).
Definition set_syscall (v : option string) (d : _open_data) : _open_data :=
  mk_open_data (__async_work d) (__callback_ref d) (__sockaddr_size d)
    (__sa_family d) (__sin_addr d) (__interface_length d) (__interface d) v
    (__errno d) (__fd d).
Definition set_errno (v : Z) (d : _open_data) : _open_data :=
  mk_open_data (__async_work d) (__callback_ref d) (__sockaddr_size d)
    (__sa_family d) (__sin_addr d) (__interface_length d) (__interface d)
    (__syscall d) v (__fd d).
Definition set_fd (v : Z) (d : _open_data) : _open_data :=
  mk_open_data (__async_work d) (__callback_ref d) (__sockaddr_size d)
    (__sa_family d) (__sin_addr d) (__interface_length d) (__interface d)
    (__syscall d) (__errno d) v.

(* ------------------------------------------------------------------ *)
(** ** The world the addon acts on *)

(** Every effect the claims speak of, in the order it happens. *)
Inductive event : Type :=
| EvThrow (e : js_value)            (* a JavaScript exception is thrown *)
| EvFault                           (* a write outside its object *)
| EvCreateReference | EvDeleteReference
| EvMalloc | EvFree                 (* the heap copy of [_open_data] *)
| EvCreateAsyncWork | EvQueueAsyncWork | EvDeleteAsyncWork
| EvExecute                         (* the worker thread enters [_open_execute] *)
| EvSocket (family type protocol result : Z)
| EvIfNametoindex (name : string) (result : Z)
| EvSetsockopt (fd level option result : Z)
| EvBind (fd : Z) (size : nat) (result : Z)
| EvClose (fd : Z)
| EvCallFunction (arg0 arg1 : option js_value).

Record world : Type := mk_world {
  (** the pending JavaScript exception, if any *)
  pending : option js_value;
  (** the C [errno] *)
  errno : Z;
  (** the descriptors the process holds open *)
  open_fds : list Z;
  (** the work item handed to [napi_queue_async_work], not yet run *)
  queued : option _open_data;
  (** the effects so far, oldest first *)
  trace : list event
}.

Definition log (e : event) (w : world) : world :=
  mk_world (pending w) (errno w) (open_fds w) (queued w) (trace w ++ [e]).
Definition set_pending (p : option js_value) (w : world) : world :=
  mk_world p (errno w) (open_fds w) (queued w) (trace w).
Definition set_world_errno (e : Z) (w : world) : world :=
  mk_world (pending w) e (open_fds w) (queued w) (trace w).
Definition set_open_fds (l : list Z) (w : world) : world :=
  mk_world (pending w) (errno w) l (queued w) (trace w).
Definition set_queued (q : option _open_data) (w : world) : world :=
  mk_world (pending w) (errno w) (open_fds w) q (trace w).

(** A process with the three standard descriptors and nothing else. *)
Definition fresh_world : world := mk_world None 0 [0; 1; 2] None [].

(** What a JavaScript caller sees of a call: the exception the call threw,
    the world when the call returned, and the world once the event loop
    has run what the call queued. *)
Record call_result : Type := mk_call_result {
  exception : option js_value;
  returned : world;
  settled : world
}.

(** Build targets of the two [#ifdef] blocks of [_open_execute]. *)
Inductive target : Set := Linux | Apple | OtherTarget.

Record platform : Type := mk_platform {
  os : target;
  IFNAMSIZ : nat;
  AF_INET : Z;
  AF_INET6 : Z;
  SOCK_DGRAM : Z;
  IPPROTO_ICMP : Z;
  IPPROTO_ICMPV6 : Z;
  IPPROTO_IP : Z;
  IPPROTO_IPV6 : Z;
  SOL_SOCKET : Z;
  SO_BINDTODEVICE : Z;
  IP_BOUND_IF : Z;
  IPV6_BOUND_IF : Z;
  EAFNOSUPPORT : Z;
  EBADF : Z;
  sizeof_sockaddr_in : nat;
  sizeof_sockaddr_in6 : nat;
  (** [inet_pton(af, src, dst)]: its result, the bytes it stores in [dst]
      when the result is [1], and the [errno] it sets when negative *)
  inet_pton : Z -> string -> Z * list byte * Z;
  (** the kernel's answers: the result and the [errno] of a failure *)
  sys_socket : Z -> Z -> Z -> Z * Z;
  sys_setsockopt : Z -> Z -> Z -> Z * Z;
  sys_if_nametoindex : string -> Z * Z;
  sys_bind : Z -> Z -> list byte -> nat -> Z * Z;
  (** libuv: [uv_translate_sys_error], [uv_strerror], [uv_err_name]; the
      last two answer every code with a string, never with NULL *)
  uv_translate_sys_error : Z -> Z;
  uv_strerror : Z -> string;
  uv_err_name : Z -> string
}.

Record runtime : Type := mk_runtime {
  (** the status returned by the N-API call of that name at that line of
      ping.c *)
  napi_result : string -> Z -> napi_status;
  (** [error_message] of [napi_get_last_error_info], possibly NULL *)
  last_error_message : option string;
  (** the status the engine passes to the completion callback *)
  work_status : napi_status;
  (** what the JavaScript handler does when called: return, or throw *)
  handler_throws : option js_value
}.

(* ------------------------------------------------------------------ *)
(** ** C functions as computations over the world

    A C function body is a computation that either goes on with a value
    or leaves the function with its result ([return] in the middle of the
    body, as [NAPI_CALL_VALUE] and [NAPI_CALL_VOID] do). *)

Definition M (R A : Type) : Type := world -> world * (A + R).

Definition ret {R A : Type} (a : A) : M R A := fun w => (w, inl a).

(** [return r;] *)
Definition leave {R A : Type} (r : R) : M R A := fun w => (w, inr r).

Definition bind {R A B : Type} (m : M R A) (k : A -> M R B) : M R B :=
  fun w =>
    match m w with
    | (w', inl a) => k a w'
    | (w', inr r) => (w', inr r)
    end.

(** A call to a function that always comes back. *)
Definition call {R A : Type} (f : world -> world * A) : M R A :=
  fun w => let (w', a) := f w in (w', inl a).

(** A statement with no value. *)
Definition act {R : Type} (f : world -> world) : M R unit :=
  fun w => (f w, inl tt).

(** The function as its caller sees it. *)
Definition body {R : Type} (m : M R R) (w : world) : world * R :=
  match m w with
  | (w', inl r) => (w', r)
  | (w', inr r) => (w', r)
  end.

Declare Scope c_scope.
Delimit Scope c_scope with c.
Notation "x <- m ;; k" := (bind m (fun x => k))
  (at level 61, m at next level, right associativity) : c_scope.
Notation "' p <- m ;; k" := (bind m (fun x => match x with p => k end))
  (at level 61, p pattern, m at next level, right associativity) : c_scope.
Notation "m ;;; k" := (bind m (fun _ => k))
  (at level 61, right associativity) : c_scope.

Section Addon.

Variable rt : runtime.
Variable pf : platform.

Local Open Scope string_scope.
Local Open Scope Z_scope.
Local Open Scope c_scope.

(* ---------------------------------------------------------------- *)
(** *** The N-API functions the addon calls

    Each takes, last, the status the runtime answers at the call site
    and the world; its out-parameter is read only when that status is
    [napi_ok]. *)

Definition napi_fn (A : Type) : Type :=
  napi_status -> world -> world * (napi_status * A).

Definition napi_is_exception_pending : napi_fn bool :=
  fun st w =>
    (w, (st, if st =? napi_ok
             then match pending w with Some _ => true | None => false end
             else false)).

(** [napi_throw], [napi_throw_error], [napi_throw_type_error]: the
    exception [e] becomes pending.  Like every N-API function that may
    run JavaScript, they refuse to work while an exception is pending. *)
Definition napi_throw (e : js_value) : napi_fn unit :=
  fun st w =>
    match pending w with
    | Some _ => (w, (napi_pending_exception, tt))
    | None =>
        if st =? napi_ok
        then (log (EvThrow e) (set_pending (Some e) w), (st, tt))
        else (w, (st, tt))
    end.

Definition napi_throw_error (msg : string) : napi_fn unit :=
  napi_throw (JsError false None msg []).

Definition napi_throw_type_error (msg : string) : napi_fn unit :=
  napi_throw (JsError true None msg []).

Definition napi_get_cb_info (_info : list js_value) (argc : nat)
  : napi_fn (nat * list js_value) :=
  fun st w =>
    (w, (st, (List.length _info,
              firstn argc (_info ++ repeat JsUndefined argc)%list))).

Definition napi_typeof (v : js_value) : napi_fn napi_valuetype :=
  fun st w => (w, (st, typeof v)).

Definition napi_get_value_int32 (v : js_value) : napi_fn Z :=
  fun st w =>
    match v with
    | JsNumber n => (w, (st, C.to_int32 n))
    | _ => (w, (6 (* napi_number_expected *), 0))
    end.

(** Copies at most [bufsize - 1] bytes, writes the terminator after
    them and reports how many bytes it copied. *)
Definition napi_get_value_string_latin1
    (v : js_value) (buf : list byte) (bufsize : nat)
  : napi_fn (list byte * nat) :=
  fun st w =>
    match v with
    | JsString s =>
        if st =? napi_ok then (w, (st, copy_latin1 s buf bufsize))
        else (w, (st, (buf, bufsize)))
    | _ => (w, (3 (* napi_string_expected *), (buf, bufsize)))
    end.

Definition napi_create_string_latin1 (s : string) : napi_fn js_value :=
  fun st w => (w, (st, JsString s)).

Definition napi_create_uint32 (v : Z) : napi_fn js_value :=
  fun st w => (w, (st, JsNumber (C.to_uint32 v))).

Definition napi_create_object : napi_fn js_value :=
  fun st w => (w, (st, JsObject 0)).

Definition napi_get_null : napi_fn js_value :=
  fun st w => (w, (st, JsNull)).

Definition napi_get_undefined : napi_fn js_value :=
  fun st w => (w, (st, JsUndefined)).

Definition napi_get_global : napi_fn js_value :=
  fun st w => (w, (st, JsObject 0)).

(** [code] may be NULL, [msg] must be a string. *)
Definition napi_create_error (code msg : option js_value)
  : napi_fn js_value :=
  fun st w =>
    match msg, code with
    | Some (JsString m), None => (w, (st, JsError false None m []))
    | Some (JsString m), Some (JsString c) =>
        (w, (st, JsError false (Some c) m []))
    | Some _, _ => (w, (3 (* napi_string_expected *), JsUndefined))
    | None, _ => (w, (napi_invalid_arg, JsUndefined))
    end.

Definition napi_set_named_property
    (object : js_value) (name : string) (v : js_value)
  : napi_fn js_value :=
  fun st w =>
    match pending w, object with
    | Some _, _ => (w, (napi_pending_exception, object))
    | None, JsError t c m props =>
        if st =? napi_ok
        then (w, (st, JsError t c m (props ++ [(name, v)])%list))
        else (w, (st, object))
    | None, _ => (w, (2 (* napi_object_expected *), object))
    end.

Definition napi_create_reference (v : js_value)
  : napi_fn (option js_value) :=
  fun st w =>
    if st =? napi_ok
    then (log EvCreateReference w, (st, Some v))
    else (w, (st, None)).

Definition napi_get_reference_value (ref : option js_value)
  : napi_fn js_value :=
  fun st w =>
    match ref with
    | Some v => (w, (st, v))
    | None => (w, (napi_invalid_arg, JsUndefined))
    end.

Definition napi_delete_reference (ref : option js_value) : napi_fn unit :=
  fun st w =>
    match ref with
    | Some _ =>
        if st =? napi_ok then (log EvDeleteReference w, (st, tt))
        else (w, (st, tt))
    | None => (w, (napi_invalid_arg, tt))
    end.

Definition napi_create_async_work : napi_fn bool :=
  fun st w =>
    if st =? napi_ok then (log EvCreateAsyncWork w, (st, true))
    else (w, (st, false)).

(** The work item is the heap copy of the request. *)
Definition napi_queue_async_work (data : _open_data) : napi_fn unit :=
  fun st w =>
    if st =? napi_ok
    then (log EvQueueAsyncWork (set_queued (Some data) w), (st, tt))
    else (w, (st, tt)).

Definition napi_delete_async_work (work : bool) : napi_fn unit :=
  fun st w =>
    if work
    then if st =? napi_ok then (log EvDeleteAsyncWork w, (st, tt))
         else (w, (st, tt))
    else (w, (napi_invalid_arg, tt)).

(** Calls the handler with the two slots; when the handler throws, its
    exception is pending and the status says so. *)
Definition napi_call_function
    (recv func : js_value) (arg0 arg1 : option js_value) : napi_fn unit :=
  fun st w =>
    match pending w, func with
    | Some _, _ => (w, (napi_pending_exception, tt))
    | None, JsFunction _ =>
        if st =? napi_ok
        then let w := log (EvCallFunction arg0 arg1) w in
             match handler_throws rt with
             | None => (w, (napi_ok, tt))
             | Some e => (set_pending (Some e) w, (napi_pending_exception, tt))
             end
        else (w, (st, tt))
    | None, _ => (w, (5 (* napi_function_expected *), tt))
    end.

(* ---------------------------------------------------------------- *)
(** *** [NAPI_CALL_VALUE] / [NAPI_CALL_VOID] (lines 29-76) *)

(** Throw an error, used by NAPI_CALL_VALUE / NAPI_CALL_VOID *)
Definition _napi_call_error
    (_status : napi_status) (_call : string) (_line : Z) (w : world)
  : world :=
  if _status =? napi_ok then w else
  (* Get the extended error info from the latest `napi_...` call *)
  let _status := napi_result rt "napi_get_last_error_info" 40 in
  (* Get the error message from the `napi_extended_error_info` *)
  let __error_message :=
    match (if _status =? napi_ok then last_error_message rt else None) with
    | Some m => m
    | None => "Unknown Error"
    end in
  (* If no exception is pending already, create an error and throw it *)
  let '(w, (_status, __is_pending)) :=
    napi_is_exception_pending
      (napi_result rt "napi_is_exception_pending" 52) w in
  if (_status =? napi_ok) && negb __is_pending then
    let __buffer :=
      C.snprintf 128
        (__error_message ++ " (" ++ _call ++ ", line=" ++ C.fmt_d _line ++ ")") in
    fst (napi_throw_error __buffer (napi_result rt "napi_throw_error" 56) w)
  else w.

(** Wrap a call to a `napi_...` function and throw + return on failure;
    [null] is what the enclosing function then returns. *)
Definition NAPI_CALL {R A : Type}
    (null : R) (_call : string) (__LINE__ : Z) (f : napi_fn A) : M R A :=
  fun w =>
    let '(w', (__status, a)) := f (napi_result rt _call __LINE__) w in
    if __status =? napi_ok then (w', inl a)
    else (_napi_call_error __status _call __LINE__ w', inr null).

Definition NAPI_CALL_VALUE {A : Type}
  : string -> Z -> napi_fn A -> M (option js_value) A :=
  NAPI_CALL None.

Definition NAPI_CALL_VOID {A : Type}
  : string -> Z -> napi_fn A -> M unit A :=
  NAPI_CALL tt.

(* ---------------------------------------------------------------- *)
(** *** [_system_error] (lines 80-128) *)

(** Create a _system_ error, from a standard (or `libuv`) errno *)
Definition _system_error (_syscall : option string) (_errno : Z)
  : world -> world * option js_value :=
  body (
    (* Our `errno` is very likely a system errno, let's translate it to a
       libuv error and get the message / code, otherwise it's "unknown" *)
    let '(__message_chars, __code_chars) :=
      if negb (_errno =? 0) then
        let __errno := uv_translate_sys_error pf _errno in
        (Some (uv_strerror pf __errno), Some (uv_err_name pf __errno))
      else (Some "Unknown Error", None) in
    (* Convert message and code into JS strings *)
    __message <-
      match __message_chars with
      | Some s =>
          v <- NAPI_CALL_VALUE "napi_create_string_latin1" 102
                 (napi_create_string_latin1 s) ;;
          ret (Some v)
      | None => ret None
      end ;;
    __code <-
      match __code_chars with
      | Some s =>
          v <- NAPI_CALL_VALUE "napi_create_string_latin1" 107
                 (napi_create_string_latin1 s) ;;
          ret (Some v)
      | None => ret None
      end ;;
    (* Create our error object *)
    __error <- NAPI_CALL_VALUE "napi_create_error" 112
                 (napi_create_error __code __message) ;;
    (* Inject the "errno" property in our error *)
    __errno <- NAPI_CALL_VALUE "napi_create_uint32" 116
                 (napi_create_uint32 _errno) ;;
    __error <- NAPI_CALL_VALUE "napi_set_named_property" 117
                 (napi_set_named_property __error "errno" __errno) ;;
    (* If we know the syscall, inject that as a string into our error *)
    __error <-
      match _syscall with
      | Some name =>
          __syscall <- NAPI_CALL_VALUE "napi_create_string_latin1" 122
                         (napi_create_string_latin1 name) ;;
          NAPI_CALL_VALUE "napi_set_named_property" 123
            (napi_set_named_property __error "syscall" __syscall)
      | None => ret __error
      end ;;
    (* Return our error *)
    ret (Some __error)).

(* ---------------------------------------------------------------- *)
(** *** [_throw_type_error], [_throw_system_error] (lines 132-167) *)

(** Throw a type error with a specified message *)
Definition _throw_type_error (_message : string) (w : world) : world :=
  let '(w, (__status, __is_pending)) :=
    napi_is_exception_pending
      (napi_result rt "napi_is_exception_pending" 138) w in
  if (__status =? napi_ok) && negb __is_pending then
    fst (napi_throw_type_error _message
           (napi_result rt "napi_throw_type_error" 141) w)
  else w.

(** Throw a system error from a syscall name and errno code *)
Definition _throw_system_error
    (_syscall : option string) (_errno : Z) (w : world) : world :=
  let '(w, (__status, __is_pending)) :=
    napi_is_exception_pending
      (napi_result rt "napi_is_exception_pending" 152) w in
  if (__status =? napi_ok) && negb __is_pending then
    let '(w, __error) := _system_error _syscall _errno w in
    match __error with
    | Some e => fst (napi_throw e (napi_result rt "napi_throw" 156) w)
    | None =>
        let __message :=
          match _syscall with
          | None =>
              C.snprintf 128 ("System error (errno=" ++ C.fmt_d _errno ++ ")")
          | Some s =>
              C.snprintf 128
                ("System error (syscall=" ++ s ++ " errno="
                   ++ C.fmt_d _errno ++ ")")
          end in
        fst (napi_throw_type_error __message
               (napi_result rt "napi_throw_type_error" 164) w)
    end
  else w.

(* ---------------------------------------------------------------- *)
(** *** System calls of the worker thread *)

Definition socket (domain type protocol : Z) (w : world) : world * Z :=
  let '(r, e) := sys_socket pf domain type protocol in
  let w := log (EvSocket domain type protocol r) w in
  if r <? 0 then (set_world_errno e w, r)
  else (set_open_fds (r :: open_fds w) w, r).

Definition setsockopt (fd level option : Z) (w : world) : world * Z :=
  let '(r, e) := sys_setsockopt pf fd level option in
  let w := log (EvSetsockopt fd level option r) w in
  if r <? 0 then (set_world_errno e w, r) else (w, r).

Definition if_nametoindex (name : string) (w : world) : world * Z :=
  let '(r, e) := sys_if_nametoindex pf name in
  let w := log (EvIfNametoindex name r) w in
  if r =? 0 then (set_world_errno e w, r) else (w, r).

Definition bind_socket (fd family : Z) (addr : list byte) (size : nat)
    (w : world) : world * Z :=
  let '(r, e) := sys_bind pf fd family addr size in
  let w := log (EvBind fd size r) w in
  if r <? 0 then (set_world_errno e w, r) else (w, r).

(** [close(fd)] releases an open descriptor; on anything else it fails
    with [EBADF]. *)
Definition close (fd : Z) (w : world) : world :=
  let w := log (EvClose fd) w in
  if existsb (Z.eqb fd) (open_fds w)
  then set_open_fds (filter (fun x => negb (x =? fd)) (open_fds w)) w
  else set_world_errno (EBADF pf) w.

(* ---------------------------------------------------------------- *)
(** *** [_open_execute_fail], [_open_execute] (lines 206-293) *)

(** Inject an error in our data structure and close the socket (if opened) *)
Definition _open_execute_fail
    (_data : _open_data) (_syscall : option string) (_errno : Z)
    (w : world) : world * _open_data :=
  let __socket := __fd _data in
  let _data := set_syscall _syscall _data in
  let _data := set_errno (errno w) _data in
  let _data := set_fd (-1) _data in
  if 1 <? __socket then (w, _data)
  else (close __socket w, _data).

(** [return _open_execute_fail(...)]. *)
Definition fail_and_return {A : Type}
    (__data : _open_data) (_syscall : string) : M _open_data A :=
  fun w =>
    let '(w, d) := _open_execute_fail __data (Some _syscall) (errno w) w in
    (w, inr d).

(** Asynchronously open an ICMP socket and (optionally) bind it to a
    source interface and assign a from address. *)
Definition _open_execute (__data : _open_data)
  : world -> world * _open_data :=
  body (
    (* The proto is `IPPROTO_ICMP` or `IPPROTO_ICMPV6` depending on the
       family *)
    __protocol <-
      (if __sa_family __data =? AF_INET pf then ret (IPPROTO_ICMP pf)
       else if __sa_family __data =? AF_INET6 pf then ret (IPPROTO_ICMPV6 pf)
       else
         (* Whops, unknown or unsupported address family *)
         leave (set_fd (-1) (set_errno (EAFNOSUPPORT pf) __data))) ;;
    (* Open the socket and get the file descriptor *)
    fd <- call (socket (__sa_family __data) (SOCK_DGRAM pf) __protocol) ;;
    let __data := set_fd fd __data in
    (if __fd __data <? 0 then fail_and_return __data "socket"
     else ret tt) ;;;
    (* Optionally bind to an interface *)
    (if (0 <? __interface_length __data)%nat then
       match os pf with
       | Linux =>
           (* On Linux, use "setsockopt" to bind directly to the interface *)
           __result <- call (setsockopt (__fd __data) (SOL_SOCKET pf)
                               (SO_BINDTODEVICE pf)) ;;
           if __result <? 0 then fail_and_return __data "setsockopt"
           else ret tt
       | Apple =>
           (* On Macs, first we have to figure out the interface index *)
           __index <- call (if_nametoindex (C.c_str (__interface __data))) ;;
           (if __index =? 0 then fail_and_return __data "if_nametoindex"
            else ret tt) ;;;
           (* Then determine the sockopt level and option *)
           let '(__level, __option) :=
             if __sa_family __data =? AF_INET pf
             then (IPPROTO_IP pf, IP_BOUND_IF pf)
             else (IPPROTO_IPV6 pf, IPV6_BOUND_IF pf) in
           __result <- call (setsockopt (__fd __data) __level __option) ;;
           if __result <? 0 then fail_and_return __data "setsockopt"
           else ret tt
       | OtherTarget => ret tt
       end
     else ret tt) ;;;
    (* Optionally specify the from address *)
    if (0 <? __sockaddr_size __data)%nat then
      __result <- call (bind_socket (__fd __data) (__sa_family __data)
                          (__sin_addr __data) (__sockaddr_size __data)) ;;
      if negb (__result =? 0)
      then call (fun w => _open_execute_fail __data (Some "bind") (errno w) w)
      else ret __data
    else ret __data).

(* ---------------------------------------------------------------- *)
(** *** [_open_complete] (lines 297-342) *)

(** Complete our call to open a socket and invoke the JavaScript callback *)
Definition _open_complete
    (_status : napi_status) (data : _open_data) (w : world) : world :=
  fst (body (
    (* Copy the data allocated in `_open` and free its pointer *)
    let __data := data in
    act (log EvFree) ;;;
    (* Get JS's `null` and `undefined`, then prep the arguments *)
    __args0 <- NAPI_CALL_VOID "napi_get_null" 310 napi_get_null ;;
    __args1 <- NAPI_CALL_VOID "napi_get_undefined" 311 napi_get_undefined ;;
    ' (__args0, __args1) <-
      (if negb (_status =? napi_ok) then
         let __message_chars :=
           C.snprintf 128
             ("NAPI error opening (status=" ++ C.fmt_d _status ++ ")") in
         __message <- NAPI_CALL_VOID "napi_create_string_latin1" 321
                        (napi_create_string_latin1 __message_chars) ;;
         e <- NAPI_CALL_VOID "napi_create_error" 323
                (napi_create_error None (Some __message)) ;;
         ret (Some e, Some __args1)
       else if __fd __data <? 0 then
         e <- call (_system_error (__syscall __data) (__errno __data)) ;;
         ret (e, Some __args1)
       else
         v <- NAPI_CALL_VOID "napi_create_uint32" 327
                (napi_create_uint32 (__fd __data)) ;;
         ret (Some __args0, Some v)) ;;
    (* Get our callback function *)
    __callback <- NAPI_CALL_VOID "napi_get_reference_value" 332
                    (napi_get_reference_value (__callback_ref __data)) ;;
    (* Call our callback with our arguments, scoped in `global` *)
    __global <- NAPI_CALL_VOID "napi_get_global" 336 napi_get_global ;;
    NAPI_CALL_VOID "napi_call_function" 337
      (napi_call_function __global __callback __args0 __args1) ;;;
    (* Cleanup: delete reference to our callback and our async work *)
    NAPI_CALL_VOID "napi_delete_reference" 340
      (napi_delete_reference (__callback_ref __data)) ;;;
    NAPI_CALL_VOID "napi_delete_async_work" 341
      (napi_delete_async_work (__async_work __data))) w).

(* ---------------------------------------------------------------- *)
(** *** [_open] (lines 346-502) *)

(** [bzero(&__data, sizeof(struct _open_data))] *)
Definition zero_open_data : _open_data :=
  mk_open_data false None 0 0 (C.bzero 16) 0 (C.bzero (IFNAMSIZ pf + 1))
    None 0 0.

Definition null_or_undefined (t : napi_valuetype) : bool :=
  valuetype_eqb t napi_null || valuetype_eqb t napi_undefined.

Definition __ERR_SOURCE_INTERFACE_NAME_TOO_LONG : string :=
  "Source interface must be at most "
    ++ C.fmt_d (Z.of_nat (IFNAMSIZ pf))
    ++ " characters long".

(** [inet_pton] sets [errno] when it fails with a negative result. *)
Definition do_inet_pton (af : Z) (src : string) (w : world)
  : world * (Z * list byte) :=
  let '(r, bytes, e) := inet_pton pf af src in
  if r <? 0 then (set_world_errno e w, (r, bytes)) else (w, (r, bytes)).

(** [_throw_type_error(...); return NULL;] *)
Definition reject {A : Type} (_message : string) : M (option js_value) A :=
  act (_throw_type_error _message) ;;; leave None.

(** The four argument checks and the queueing of [_open], in the order
    of the C function; [_open] below chains them. *)

(** Lines 372-396: the socket family. *)
Definition open_socket_family
    (__data : _open_data) (__socket_family : js_value)
  : M (option js_value) (Z * _open_data) :=
  (* Get the socket's family (should be AF_INET or AF_INET6) *)
  __type <- NAPI_CALL_VALUE "napi_typeof" 373
              (napi_typeof __socket_family) ;;
  (if negb (valuetype_eqb __type napi_number) then
     reject "Specified socket family is not a number"
   else ret tt) ;;;
  (* Validate the socket family (must be AF_INET or AF_INET6) *)
  __sa_family <- NAPI_CALL_VALUE "napi_get_value_int32" 382
                   (napi_get_value_int32 __socket_family) ;;
  if __sa_family =? AF_INET pf then
    ret (__sa_family,
         set_sockaddr_size (sizeof_sockaddr_in pf)
           (set_sa_family (AF_INET pf) __data))
  else if __sa_family =? AF_INET6 pf then
    ret (__sa_family,
         set_sockaddr_size (sizeof_sockaddr_in6 pf)
           (set_sa_family (AF_INET6 pf) __data))
  else reject "Socket family must be AF_INET or AF_INET6".

(** Lines 398-435: the address to bind to (if any). *)
Definition open_from_address
    (__sa_family : Z) (__data : _open_data) (__from_address : js_value)
  : M (option js_value) _open_data :=
  __type <- NAPI_CALL_VALUE "napi_typeof" 399
              (napi_typeof __from_address) ;;
  if null_or_undefined __type then
    ret (set_sockaddr_size 0 __data) (* no binding! *)
  else if negb (valuetype_eqb __type napi_string) then
    reject "From address must be a string, null or undefined"
  else
    (* Figure out the `in(6)_addr` structure for the address *)
    let __buffer := C.bzero 42 in
    (* Convert the address string into a C string *)
    ' (__buffer, __size) <-
      NAPI_CALL_VALUE "napi_get_value_string_latin1" 412
        (napi_get_value_string_latin1 __from_address __buffer 42) ;;
    (* Check that the address is actually of the correct length *)
    (if (40 <? __size)%nat then
       act (_throw_type_error
              "From address must be at most 40 characters long")
     else ret tt) ;;;
    (* Convert the C string into a network address and check *)
    ' (__result, __in_addr) <-
      call (do_inet_pton __sa_family (C.c_str __buffer)) ;;
    if __result <? 0 then
      act (fun w => _throw_system_error (Some "inet_pton") (errno w) w) ;;;
      leave None
    else if __result =? 0 then
      let __format :=
        if __sa_family =? AF_INET pf then "Invalid IPv4 from address: "
        else if __sa_family =? AF_INET6 pf
             then "Invalid IPv6 from address: "
             else "Invalid from address: " in
      reject (C.snprintf 128 (__format ++ C.c_str __buffer))
    else ret (set_sin_addr __in_addr __data).

(** Lines 437-462: the interface to bind to (if any). *)
Definition open_source_interface
    (__data : _open_data) (__source_interface : js_value)
  : M (option js_value) _open_data :=
  __type <- NAPI_CALL_VALUE "napi_typeof" 438
              (napi_typeof __source_interface) ;;
  if null_or_undefined __type then
    ret (set_interface_length 0 __data) (* no interface binding! *)
  else if negb (valuetype_eqb __type napi_string) then
    reject "Source interface must be a string, null or undefined"
  else
    let __buffer := C.bzero (IFNAMSIZ pf + 2) in
    (* Convert the address string into a C string *)
    ' (__buffer, __size) <-
      NAPI_CALL_VALUE "napi_get_value_string_latin1" 451
        (napi_get_value_string_latin1 __source_interface __buffer
           (IFNAMSIZ pf + 2)) ;;
    (* Check that the address is actually of the correct length *)
    if (IFNAMSIZ pf <? __size)%nat then
      reject __ERR_SOURCE_INTERFACE_NAME_TOO_LONG
    else
      (* Copy the interface name into our data structure *)
      match C.memcpy (__interface __data) __buffer (__size + 1) with
      | Some copy =>
          ret (set_interface_length __size (set_interface copy __data))
      | None =>
          act (log EvFault) ;;; ret (set_interface_length __size __data)
      end.

(** Lines 464-473: the callback and the reference to it. *)
Definition open_callback (__data : _open_data) (__callback : js_value)
  : M (option js_value) _open_data :=
  (* Get the type of our last argument, which must be a function *)
  __type <- NAPI_CALL_VALUE "napi_typeof" 465 (napi_typeof __callback) ;;
  (if negb (valuetype_eqb __type napi_function) then
     reject "Specified callback is not a function"
   else ret tt) ;;;
  (* Create a reference to our callback function *)
  ref <- NAPI_CALL_VALUE "napi_create_reference" 473
           (napi_create_reference __callback) ;;
  ret (set_callback_ref ref __data).

(** Lines 475-498: the heap copy of the request and its async work. *)
Definition open_queue (__data : _open_data)
  : M (option js_value) unit :=
  (* Create a resource and resource name for our async work *)
  __resource <- NAPI_CALL_VALUE "napi_create_object" 479
                  napi_create_object ;;
  __resource_name <- NAPI_CALL_VALUE "napi_create_string_latin1" 480
                       (napi_create_string_latin1 "ping_open") ;;
  (* Allocate _now_ the real `_open_data` structure. We do it here
     because if there are errors above we won't leak memory... *)
  act (log EvMalloc) ;;;
  let __data_ptr := __data in
  (* Create our async work to be queued *)
  work <- NAPI_CALL_VALUE "napi_create_async_work" 488
            napi_create_async_work ;;
  let __data_ptr := set_async_work work __data_ptr in
  (* Queue up our async work *)
  NAPI_CALL_VALUE "napi_queue_async_work" 498
    (napi_queue_async_work __data_ptr) ;;;
  ret tt.

(** Initiate our asynchronous `open` call *)
Definition _open (_info : list js_value)
  : world -> world * option js_value :=
  body (
    (* Allocate _open_data here, it'll be malloc'ed later *)
    let __data := zero_open_data in
    (* Get our `open` call arguments *)
    ' (__argc, __args) <- NAPI_CALL_VALUE "napi_get_cb_info" 360
                            (napi_get_cb_info _info 4) ;;
    (if negb (__argc =? 4)%nat then
       reject "Expected 4 arguments: socket family, from address, source interface, callback"
     else ret tt) ;;;
    let __socket_family := nth 0 __args JsUndefined in
    let __from_address := nth 1 __args JsUndefined in
    let __source_interface := nth 2 __args JsUndefined in
    let __callback := nth 3 __args JsUndefined in
    ' (__sa_family, __data) <- open_socket_family __data __socket_family ;;
    __data <- open_from_address __sa_family __data __from_address ;;
    __data <- open_source_interface __data __source_interface ;;
    __data <- open_callback __data __callback ;;
    open_queue __data ;;;
    (* Return JS `undefined` *)
    ret None).

(* ---------------------------------------------------------------- *)
(** *** The asynchronous engine and the JavaScript call

    [napi_queue_async_work] promises that the [execute] function given
    to [napi_create_async_work] runs once on a worker thread and that
    [complete] then runs once on the main thread with the work's status;
    a work item that was cancelled is completed with a status other
    than [napi_ok] without having been executed. *)

Definition run_async_work (w : world) : world :=
  match queued w with
  | None => w
  | Some data =>
      let w := set_queued None w in
      let _status := work_status rt in
      let '(w, data) :=
        if _status =? napi_ok then _open_execute data (log EvExecute w)
        else (w, data) in
      _open_complete _status data w
  end.

(** A JavaScript call [open(...)]: the call itself, which ends with the
    exception it threw, if any; then, the exception being the caller's,
    the event loop runs what the call queued. *)
Definition js_open (_info : list js_value) (w : world) : call_result :=
  let w1 := fst (_open _info w) in
  {| exception := pending w1;
     returned := w1;
     settled := run_async_work (set_pending None w1) |}.

End Addon.

(* ------------------------------------------------------------------ *)
(** ** [init] (ping.c, lines 504-528)

    [init] is handed the module's [exports] object and writes to it in
    place.  The object is its own properties, in the order of their
    creation, and whether it was frozen.  It is the one object of the
    caller that [init] touches: an N-API call that writes to it takes the
    object as it is and gives it as the call leaves it, and [init] ends
    with the object as its calls left it, whether it returns [_exports]
    or NULL. *)

Record js_object : Type := mk_js_object {
  properties : list (string * js_value);
  frozen : bool
}.

(** [object[name] = v]: a property that exists is overwritten in place,
    a new one comes last. *)
Fixpoint set_property (name : string) (v : js_value)
    (props : list (string * js_value)) : list (string * js_value) :=
  match props with
  | [] => [(name, v)]
  | (k, x) :: rest =>
      if String.eqb k name then (k, v) :: rest
      else (k, x) :: set_property name v rest
  end.

(** [object[name]] *)
Fixpoint get_property (name : string) (props : list (string * js_value))
  : option js_value :=
  match props with
  | [] => None
  | (k, x) :: rest =>
      if String.eqb k name then Some x else get_property name rest
  end.

(** The native function [_open], as [napi_create_function] is given it. *)
Definition _open_callback : nat := 0.

(** How a call to [init] ends: the object [_exports] points to, as the
    calls of [init] left it, and what [init] returned, [_exports] or
    NULL. *)
Record init_outcome : Type := mk_init_outcome {
  exports_object : js_object;
  returns_exports : bool
}.

Section Init.

Variable rt : runtime.
Variable pf : platform.

(** [ADDON_VERSION], defined by gyp, [0.0.0] otherwise (lines 11-14). *)
Variable ADDON_VERSION : string.

Local Open Scope string_scope.
Local Open Scope Z_scope.
Local Open Scope c_scope.

(** [napi_set_named_property] on an object: it refuses to work while an
    exception is pending; a write to a frozen object is ignored. *)
Definition napi_set_named_property_of
    (object : js_object) (name : string) (v : js_value)
  : napi_fn js_object :=
  fun st w =>
    match pending w with
    | Some _ => (w, (napi_pending_exception, object))
    | None =>
        if st =? napi_ok then
          if frozen object then (w, (st, object))
          else (w, (st, mk_js_object
                          (set_property name v (properties object)) false))
        else (w, (st, object))
    end.

(** [napi_create_function] for the native callback [cb]. *)
Definition napi_create_function (name : string) (cb : nat)
  : napi_fn js_value :=
  fun st w =>
    match pending w with
    | Some _ => (w, (napi_pending_exception, JsUndefined))
    | None => (w, (st, JsFunction cb))
    end.

Definition napi_object_freeze (object : js_object) : napi_fn js_object :=
  fun st w =>
    match pending w with
    | Some _ => (w, (napi_pending_exception, object))
    | None =>
        if st =? napi_ok
        then (w, (st, mk_js_object (properties object) true))
        else (w, (st, object))
    end.

(** [return NULL], as [NAPI_CALL_VALUE] does after a failed call: the
    object stays as the calls before left it. *)
Definition returns_null (_exports : js_object) : init_outcome :=
  mk_init_outcome _exports false.

(** [init] returns [_exports], or NULL after a failed N-API call.  Each
    binding of [_exports] below is the object after the call that wrote
    to it. *)
Definition init (_exports : js_object) : world -> world * init_outcome :=
  body (
    __version <- NAPI_CALL rt (returns_null _exports)
                   "napi_create_string_latin1" 509
                   (napi_create_string_latin1 ADDON_VERSION) ;;
    _exports <- NAPI_CALL rt (returns_null _exports)
                  "napi_set_named_property" 510
                  (napi_set_named_property_of _exports "version" __version) ;;
    __af_inet <- NAPI_CALL rt (returns_null _exports)
                   "napi_create_uint32" 513
                   (napi_create_uint32 (AF_INET pf)) ;;
    _exports <- NAPI_CALL rt (returns_null _exports)
                  "napi_set_named_property" 514
                  (napi_set_named_property_of _exports "AF_INET" __af_inet) ;;
    __af_inet6 <- NAPI_CALL rt (returns_null _exports)
                    "napi_create_uint32" 517
                    (napi_create_uint32 (AF_INET6 pf)) ;;
    _exports <- NAPI_CALL rt (returns_null _exports)
                  "napi_set_named_property" 518
                  (napi_set_named_property_of _exports "AF_INET6" __af_inet6) ;;
    __open_fn <- NAPI_CALL rt (returns_null _exports)
                   "napi_create_function" 521
                   (napi_create_function "open" _open_callback) ;;
    _exports <- NAPI_CALL rt (returns_null _exports)
                  "napi_set_named_property" 522
                  (napi_set_named_property_of _exports "open" __open_fn) ;;
    _exports <- NAPI_CALL rt (returns_null _exports)
                  "napi_object_freeze" 524
                  (napi_object_freeze _exports) ;;
    ret (mk_init_outcome _exports true)).

End Init.

(* ------------------------------------------------------------------ *)
(** ** Concrete surroundings

    The theorems below hold for every [platform] and [runtime].  To run
    the addon on concrete calls we also need one of each: Linux on x86-64
    with its header constants, [inet_pton] as the C library implements it
    for dotted-quad IPv4 and RFC 4291 IPv6 text, and libuv's error table
    with its fallback for codes it does not know. *)

Module Libc.

Definition digit_value (c : ascii) : option Z :=
  let n := Z.of_nat (nat_of_ascii c) in
  if (48 <=? n) && (n <=? 57) then Some (n - 48) else None.

Definition hex_digit_value (c : ascii) : option Z :=
  let n := Z.of_nat (nat_of_ascii c) in
  if (48 <=? n) && (n <=? 57) then Some (n - 48)
  else if (97 <=? n) && (n <=? 102) then Some (n - 87)
  else if (65 <=? n) && (n <=? 70) then Some (n - 55)
  else None.

(** The loop of [inet_pton4]: [done] holds the finished octets, latest
    first, [cur] the octet being read. *)
Fixpoint inet_pton4_loop (src : string) (done : list Z) (cur : Z)
    (saw_digit : bool) (octets : nat) : option (list Z) :=
  match src with
  | EmptyString =>
      if (octets <? 4)%nat then None else Some (rev (cur :: done))
  | String ch rest =>
      match digit_value ch with
      | Some d =>
          let new := cur * 10 + d in
          if saw_digit && (cur =? 0) then None
          else if 255 <? new then None
          else if saw_digit then inet_pton4_loop rest done new true octets
          else if (4 <? S octets)%nat then None
          else inet_pton4_loop rest done new true (S octets)
      | None =>
          if Ascii.eqb ch "."%char && saw_digit then
            if (octets =? 4)%nat then None
            else inet_pton4_loop rest (cur :: done) 0 false octets
          else None
      end
  end.

Definition inet_pton4 (src : string) : option (list Z) :=
  inet_pton4_loop src [] 0 false 0%nat.

Definition two_bytes (val : Z) : list Z :=
  [Z.land (Z.shiftr val 8) 255; Z.land val 255].

(** The loop of [inet_pton6]: [out] holds the bytes written so far,
    [colonp] where a [::] was seen, [curtok] the text of the current
    group, [seen] its number of hex digits and [val] their value. *)
Fixpoint inet_pton6_loop (src curtok : string) (out : list Z)
    (colonp : option nat) (seen : nat) (val : Z)
  : option (list Z * option nat * nat * Z) :=
  match src with
  | EmptyString => Some (out, colonp, seen, val)
  | String ch rest =>
      match hex_digit_value ch with
      | Some digit =>
          if (seen =? 4)%nat then None
          else
            let val := Z.lor (Z.shiftl val 4) digit in
            if 65535 <? val then None
            else inet_pton6_loop rest curtok out colonp (S seen) val
      | None =>
          if Ascii.eqb ch ":"%char then
            if (seen =? 0)%nat then
              match colonp with
              | Some _ => None
              | None =>
                  inet_pton6_loop rest rest out (Some (List.length out)) 0 val
              end
            else
              match rest with
              | EmptyString => None
              | _ =>
                  if (16 <? List.length out + 2)%nat then None
                  else inet_pton6_loop rest rest (out ++ two_bytes val)
                         colonp 0 0
              end
          else if Ascii.eqb ch "."%char && (List.length out + 4 <=? 16)%nat then
            match inet_pton4 curtok with
            | Some quad => Some (out ++ quad, colonp, 0%nat, val)
            | None => None
            end
          else None
      end
  end.

Definition inet_pton6 (src : string) : option (list Z) :=
  let start :=
    match src with
    | EmptyString => None
    | String ":"%char (String ":"%char _ as rest) => Some rest
    | String ":"%char _ => None
    | _ => Some src
    end in
  match start with
  | None => None
  | Some src =>
      match inet_pton6_loop src src [] None 0 0 with
      | None => None
      | Some (out, colonp, seen, val) =>
          let flushed :=
            if (0 <? seen)%nat then
              if (16 <? List.length out + 2)%nat then None
              else Some (out ++ two_bytes val)
            else Some out in
          match flushed, colonp with
          | None, _ => None
          | Some out, Some c =>
              if (List.length out =? 16)%nat then None
              else Some (firstn c out ++ repeat 0 (16 - List.length out)
                           ++ skipn c out)
          | Some out, None =>
              if (List.length out =? 16)%nat then Some out else None
          end
      end
  end.

Definition byte_of_Z (z : Z) : byte :=
  match Byte.of_N (Z.to_N z) with Some b => b | None => x00 end.

Definition inet_pton (AF_INET AF_INET6 EAFNOSUPPORT : Z)
    (af : Z) (src : string) : Z * list byte * Z :=
  let parsed :=
    if af =? AF_INET then Some (inet_pton4 src)
    else if af =? AF_INET6 then Some (inet_pton6 src)
    else None in
  match parsed with
  | Some (Some addr) => (1, map byte_of_Z addr, 0)
  | Some None => (0, [], 0)
  | None => (-1, [], EAFNOSUPPORT)
  end.

End Libc.

Module Uv.

Local Open Scope string_scope.
Local Open Scope Z_scope.

(** On Unix a libuv error code is the negated [errno]. *)
Definition uv_translate_sys_error (sys_errno : Z) : Z :=
  if sys_errno <=? 0 then sys_errno else - sys_errno.

(** Some rows of [UV_ERRNO_MAP], by Linux [errno]: name and message. *)
Definition errno_map : list (Z * (string * string)) :=
  [ (1, ("EPERM", "operation not permitted"));
    (9, ("EBADF", "bad file descriptor"));
    (13, ("EACCES", "permission denied"));
    (19, ("ENODEV", "no such device"));
    (22, ("EINVAL", "invalid argument"));
    (97, ("EAFNOSUPPORT", "address family not supported"));
    (98, ("EADDRINUSE", "address already in use"));
    (99, ("EADDRNOTAVAIL", "address not available")) ].

Fixpoint lookup (err : Z) (m : list (Z * (string * string)))
  : option (string * string) :=
  match m with
  | [] => None
  | (e, row) :: rest => if err =? - e then Some row else lookup err rest
  end.

Definition recognized (err : Z) : bool :=
  match lookup err errno_map with Some _ => true | None => false end.

Definition unknown_err_code (err : Z) : string :=
  "Unknown system error " ++ C.fmt_d err.

Definition uv_err_name (err : Z) : string :=
  match lookup err errno_map with
  | Some (name, _) => name
  | None => unknown_err_code err
  end.

Definition uv_strerror (err : Z) : string :=
  match lookup err errno_map with
  | Some (_, msg) => msg
  | None => unknown_err_code err
  end.

End Uv.

(** Linux: the kernel answers [socket], [setsockopt] and [bind] with the
    given results, each a return value and the [errno] of a failure. *)
Definition linux (sock sockopt bnd : Z * Z) : platform :=
  {| os := Linux;
     IFNAMSIZ := 16;
     AF_INET := 2;
     AF_INET6 := 10;
     SOCK_DGRAM := 2;
     IPPROTO_ICMP := 1;
     IPPROTO_ICMPV6 := 58;
     IPPROTO_IP := 0;
     IPPROTO_IPV6 := 41;
     SOL_SOCKET := 1;
     SO_BINDTODEVICE := 25;
     IP_BOUND_IF := 25;
     IPV6_BOUND_IF := 125;
     EAFNOSUPPORT := 97;
     EBADF := 9;
     sizeof_sockaddr_in := 16;
     sizeof_sockaddr_in6 := 28;
     inet_pton := Libc.inet_pton 2 10 97;
     sys_socket := fun _ _ _ => sock;
     sys_setsockopt := fun _ _ _ => sockopt;
     sys_if_nametoindex := fun _ => (0, 19);
     sys_bind := fun _ _ _ _ => bnd;
     uv_translate_sys_error := Uv.uv_translate_sys_error;
     uv_strerror := Uv.uv_strerror;
     uv_err_name := Uv.uv_err_name |}.

(** Linux where every system call succeeds and [socket] returns 3. *)
Definition linux_ok : platform := linux (3, 0) (0, 0) (0, 0).

(** A runtime whose N-API calls all succeed and whose handler returns. *)
Definition node : runtime :=
  {| napi_result := fun _ _ => napi_ok;
     last_error_message := None;
     work_status := napi_ok;
     handler_throws := None |}.

(** The same, with a handler that throws. *)
Definition node_handler_throws : runtime :=
  {| napi_result := fun _ _ => napi_ok;
     last_error_message := None;
     work_status := napi_ok;
     handler_throws := Some (JsError false None "handler failed" []) |}.

(* ------------------------------------------------------------------ *)
(** ** What the claims speak of *)

(** The environment assumption of the theorems about the runtime: every
    N-API call the addon makes returns [napi_ok]. *)
Definition napi_all_ok (rt : runtime) : Prop :=
  forall (call : string) (line : Z), napi_result rt call line = napi_ok.

Definition count_events (p : event -> bool) (tr : list event) : nat :=
  List.length (filter p tr).

Definition is_call (e : event) : bool :=
  match e with EvCallFunction _ _ => true | _ => false end.

Definition is_syscall (e : event) : bool :=
  match e with
  | EvSocket _ _ _ _ | EvIfNametoindex _ _ | EvSetsockopt _ _ _ _
  | EvBind _ _ _ | EvClose _ => true
  | _ => false
  end.

Definition is_bind (e : event) : bool :=
  match e with EvBind _ _ _ => true | _ => false end.

Definition is_close (e : event) : bool :=
  match e with EvClose _ => true | _ => false end.

(** The number of times the completion handler was invoked. *)
Definition handler_calls (w : world) : nat := count_events is_call (trace w).

(** A slot of the handler is absent when it holds [null] or [undefined]. *)
Definition absent (slot : option js_value) : Prop :=
  slot = Some JsNull \/ slot = Some JsUndefined.

Definition is_error (slot : option js_value) : Prop :=
  exists t code msg props, slot = Some (JsError t code msg props).

Definition is_descriptor (slot : option js_value) : Prop :=
  exists fd, slot = Some (JsNumber fd) /\ 0 <= fd.

(** Exactly one of the two slots is populated. *)
Definition one_slot (arg0 arg1 : option js_value) : Prop :=
  (is_error arg0 /\ absent arg1) \/ (absent arg0 /\ is_descriptor arg1).

(** The outcome recorded in a request after [_open_execute]. *)
Definition failure (d : _open_data) : Prop := __fd d < 0.

Definition type_error (msg : string) : js_value := JsError true None msg [].

(** The world after the exception [e] was thrown. *)
Definition thrown (e : js_value) (w : world) : world :=
  log (EvThrow e) (set_pending (Some e) w).

(** The text [inet_pton] is given for an address string. *)
Definition address_text (s : string) : string :=
  C.c_str (fst (copy_latin1 s (C.bzero 42) 42)).

(** The validation failures of [open], by argument: a family that is no
    number, or a number that is neither AF_INET nor AF_INET6; an address
    string of more than 40 characters, or one that is no address of the
    family for [inet_pton]; an interface name of more than [IFNAMSIZ]
    characters; a handler that is no function. *)
Inductive validation_failure (pf : platform)
  : js_value -> js_value -> js_value -> js_value -> Prop :=
| family_not_a_number family address interface handler :
    typeof family <> napi_number ->
    validation_failure pf family address interface handler
| bad_family n address interface handler :
    C.to_int32 n <> AF_INET pf -> C.to_int32 n <> AF_INET6 pf ->
    validation_failure pf (JsNumber n) address interface handler
| overlong_address family s interface handler :
    (40 < String.length s)%nat ->
    validation_failure pf family (JsString s) interface handler
| malformed_address n s interface handler :
    fst (fst (inet_pton pf (C.to_int32 n) s)) = 0 ->
    validation_failure pf (JsNumber n) (JsString s) interface handler
| oversized_interface family address s handler :
    (IFNAMSIZ pf < String.length s)%nat ->
    validation_failure pf family address (JsString s) handler
| non_callable_handler family address interface handler :
    typeof handler <> napi_function ->
    validation_failure pf family address interface handler.



(** The error value of a failed system call, in the words of the amended
    translation rule: message and code name from libuv unless the error
    code is zero; the code as [errno]; the system call when known. *)
Definition system_error_value (pf : platform)
    (_syscall : option string) (_errno : Z) : js_value :=
  JsError false
    (if _errno =? 0 then None
     else Some (uv_err_name pf (uv_translate_sys_error pf _errno)))
    (if _errno =? 0 then "Unknown Error"%string
     else uv_strerror pf (uv_translate_sys_error pf _errno))
    (("errno"%string, JsNumber (C.to_uint32 _errno))
       :: match _syscall with
          | Some name => [("syscall"%string, JsString name)]
          | None => []
          end).


(** The two slots handed to the completion handler, by the status of the
    work and the outcome recorded in the request. *)
Definition completion_slots (pf : platform) (_status : napi_status)
    (d : _open_data) : option js_value * option js_value :=
  if negb (_status =? napi_ok) then
    (Some (JsError false None
             (C.snprintf 128
                ("NAPI error opening (status=" ++ C.fmt_d _status ++ ")"))
             []),
     Some JsUndefined)
  else if __fd d <? 0 then
    (Some (system_error_value pf (__syscall d) (__errno d)), Some JsUndefined)
  else (Some JsNull, Some (JsNumber (C.to_uint32 (__fd d)))).

(** A request as [_open] queues it: it holds a reference to a function
    and its async work. *)
Definition well_formed_request (d : _open_data) : Prop :=
  (exists f, __callback_ref d = Some (JsFunction f)) /\ __async_work d = true.


(** The checks of [_open], each as a test on the argument. *)
Definition family_of (family : js_value) : Z :=
  match family with JsNumber n => C.to_int32 n | _ => 0 end.

Definition family_ok (pf : platform) (family : js_value) : bool :=
  match family with
  | JsNumber n => (C.to_int32 n =? AF_INET pf) || (C.to_int32 n =? AF_INET6 pf)
  | _ => false
  end.

Definition address_ok (pf : platform) (family address : js_value) : bool :=
  match address with
  | JsNull | JsUndefined => true
  | JsString s =>
      0 <? fst (fst (inet_pton pf (family_of family) (address_text s)))
  | _ => false
  end.

Definition interface_ok (pf : platform) (interface : js_value) : bool :=
  match interface with
  | JsNull | JsUndefined => true
  | JsString s => (String.length s <=? IFNAMSIZ pf)%nat
  | _ => false
  end.

Definition handler_ok (handler : js_value) : bool :=
  match handler with JsFunction _ => true | _ => false end.

(** The calls that get past every [return NULL] of [_open]. *)
Definition reaches_queue (pf : platform)
    (family address interface handler : js_value) : bool :=
  family_ok pf family && address_ok pf family address
  && interface_ok pf interface && handler_ok handler.

(** The calls that a check of [_open] stops: those that do not have four
    arguments, and those that do not get past every [return NULL]. *)
Definition stopped_by_a_check (pf : platform) (info : list js_value) : bool :=
  match info with
  | [family; address; interface; handler] =>
      negb (reaches_queue pf family address interface handler)
  | _ => true
  end.

(** The address strings the length check of line 415 objects to. *)
Definition address_too_long (address : js_value) : bool :=
  match address with
  | JsString s => (40 <? String.length s)%nat
  | _ => false
  end.

(** The request record [_open] builds, argument by argument. *)
Definition with_family (pf : platform) (family : js_value)
    (d : _open_data) : _open_data :=
  if family_of family =? AF_INET pf
  then set_sockaddr_size (sizeof_sockaddr_in pf) (set_sa_family (AF_INET pf) d)
  else set_sockaddr_size (sizeof_sockaddr_in6 pf)
         (set_sa_family (AF_INET6 pf) d).

Definition with_address (pf : platform) (family address : js_value)
    (d : _open_data) : _open_data :=
  match address with
  | JsString s =>
      set_sin_addr
        (snd (fst (inet_pton pf (family_of family) (address_text s)))) d
  | _ => set_sockaddr_size 0 d
  end.

Definition with_interface (interface : js_value) (d : _open_data)
  : _open_data :=
  match interface with
  | JsString s =>
      set_interface_length (String.length s)
        (set_interface
           (list_byte_of_string s
              ++ x00 :: skipn (S (String.length s)) (__interface d)) d)
  | _ => set_interface_length 0 d
  end.

Definition request_of (pf : platform)
    (family address interface handler : js_value) : _open_data :=
  set_async_work true
    (set_callback_ref (Some handler)
       (with_interface interface
          (with_address pf family address
             (with_family pf family (zero_open_data pf))))).

(** The world after [_open] queued the request [d]. *)
Definition enqueued (d : _open_data) (w : world) : world :=
  log EvQueueAsyncWork
    (set_queued (Some d)
       (log EvCreateAsyncWork (log EvMalloc (log EvCreateReference w)))).

(** What the worker thread may do: enter [_open_execute] and make
    system calls. *)
Definition is_worker_event (e : event) : bool :=
  match e with EvExecute => true | _ => is_syscall e end.

(** The events that release the request record ([free]) and the handler
    reference ([napi_delete_reference]). *)
Definition is_release (e : event) : bool :=
  match e with EvFree | EvDeleteReference => true | _ => false end.

(** The events of a completion step that runs to its end. *)
Definition completion (arg0 arg1 : option js_value) : list event :=
  [EvFree; EvCallFunction arg0 arg1; EvDeleteReference; EvDeleteAsyncWork].

(** The system calls other than [bind]. *)
Definition not_bind (e : event) : bool := is_syscall e && negb (is_bind e).

(** What [_open_execute_fail] leaves of a request: everything but the
    outcome. *)
Definition same_request (d d' : _open_data) : Prop :=
  __callback_ref d' = __callback_ref d /\ __async_work d' = __async_work d.

(** The messages of lines 363 and 416. *)
Definition argc_message : string :=
  "Expected 4 arguments: socket family, from address, source interface, callback".

Definition too_long_message : string :=
  "From address must be at most 40 characters long".

(** The world in which the later checks of [_open] run: the length check
    of line 415 throws and goes on. *)
Definition after_length_check (addr : js_value) (w : world) : world :=
  if address_too_long addr
  then thrown (type_error too_long_message) w
  else w.

(** The call was refused: one exception thrown, and nothing else done. *)
Definition rejected (w w1 : world) : Prop :=
  exists e, pending w1 = Some e /\ trace w1 = trace w ++ [EvThrow e]
            /\ queued w1 = queued w /\ open_fds w1 = open_fds w.

(** Every release in the trace comes after an invocation of the handler:
    what "released strictly after the completion handler has been
    invoked" asks of a trace. [called] tells whether the handler was
    invoked before the trace starts. *)
Fixpoint releases_follow_call (called : bool) (tr : list event) : bool :=
  match tr with
  | [] => true
  | EvCallFunction _ _ :: rest => releases_follow_call true rest
  | (EvFree | EvDeleteReference) :: rest =>
      called && releases_follow_call called rest
  | _ :: rest => releases_follow_call called rest
  end.

(** The 41 characters of an IPv4-mapped IPv6 address written in full. *)
Definition long_address : string :=
  "0000:0000:0000:0000:0000:ffff:192.168.1.1".

(** 42 characters that are no IPv6 address: the address above and one
    character more. *)
Definition malformed_long_address : string :=
  "0000:0000:0000:0000:0000:ffff:192.168.1.1x".

(** The system calls the worker thread makes when it never closes a
    descriptor greater than 1. *)
Definition closes_low (e : event) : bool :=
  is_syscall e && match e with EvClose fd => fd <=? 1 | _ => true end.

Definition is_fault (e : event) : bool :=
  match e with EvFault => true | _ => false end.


Definition is_throw (e : event) : bool :=
  match e with EvThrow _ => true | _ => false end.

(** What [_open] may do on the caller's thread. *)
Definition is_open_event (e : event) : bool :=
  match e with
  | EvThrow _ | EvCreateReference | EvMalloc | EvCreateAsyncWork
  | EvQueueAsyncWork => true
  | _ => false
  end.

(** [w'] is [w] after exceptions were thrown, and nothing else done. *)
Definition throws_only (w w' : world) : Prop :=
  queued w' = queued w /\ open_fds w' = open_fds w /\
  exists tr, trace w' = trace w ++ tr /\ forallb is_throw tr = true.

(** [w'] is [w] after events of [_open] on the caller's thread. *)
Definition opens_only (w w' : world) : Prop :=
  open_fds w' = open_fds w /\
  exists tr, trace w' = trace w ++ tr /\ forallb is_open_event tr = true.


(** The stages of a completion step after the request record was freed,
    and the events that lead from one to the next; an exception may be
    thrown at any stage. *)
Inductive stage : Set := Freed | Called | Unreferenced | Finished.

Definition step (s : stage) (e : event) : option stage :=
  match e, s with
  | EvThrow _, _ => Some s
  | EvCallFunction _ _, Freed => Some Called
  | EvDeleteReference, Called => Some Unreferenced
  | EvDeleteAsyncWork, Unreferenced => Some Finished
  | _, _ => None
  end.

(** The stage a trace leads to from [s], if it is in order. *)
Fixpoint run_order (s : stage) (tr : list event) : option stage :=
  match tr with
  | [] => Some s
  | e :: rest =>
      match step s e with
      | Some s' => run_order s' rest
      | None => None
      end
  end.

(** [w'] is [w] after a completion step that got to stage [s]: the
    record freed first, then events in order. *)
Definition completed_to (s : stage) (w w' : world) : Prop :=
  queued w' = queued w /\ open_fds w' = open_fds w /\
  exists tr, trace w' = trace w ++ EvFree :: tr /\ run_order Freed tr = Some s.

(** [extends P w w']: [w'] is [w] after some events that all satisfy [P],
    with the pending exception and the queue untouched. *)
Definition extends (P : event -> bool) (w w' : world) : Prop :=
  pending w' = pending w /\ queued w' = queued w /\
  exists tr, trace w' = trace w ++ tr /\ forallb P tr = true.

(* ------------------------------------------------------------------ *)
(** ** Exceptions, call by call *)

(** The exceptions thrown so far, oldest first. *)
Definition throws_of (w : world) : list event := filter is_throw (trace w).

(** [w'] is [w] after code that throws at most one exception, and none
    when one is pending: the exception pending first stays. *)
Definition first_wins (w w' : world) : Prop :=
  match pending w with
  | Some e => pending w' = Some e /\ throws_of w' = throws_of w
  | None =>
      (pending w' = None /\ throws_of w' = throws_of w)
      \/ exists e, pending w' = Some e
                   /\ throws_of w' = throws_of w ++ [EvThrow e]
  end.

(** The runtime lets the addon throw: the calls by which
    [_napi_call_error], [_throw_type_error] and [_throw_system_error]
    test for a pending exception and throw return [napi_ok]. *)
Definition can_throw (rt : runtime) : Prop :=
  napi_result rt "napi_is_exception_pending" 52 = napi_ok
  /\ napi_result rt "napi_throw_error" 56 = napi_ok
  /\ napi_result rt "napi_is_exception_pending" 138 = napi_ok
  /\ napi_result rt "napi_throw_type_error" 141 = napi_ok
  /\ napi_result rt "napi_is_exception_pending" 152 = napi_ok
  /\ napi_result rt "napi_throw" 156 = napi_ok
  /\ napi_result rt "napi_throw_type_error" 164 = napi_ok.

(** What a block of [_open] does to exceptions, from [w]: at most one is
    thrown, and a block that makes [_open] return leaves one pending
    when the runtime lets the addon throw. *)
Definition raises {A R : Type} (rt : runtime) (w w' : world) (r : A + R)
  : Prop :=
  first_wins w w'
  /\ match r with
     | inl _ => True
     | inr _ => can_throw rt -> pending w' <> None
     end.

(* ------------------------------------------------------------------ *)
(** ** Requests as the worker thread expects them *)

(** What [_open_execute] and [_open_complete] rely on in a request: a
    family [socket] is asked for, an address size that is zero or that of
    the family, the interface name terminated within its buffer, a
    reference to a function, the async work, and no outcome yet. *)
Definition worker_ready (pf : platform) (d : _open_data) : Prop :=
  (__sa_family d = AF_INET pf \/ __sa_family d = AF_INET6 pf)
  /\ (__sockaddr_size d = 0%nat
      \/ (__sa_family d = AF_INET pf
          /\ __sockaddr_size d = sizeof_sockaddr_in pf)
      \/ (__sa_family d = AF_INET6 pf
          /\ __sockaddr_size d = sizeof_sockaddr_in6 pf))
  /\ List.length (__interface d) = (IFNAMSIZ pf + 1)%nat
  /\ (__interface_length d <= IFNAMSIZ pf)%nat
  /\ nth (__interface_length d) (__interface d) x01 = x00
  /\ (exists f, __callback_ref d = Some (JsFunction f))
  /\ __async_work d = true
  /\ __syscall d = None /\ __errno d = 0 /\ __fd d = 0.

(** A runtime in which the N-API call at one line of ping.c fails with
    [napi_generic_failure] and every other one succeeds. *)
Definition node_failing_at (line : Z) : runtime :=
  {| napi_result := fun _ l => if l =? line then napi_generic_failure
                               else napi_ok;
     last_error_message := None;
     work_status := napi_ok;
     handler_throws := None |}.

(* ------------------------------------------------------------------ *)
(** ** The system calls of the worker thread, one by one *)

(** Whether a system call failed, as [_open_execute] tests its result. *)
Definition call_failed (e : event) : bool :=
  match e with
  | EvSocket _ _ _ r | EvSetsockopt _ _ _ r => r <? 0
  | EvIfNametoindex _ r => r =? 0
  | EvBind _ _ r => negb (r =? 0)
  | _ => false
  end.

(** The name [_open_execute] gives [_open_execute_fail] for it. *)
Definition call_name (e : event) : option string :=
  match e with
  | EvSocket _ _ _ _ => Some "socket"%string
  | EvSetsockopt _ _ _ _ => Some "setsockopt"%string
  | EvIfNametoindex _ _ => Some "if_nametoindex"%string
  | EvBind _ _ _ => Some "bind"%string
  | _ => None
  end.

(** The protocol [_open_execute] asks [socket] for. *)
Definition icmp_protocol (pf : platform) (family : Z) : Z :=
  if family =? AF_INET pf then IPPROTO_ICMP pf else IPPROTO_ICMPV6 pf.

(** Whether the kernel set [errno] for the call: [bind] sets it when it
    returns a negative number, the other calls when they fail. *)
Definition sets_errno (e : event) : bool :=
  match e with
  | EvBind _ _ r => r <? 0
  | _ => call_failed e
  end.

(** The [errno] the kernel answers the call with, for the request [d]. *)
Definition kernel_errno (pf : platform) (d : _open_data) (e : event) : Z :=
  match e with
  | EvSocket dm ty pr _ => snd (sys_socket pf dm ty pr)
  | EvSetsockopt fd lv op _ => snd (sys_setsockopt pf fd lv op)
  | EvIfNametoindex name _ => snd (sys_if_nametoindex pf name)
  | EvBind fd size _ =>
      snd (sys_bind pf fd (__sa_family d) (__sin_addr d) size)
  | _ => 0
  end.

(** A runtime whose N-API calls succeed and whose work item was
    cancelled. *)
Definition node_cancelled : runtime :=
  {| napi_result := fun _ _ => napi_ok;
     last_error_message := None;
     work_status := napi_cancelled;
     handler_throws := None |}.

(* ------------------------------------------------------------------ *)
(** ** Runtimes in which one N-API call fails *)

(** Every N-API call succeeds, but for those at [line] of ping.c. *)
Definition napi_ok_except (rt : runtime) (line : Z) : Prop :=
  forall (call : string) (l : Z), l <> line -> napi_result rt call l = napi_ok.

(** The runtime [rt] with every N-API call made to succeed. *)
Definition all_ok_of (rt : runtime) : runtime :=
  {| napi_result := fun _ _ => napi_ok;
     last_error_message := last_error_message rt;
     work_status := work_status rt;
     handler_throws := handler_throws rt |}.

(* ------------------------------------------------------------------ *)
(** ** The slots of the handler *)

(** An invocation of the handler with NULL for one of its two
    arguments. *)
Definition null_slot (e : event) : bool :=
  match e with
  | EvCallFunction None _ | EvCallFunction _ None => true
  | _ => false
  end.

(** No handler was invoked with a NULL argument between [w] and [w']. *)
Definition no_null_slot (w w' : world) : Prop :=
  count_events null_slot (trace w') = count_events null_slot (trace w).

(* ------------------------------------------------------------------ *)
(** ** The worker thread, call by call *)

(** The first call of the worker for the request [d]: [socket], with the
    result [r]. *)
Definition first_socket (pf : platform) (d : _open_data) (r : Z) : event :=
  EvSocket (__sa_family d) (SOCK_DGRAM pf)
    (icmp_protocol pf (__sa_family d)) r.

(** From [w], the worker has made [socket] and [calls] for [d], none of
    which failed. *)
Definition worker_going (pf : platform) (d : _open_data) (w : world)
    (r : Z) (calls : list event) (w1 : world) : Prop :=
  trace w1 = trace w ++ first_socket pf d r :: calls
  /\ existsb call_failed (first_socket pf d r :: calls) = false
  /\ open_fds w1 = r :: open_fds w.

(** From [w], the worker has ended in [w'] with the request [d']: its
    calls, then at most one [close]; the descriptor when no call failed,
    the first failure otherwise. *)
Definition worker_outcome (pf : platform) (d : _open_data) (w : world)
    (w' : world) (d' : _open_data) : Prop :=
  exists r calls closes,
    trace w' = trace w ++ (first_socket pf d r :: calls) ++ closes
    /\ forallb is_close closes = true
    /\ (List.length closes <= 1)%nat
    /\ ((existsb call_failed (first_socket pf d r :: calls) = false
         /\ closes = []
         /\ d' = set_fd r d
         /\ open_fds w' = r :: open_fds w)
        \/ (exists ok last,
              first_socket pf d r :: calls = ok ++ [last]
              /\ existsb call_failed ok = false
              /\ call_failed last = true
              /\ __fd d' = -1
              /\ __syscall d' = call_name last
              /\ (sets_errno last = true ->
                  __errno d' = kernel_errno pf d last))).

(* ------------------------------------------------------------------ *)
(** ** The exports of the module *)

(** The four exports, in the order in which [init] writes them. *)
Definition module_exports (pf : platform) (version : string)
  : list (string * js_value) :=
  [("version"%string, JsString version);
   ("AF_INET"%string, JsNumber (C.to_uint32 (AF_INET pf)));
   ("AF_INET6"%string, JsNumber (C.to_uint32 (AF_INET6 pf)));
   ("open"%string, JsFunction _open_callback)].

(** The properties of an object after the first [k] exports were written
    to it. *)
Definition written (pf : platform) (version : string) (k : nat)
    (props : list (string * js_value)) : list (string * js_value) :=
  fold_left (fun p export => set_property (fst export) (snd export) p)
    (firstn k (module_exports pf version)) props.

(** The [exports] that [init] returns: the four exports written, and the
    object frozen. *)
Definition init_exports (pf : platform) (version : string)
    (exports : js_object) : js_object :=
  mk_js_object (written pf version 4 (properties exports)) true.

Arguments NAPI_CALL : simpl never.
Arguments _throw_type_error : simpl never.
Arguments _throw_system_error : simpl never.
Arguments _system_error : simpl never.
Arguments _napi_call_error : simpl never.
Arguments copy_latin1 : simpl never.
Arguments C.memcpy : simpl never.
Arguments C.bzero : simpl never.
Arguments C.c_str : simpl never.
Arguments C.snprintf : simpl never.
Arguments C.to_int32 : simpl never.
Arguments C.to_uint32 : simpl never.
Arguments C.fmt_d : simpl never.
Arguments do_inet_pton : simpl never.
Arguments String.append : simpl never.
Arguments Nat.ltb : simpl never.
Arguments Nat.leb : simpl never.
Arguments Nat.eqb : simpl never.


(* ------------------------------------------------------------------ *)
(** ** Reasoning about computations *)

(** [wp m Q w]: running [m] from [w] ends in a world and a result that
    satisfy [Q]. Computations are total functions, so this also says that
    [m] does end. *)
Definition wp {R A : Type} (m : M R A) (Q : world -> A + R -> Prop)
    (w : world) : Prop :=
  Q (fst (m w)) (snd (m w)).

Lemma wp_ret {R A : Type} (a : A) (Q : world -> A + R -> Prop) w :
  Q w (inl a) -> wp (ret a) Q w.
Proof. exact (fun H => H). Qed.

Lemma wp_leave {R A : Type} (r : R) (Q : world -> A + R -> Prop) w :
  Q w (inr r) -> wp (leave r) Q w.
Proof. exact (fun H => H). Qed.

Lemma wp_bind {R A B : Type} (m : M R A) (k : A -> M R B)
    (Q : world -> B + R -> Prop) w :
  wp m (fun w' r => match r with
                    | inl a => wp (k a) Q w'
                    | inr r => Q w' (inr r)
                    end) w ->
  wp (bind m k) Q w.
Proof.
  unfold wp, bind. destruct (m w) as [w' [a | r]]; cbn; auto.
Qed.

Lemma wp_call {R A : Type} (f : world -> world * A)
    (Q : world -> A + R -> Prop) w :
  Q (fst (f w)) (inl (snd (f w))) -> wp (call f) Q w.
Proof. unfold wp, call. destruct (f w); auto. Qed.

Lemma wp_act {R : Type} (f : world -> world)
    (Q : world -> unit + R -> Prop) w :
  Q (f w) (inl tt) -> wp (act f) Q w.
Proof. exact (fun H => H). Qed.

Lemma wp_body {R : Type} (m : M R R) (Q : world -> R -> Prop) w :
  wp m (fun w' r => match r with inl a => Q w' a | inr a => Q w' a end) w ->
  Q (fst (body m w)) (snd (body m w)).
Proof.
  unfold wp, body. destruct (m w) as [w' [a | r]]; cbn; auto.
Qed.

Lemma extends_refl P w : extends P w w.
Proof.
  repeat split; exists []; split; [now rewrite app_nil_r | reflexivity].
Qed.

Lemma extends_trans P w1 w2 w3 :
  extends P w1 w2 -> extends P w2 w3 -> extends P w1 w3.
Proof.
  intros (Hp1 & Hq1 & tr1 & Ht1 & Hf1) (Hp2 & Hq2 & tr2 & Ht2 & Hf2).
  repeat split; try congruence.
  exists (tr1 ++ tr2). split.
  - rewrite Ht2, Ht1, app_assoc. reflexivity.
  - rewrite forallb_app, Hf1, Hf2. reflexivity.
Qed.

Lemma extends_log P e w1 w2 :
  P e = true -> extends P w1 w2 -> extends P w1 (log e w2).
Proof.
  intros He H. apply (extends_trans _ _ _ _ H).
  repeat split. exists [e]. split; [reflexivity | cbn; now rewrite He].
Qed.

Lemma extends_errno P e w1 w2 :
  extends P w1 w2 -> extends P w1 (set_world_errno e w2).
Proof. intros H. exact H. Qed.

Lemma extends_fds P l w1 w2 :
  extends P w1 w2 -> extends P w1 (set_open_fds l w2).
Proof. intros H. exact H. Qed.

Lemma skipn_repeat {A : Type} (x : A) (k n : nat) :
  skipn k (repeat x n) = repeat x (n - k).
Proof.
  revert n. induction k as [| k IH]; intros [| n]; cbn; auto.
Qed.

Lemma count_events_app p (a b : list event) :
  count_events p (a ++ b) = (count_events p a + count_events p b)%nat.
Proof. unfold count_events. now rewrite filter_app, length_app. Qed.

Lemma count_events_none (p q : event -> bool) (tr : list event) :
  (forall e, p e = true -> q e = false) ->
  forallb p tr = true -> count_events q tr = 0%nat.
Proof.
  intros Hpq. unfold count_events.
  induction tr as [| e tr IH]; cbn; [reflexivity|].
  intros H. apply andb_prop in H as [He Htr].
  rewrite (Hpq e He). auto.
Qed.

Lemma length_list_byte_of_string s :
  List.length (list_byte_of_string s) = String.length s.
Proof.
  induction s as [| c s IH]; [reflexivity|].
  change (list_byte_of_string (String c s))
    with (byte_of_ascii c :: list_byte_of_string s).
  cbn. now rewrite IH.
Qed.

Lemma copy_latin1_size s buf n :
  snd (copy_latin1 s buf n) = Nat.min (n - 1) (String.length s).
Proof.
  unfold copy_latin1. cbn [snd].
  now rewrite length_firstn, length_list_byte_of_string.
Qed.

(** A buffer of [n + 1] or more bytes receives a string of at most [n]
    bytes whole, with its terminator. *)
Lemma copy_latin1_fits s n :
  (String.length s <= n)%nat ->
  copy_latin1 s (C.bzero (n + 2)) (n + 2) =
  (list_byte_of_string s ++ x00 :: repeat x00 (n + 1 - String.length s),
   String.length s).
Proof.
  intros Hn. unfold copy_latin1, C.bzero.
  rewrite firstn_all2 by (rewrite length_list_byte_of_string; lia).
  rewrite length_list_byte_of_string, skipn_repeat.
  replace (n + 2 - S (String.length s))%nat
    with (n + 1 - String.length s)%nat by lia.
  reflexivity.
Qed.

Lemma memcpy_interface s n dst :
  (String.length s <= n)%nat -> List.length dst = (n + 1)%nat ->
  C.memcpy dst
    (list_byte_of_string s ++ x00 :: repeat x00 (n + 1 - String.length s))
    (String.length s + 1) =
  Some (list_byte_of_string s ++ x00 :: skipn (S (String.length s)) dst).
Proof.
  intros Hn Hd. unfold C.memcpy.
  rewrite Hd, length_app, length_list_byte_of_string. cbn [List.length].
  rewrite repeat_length.
  replace (String.length s + 1 <=? n + 1)%nat with true
    by (symmetry; apply Nat.leb_le; lia).
  replace (String.length s + 1
           <=? String.length s + S (n + 1 - String.length s))%nat
    with true by (symmetry; apply Nat.leb_le; lia).
  cbn [andb]. f_equal.
  rewrite <- (length_list_byte_of_string s) at 1.
  rewrite firstn_app_2. cbn [firstn].
  rewrite <- app_assoc. cbn [app].
  do 2 f_equal. f_equal. lia.
Qed.

Lemma address_too_long_size s :
  (40 <? snd (copy_latin1 s (C.bzero 42) 42))%nat
  = address_too_long (JsString s).
Proof.
  rewrite copy_latin1_size. cbn [address_too_long].
  destruct (40 <? String.length s)%nat eqn:E.
  - apply Nat.ltb_lt in E. apply Nat.ltb_lt. lia.
  - apply Nat.ltb_ge in E. apply Nat.ltb_ge. lia.
Qed.

Lemma is_worker_not_call e : is_worker_event e = true -> is_call e = false.
Proof. destruct e; cbn; congruence. Qed.

Lemma is_worker_not_release e :
  is_worker_event e = true -> is_release e = false.
Proof. destruct e; cbn; congruence. Qed.

Lemma is_syscall_worker e : is_syscall e = true -> is_worker_event e = true.
Proof. destruct e; cbn; congruence. Qed.

Lemma forallb_impl (p q : event -> bool) tr :
  (forall e, p e = true -> q e = true) ->
  forallb p tr = true -> forallb q tr = true.
Proof.
  intros Hpq. induction tr as [| e tr IH]; cbn; [reflexivity|].
  intros H. apply andb_prop in H as [He Htr].
  now rewrite (Hpq e He), IH.
Qed.
Lemma throws_only_refl w : throws_only w w.
Proof.
  split; [reflexivity | split; [reflexivity |]].
  exists []. split; [now rewrite app_nil_r | reflexivity].
Qed.

Lemma throws_only_trans w1 w2 w3 :
  throws_only w1 w2 -> throws_only w2 w3 -> throws_only w1 w3.
Proof.
  intros (Hq1 & Hf1 & tr1 & Ht1 & Ha1) (Hq2 & Hf2 & tr2 & Ht2 & Ha2).
  split; [congruence | split; [congruence |]].
  exists (tr1 ++ tr2). split.
  - rewrite Ht2, Ht1, app_assoc. reflexivity.
  - rewrite forallb_app, Ha1, Ha2. reflexivity.
Qed.

Lemma throws_only_errno e w1 w2 :
  throws_only w1 w2 -> throws_only w1 (set_world_errno e w2).
Proof. exact (fun H => H). Qed.

Lemma throws_only_opens w w' : throws_only w w' -> opens_only w w'.
Proof.
  intros (_ & Hf & tr & Ht & Ha). split; [exact Hf |].
  exists tr. split; [exact Ht |].
  revert Ha. clear. induction tr as [| e tr IH]; cbn; [reflexivity |].
  intros H. apply andb_prop in H as [He Htr]. rewrite (IH Htr).
  destruct e; try discriminate; reflexivity.
Qed.

Lemma opens_only_refl w : opens_only w w.
Proof. apply throws_only_opens, throws_only_refl. Qed.

Lemma opens_only_trans w1 w2 w3 :
  opens_only w1 w2 -> opens_only w2 w3 -> opens_only w1 w3.
Proof.
  intros (Hf1 & tr1 & Ht1 & Ha1) (Hf2 & tr2 & Ht2 & Ha2).
  split; [congruence |].
  exists (tr1 ++ tr2). split.
  - rewrite Ht2, Ht1, app_assoc. reflexivity.
  - rewrite forallb_app, Ha1, Ha2. reflexivity.
Qed.

Lemma opens_only_log e w1 w2 :
  is_open_event e = true -> opens_only w1 w2 -> opens_only w1 (log e w2).
Proof.
  intros He H. apply (opens_only_trans _ _ _ H).
  split; [reflexivity |]. exists [e]. split; [reflexivity |].
  cbn. now rewrite He.
Qed.

Lemma opens_only_queued q w1 w2 :
  opens_only w1 w2 -> opens_only w1 (set_queued q w2).
Proof. exact (fun H => H). Qed.

Lemma run_order_app s a b :
  run_order s (a ++ b) =
  match run_order s a with
  | Some s' => run_order s' b
  | None => None
  end.
Proof.
  revert s. induction a as [| e a IH]; intros s; cbn; [reflexivity |].
  destruct (step s e); [apply IH | reflexivity].
Qed.

Lemma run_order_throws s tr :
  forallb is_throw tr = true -> run_order s tr = Some s.
Proof.
  induction tr as [| e tr IH]; cbn; [reflexivity |].
  intros H. apply andb_prop in H as [He Htr].
  destruct e; try discriminate. cbn. destruct s; auto.
Qed.

(* ------------------------------------------------------------------ *)
(** ** The worker thread, on every platform *)

Section Worker.

Variable pf : platform.

Lemma socket_extends P dm ty pr w0 w :
  (forall r, P (EvSocket dm ty pr r) = true) ->
  extends P w0 w -> extends P w0 (fst (socket pf dm ty pr w)).
Proof.
  intros HP H. unfold socket. destruct (sys_socket pf dm ty pr) as [r e].
  destruct (r <? 0); cbn;
    [apply extends_errno | apply extends_fds]; apply extends_log; auto.
Qed.

Lemma setsockopt_extends P fd lv op w0 w :
  (forall r, P (EvSetsockopt fd lv op r) = true) ->
  extends P w0 w -> extends P w0 (fst (setsockopt pf fd lv op w)).
Proof.
  intros HP H. unfold setsockopt.
  destruct (sys_setsockopt pf fd lv op) as [r e].
  destruct (r <? 0); cbn; [apply extends_errno|]; apply extends_log; auto.
Qed.

Lemma if_nametoindex_extends P name w0 w :
  (forall r, P (EvIfNametoindex name r) = true) ->
  extends P w0 w -> extends P w0 (fst (if_nametoindex pf name w)).
Proof.
  intros HP H. unfold if_nametoindex.
  destruct (sys_if_nametoindex pf name) as [r e].
  destruct (r =? 0); cbn; [apply extends_errno|]; apply extends_log; auto.
Qed.

Lemma bind_socket_extends P fd fam addr size w0 w :
  (forall r, P (EvBind fd size r) = true) ->
  extends P w0 w -> extends P w0 (fst (bind_socket pf fd fam addr size w)).
Proof.
  intros HP H. unfold bind_socket.
  destruct (sys_bind pf fd fam addr size) as [r e].
  destruct (r <? 0); cbn; [apply extends_errno|]; apply extends_log; auto.
Qed.

Lemma close_extends P fd w0 w :
  P (EvClose fd) = true ->
  extends P w0 w -> extends P w0 (close pf fd w).
Proof.
  intros HP H. unfold close.
  destruct (existsb _ _); [apply extends_fds | apply extends_errno];
    apply extends_log; auto.
Qed.

(** [_open_execute_fail] closes the descriptor only when it is 1 or less. *)
Lemma _open_execute_fail_extends P d sc e w0 w :
  (forall fd, fd <= 1 -> P (EvClose fd) = true) ->
  extends P w0 w ->
  extends P w0 (fst (_open_execute_fail pf d sc e w)) /\
  same_request d (snd (_open_execute_fail pf d sc e w)) /\
  __fd (snd (_open_execute_fail pf d sc e w)) = -1.
Proof.
  intros HP H. unfold _open_execute_fail.
  destruct (Z.ltb_spec 1 (__fd d)); cbn [fst snd];
    (split; [| split; [split; reflexivity | reflexivity]]); auto.
  apply close_extends; auto.
Qed.

Lemma wp_fail_and_return {A} P d name w0 w
    (Q : world -> A + _open_data -> Prop) :
  (forall fd, fd <= 1 -> P (EvClose fd) = true) ->
  extends P w0 w ->
  (forall w' d', extends P w0 w' -> same_request d d' -> __fd d' = -1 ->
                 Q w' (inr d')) ->
  wp (fail_and_return pf d name) Q w.
Proof.
  intros HP H HQ. unfold wp, fail_and_return.
  destruct (_open_execute_fail_extends P d (Some name) (errno w) w0 w HP H)
    as (H1 & H2 & H3).
  destruct (_open_execute_fail pf d (Some name) (errno w) w) as [w' d'].
  cbn in *. auto.
Qed.

(** The worker thread makes system calls and nothing else; it leaves
    the callback reference and the async work of the request alone; it
    calls [bind] only for a request with a socket address; and it never
    closes a descriptor greater than 1. *)
Lemma _open_execute_frame d w :
  let w' := fst (_open_execute pf d w) in
  let d' := snd (_open_execute pf d w) in
  extends is_syscall w w' /\ same_request d d' /\
  (__sockaddr_size d = 0%nat -> extends not_bind w w') /\
  extends closes_low w w'.
Proof.
  cbn zeta.
  enough (H : forall P,
             (forall e, is_syscall e = true ->
                        (is_bind e = true -> (0 < __sockaddr_size d)%nat) ->
                        (forall fd, e = EvClose fd -> fd <= 1) ->
                        P e = true) ->
             extends P w (fst (_open_execute pf d w)) /\
             same_request d (snd (_open_execute pf d w))).
  { split; [| split; [| split]].
    - apply (H is_syscall); auto.
    - apply (H is_syscall); auto.
    - intros Hz. apply (H not_bind).
      unfold not_bind. intros e He Hb _. rewrite He. cbn.
      destruct (is_bind e); [| reflexivity].
      specialize (Hb eq_refl). lia.
    - apply (H closes_low).
      unfold closes_low. intros e He _ Hc. rewrite He. cbn.
      destruct e; try reflexivity.
      apply Z.leb_le. now apply Hc. }
  intros P HP.
  assert (Hsys : forall e, is_syscall e = true -> is_bind e = false ->
                           is_close e = false -> P e = true).
  { intros e He Hb Hc. apply HP; [assumption | |].
    - rewrite Hb. discriminate.
    - intros fd ->. discriminate. }
  assert (Hclose : forall fd, fd <= 1 -> P (EvClose fd) = true).
  { intros fd Hfd. apply HP; [reflexivity | discriminate |].
    intros fd' E. injection E as <-. exact Hfd. }
  unfold _open_execute.
  apply (wp_body _ (fun w' d' => extends P w w' /\ same_request d d')).
  apply wp_bind.
  destruct (__sa_family d =? AF_INET pf) eqn:Hf4;
    [| destruct (__sa_family d =? AF_INET6 pf) eqn:Hf6 ].
  3: { apply wp_leave. split; [apply extends_refl | split; reflexivity]. }
  all: apply wp_ret; apply wp_bind; apply wp_call.
  all: match goal with |- context [socket pf ?a ?b ?c ?w0] =>
         pose proof (socket_extends P a b c w0 w0
                       ltac:(intros; apply Hsys; reflexivity)
                       (extends_refl _ _)) as Hs;
         destruct (socket pf a b c w0) as [w1 fd] end.
  all: cbn [fst snd] in *.
  all: repeat match goal with
    | |- wp (bind _ _) _ _ => apply wp_bind
    | |- wp (ret _) _ _ => apply wp_ret
    | |- wp (leave _) _ _ => apply wp_leave
    | |- wp (if ?c then _ else _) _ _ => destruct c eqn:?
    | |- wp (match os ?p with _ => _ end) _ _ => destruct (os p)
    | |- wp (let '(_, _) := if ?c then _ else _ in _) _ _ => destruct c
    | H : extends ?Q ?w0 ?w1 |- wp (fail_and_return _ _ _) _ ?w1 =>
        apply (wp_fail_and_return Q _ _ w0 w1 _ Hclose H);
        intros ? ? ? [? ?] ?
    | H : extends ?Q ?w0 ?w1 |- wp (call (setsockopt ?p ?a ?b ?c)) _ ?w1 =>
        apply wp_call;
        pose proof (setsockopt_extends Q a b c w0 w1
                      ltac:(intros; apply Hsys; reflexivity) H);
        destruct (setsockopt p a b c w1); cbn [fst snd] in *
    | H : extends ?Q ?w0 ?w1 |- wp (call (if_nametoindex ?p ?a)) _ ?w1 =>
        apply wp_call;
        pose proof (if_nametoindex_extends Q a w0 w1
                      ltac:(intros; apply Hsys; reflexivity) H);
        destruct (if_nametoindex p a w1); cbn [fst snd] in *
    | H : extends ?Q ?w0 ?w1, Hsz : (0 <? _)%nat = true
      |- wp (call (bind_socket ?p ?a ?b ?c ?n)) _ ?w1 =>
        apply wp_call;
        pose proof (bind_socket_extends Q a b c n w0 w1
                      ltac:(intros; apply HP;
                            [reflexivity
                            | intros _; apply Nat.ltb_lt; exact Hsz
                            | discriminate]) H);
        destruct (bind_socket p a b c n w1); cbn [fst snd] in *
    | H : extends ?Q ?w0 ?w1
      |- wp (call (fun w => _open_execute_fail _ ?d ?sc (errno w) w)) _ ?w1 =>
        apply wp_call;
        destruct (_open_execute_fail_extends Q d sc (errno w1) w0 w1 Hclose H)
          as (? & [? ?] & ?)
    end.
  all: split; [assumption | split; cbn in *; congruence].
Qed.

Lemma interface_with_address fam addr d :
  __interface (with_address pf fam addr d) = __interface d.
Proof. destruct addr; reflexivity. Qed.

Lemma interface_with_family fam d :
  __interface (with_family pf fam d) = __interface d.
Proof. unfold with_family. destruct (_ =? _); reflexivity. Qed.

Lemma one_slot_completion st d :
  one_slot (fst (completion_slots pf st d)) (snd (completion_slots pf st d)).
Proof.
  unfold completion_slots, one_slot, is_error, absent, is_descriptor.
  destruct (negb (st =? napi_ok)); [| destruct (__fd d <? 0)]; cbn.
  - left. split; [repeat eexists | now right].
  - left. split; [repeat eexists | now right].
  - right. split; [now left |].
    eexists. split; [reflexivity|].
    unfold C.to_uint32. apply Z.mod_pos_bound. reflexivity.
Qed.

End Worker.

(* ------------------------------------------------------------------ *)
(** ** The addon when every N-API call succeeds *)

Section Runtime_ok.

Variable rt : runtime.
Variable pf : platform.
Hypothesis Hok : napi_all_ok rt.

Lemma _throw_type_error_ok msg w :
  _throw_type_error rt msg w =
  match pending w with
  | Some _ => w
  | None => thrown (type_error msg) w
  end.
Proof.
  unfold _throw_type_error, napi_is_exception_pending, napi_throw_type_error, napi_throw.
  rewrite !Hok. cbn.
  destruct (pending w); reflexivity.
Qed.

Lemma NAPI_CALL_ok {R A} (null : R) c l (f : napi_fn A) w :
  NAPI_CALL rt null c l f w =
  let '(w', (st, a)) := f napi_ok w in
  if st =? napi_ok then (w', inl a)
  else (_napi_call_error rt st c l w', inr null).
Proof. unfold NAPI_CALL. rewrite Hok. reflexivity. Qed.

Ltac exec :=
  repeat first
    [ rewrite NAPI_CALL_ok
    | progress cbn
    | progress unfold bind, ret, leave, act, call, body
    | progress unfold napi_set_named_property, napi_call_function, napi_throw
    | match goal with
      | H : pending ?w = _ |- context [pending ?w] => rewrite H
      end ].

Lemma _system_error_ok sc e w :
  pending w = None ->
  _system_error rt pf sc e w = (w, Some (system_error_value pf sc e)).
Proof.
  intros Hp. unfold _system_error, system_error_value, NAPI_CALL_VALUE.
  destruct (e =? 0); destruct sc; exec; reflexivity.
Qed.

Lemma _throw_system_error_ok sc e w :
  _throw_system_error rt pf sc e w =
  match pending w with
  | Some _ => w
  | None => thrown (system_error_value pf sc e) w
  end.
Proof.
  unfold _throw_system_error, napi_is_exception_pending, napi_throw.
  rewrite !Hok. cbn.
  destruct (pending w) eqn:Hp; cbn; [reflexivity|].
  rewrite _system_error_ok by assumption. rewrite Hp. reflexivity.
Qed.

Lemma open_socket_family_ok d v w :
  open_socket_family rt pf d v w =
  match v with
  | JsNumber n =>
      if C.to_int32 n =? AF_INET pf then
        (w, inl (C.to_int32 n,
                 set_sockaddr_size (sizeof_sockaddr_in pf)
                   (set_sa_family (AF_INET pf) d)))
      else if C.to_int32 n =? AF_INET6 pf then
        (w, inl (C.to_int32 n,
                 set_sockaddr_size (sizeof_sockaddr_in6 pf)
                   (set_sa_family (AF_INET6 pf) d)))
      else (_throw_type_error rt "Socket family must be AF_INET or AF_INET6" w,
            inr None)
  | _ => (_throw_type_error rt "Specified socket family is not a number" w,
          inr None)
  end.
Proof.
  unfold open_socket_family, NAPI_CALL_VALUE, reject.
  destruct v as [| | b | n | s | i | i | t c m p]; exec; try reflexivity.
  destruct (C.to_int32 n =? AF_INET pf); [reflexivity|].
  destruct (C.to_int32 n =? AF_INET6 pf); reflexivity.
Qed.

Lemma open_from_address_ok af d v w :
  open_from_address rt pf af d v w =
  match v with
  | JsNull | JsUndefined => (w, inl (set_sockaddr_size 0 d))
  | JsString s =>
      let '(__buffer, __size) := copy_latin1 s (C.bzero 42) 42 in
      let w :=
        if (40 <? __size)%nat
        then _throw_type_error rt
               "From address must be at most 40 characters long" w
        else w in
      let '(w, (__result, __in_addr)) :=
        do_inet_pton pf af (C.c_str __buffer) w in
      if __result <? 0 then
        (_throw_system_error rt pf (Some "inet_pton"%string) (errno w) w,
         inr None)
      else if __result =? 0 then
        (_throw_type_error rt
           (C.snprintf 128
              ((if af =? AF_INET pf then "Invalid IPv4 from address: "
                else if af =? AF_INET6 pf then "Invalid IPv6 from address: "
                else "Invalid from address: ") ++ C.c_str __buffer)) w,
         inr None)
      else (w, inl (set_sin_addr __in_addr d))
  | _ => (_throw_type_error rt
            "From address must be a string, null or undefined" w, inr None)
  end.
Proof.
  unfold open_from_address, NAPI_CALL_VALUE, reject.
  destruct v as [| | b | n | s | i | i | t c m p]; exec; try reflexivity.
  destruct (copy_latin1 s (C.bzero 42) 42) as [buf size]; cbn.
  destruct (40 <? size)%nat; cbn;
    match goal with |- context [do_inet_pton ?p ?a ?t ?w] =>
      destruct (do_inet_pton p a t w) as [w' [r bytes]] end; cbn;
    destruct (r <? 0); try reflexivity;
    destruct (r =? 0); reflexivity.
Qed.

Lemma open_source_interface_ok d v w :
  open_source_interface rt pf d v w =
  match v with
  | JsNull | JsUndefined => (w, inl (set_interface_length 0 d))
  | JsString s =>
      let '(__buffer, __size) :=
        copy_latin1 s (C.bzero (IFNAMSIZ pf + 2)) (IFNAMSIZ pf + 2) in
      if (IFNAMSIZ pf <? __size)%nat then
        (_throw_type_error rt (__ERR_SOURCE_INTERFACE_NAME_TOO_LONG pf) w,
         inr None)
      else
        match C.memcpy (__interface d) __buffer (__size + 1) with
        | Some copy =>
            (w, inl (set_interface_length __size (set_interface copy d)))
        | None => (log EvFault w, inl (set_interface_length __size d))
        end
  | _ => (_throw_type_error rt
            "Source interface must be a string, null or undefined" w,
          inr None)
  end.
Proof.
  unfold open_source_interface, NAPI_CALL_VALUE, reject.
  destruct v as [| | b | n | s | i | i | t c m p]; exec; try reflexivity.
  destruct (copy_latin1 s _ _) as [buf size]; cbn.
  destruct (IFNAMSIZ pf <? size)%nat; cbn; try reflexivity.
  destruct (C.memcpy _ _ _); reflexivity.
Qed.

Lemma open_callback_ok d v w :
  open_callback rt d v w =
  match v with
  | JsFunction _ =>
      (log EvCreateReference w, inl (set_callback_ref (Some v) d))
  | _ => (_throw_type_error rt "Specified callback is not a function" w,
          inr None)
  end.
Proof.
  unfold open_callback, NAPI_CALL_VALUE, reject.
  destruct v as [| | b | n | s | i | i | t c m p]; exec; reflexivity.
Qed.

Lemma open_queue_ok d w :
  open_queue rt d w =
  (log EvQueueAsyncWork
     (set_queued (Some (set_async_work true d))
        (log EvCreateAsyncWork (log EvMalloc w))), inl tt).
Proof.
  unfold open_queue, NAPI_CALL_VALUE. exec. reflexivity.
Qed.

Lemma _open_ok fam addr intf cb w :
  _open rt pf [fam; addr; intf; cb] w =
  body ( ' (__sa_family, __data) <- open_socket_family rt pf (zero_open_data pf) fam ;;
         __data <- open_from_address rt pf __sa_family __data addr ;;
         __data <- open_source_interface rt pf __data intf ;;
         __data <- open_callback rt __data cb ;;
         open_queue rt __data ;;;
         ret None)%c w.
Proof.
  unfold _open, NAPI_CALL_VALUE, body.
  unfold bind at 1. rewrite NAPI_CALL_ok. cbn. reflexivity.
Qed.




(* ---------------------------------------------------------------- *)
(** *** The completion step *)

Lemma _napi_call_error_pending st c l w e :
  pending w = Some e -> _napi_call_error rt st c l w = w.
Proof.
  intros Hp. unfold _napi_call_error, napi_is_exception_pending.
  rewrite !Hok, Hp. cbn. destruct (st =? napi_ok); reflexivity.
Qed.

Lemma _open_complete_ok st d w :
  pending w = None -> well_formed_request d ->
  _open_complete rt pf st d w =
  let '(arg0, arg1) := completion_slots pf st d in
  let w := log (EvCallFunction arg0 arg1) (log EvFree w) in
  match handler_throws rt with
  | None => log EvDeleteAsyncWork (log EvDeleteReference w)
  | Some e => set_pending (Some e) w
  end.
Proof.
  intros Hp [[f Hf] Hw].
  unfold _open_complete, completion_slots, NAPI_CALL_VOID.
  rewrite Hf, Hw.
  destruct (st =? napi_ok); [destruct (__fd d <? 0) |]; exec;
    rewrite ?_system_error_ok by assumption; exec;
    (destruct (handler_throws rt); exec;
     [erewrite _napi_call_error_pending by reflexivity | ]; reflexivity).
Qed.

(* ---------------------------------------------------------------- *)
(** *** [_open], case by case *)

Lemma family_accepted d fam w :
  family_ok pf fam = true ->
  open_socket_family rt pf d fam w =
  (w, inl (family_of fam, with_family pf fam d)).
Proof.
  intros H. rewrite open_socket_family_ok. unfold with_family.
  destruct fam; try discriminate. cbn in *.
  destruct (C.to_int32 n =? AF_INET pf); [reflexivity|].
  cbn in H. now rewrite H.
Qed.

Lemma family_refused d fam w :
  family_ok pf fam = false ->
  exists msg,
    open_socket_family rt pf d fam w = (_throw_type_error rt msg w, inr None).
Proof.
  intros H. rewrite open_socket_family_ok.
  destruct fam; try (eexists; reflexivity). cbn in H.
  apply orb_false_elim in H as [-> ->]. eexists; reflexivity.
Qed.


Lemma address_accepted fam d addr w :
  address_ok pf fam addr = true ->
  open_from_address rt pf (family_of fam) d addr w =
  (if address_too_long addr then _throw_type_error rt too_long_message w
   else w,
   inl (with_address pf fam addr d)).
Proof.
  intros H. rewrite open_from_address_ok.
  destruct addr; try discriminate; try reflexivity.
  cbn [address_ok] in H. unfold address_text in H.
  rewrite <- address_too_long_size. unfold with_address, address_text.
  destruct (copy_latin1 s (C.bzero 42) 42) as [buf size]. cbn [fst snd] in *.
  unfold do_inet_pton.
  destruct (inet_pton pf (family_of fam) (C.c_str buf)) as [[r bytes] e].
  cbn [fst snd] in *. apply Z.ltb_lt in H.
  assert (Hlt : (r <? 0) = false) by (apply Z.ltb_ge; lia).
  assert (Heq : (r =? 0) = false) by (apply Z.eqb_neq; lia).
  rewrite Hlt. cbn. rewrite Hlt, Heq. reflexivity.
Qed.

Lemma rejected_throw msg w :
  pending w = None -> rejected w (_throw_type_error rt msg w).
Proof.
  intros Hp. rewrite _throw_type_error_ok, Hp.
  eexists. repeat split.
Qed.

(** A refusal after the length check of line 415 already threw. *)
Lemma rejected_throw_twice (b : bool) m0 msg w :
  pending w = None ->
  rejected w (_throw_type_error rt msg
                (if b then _throw_type_error rt m0 w else w)).
Proof.
  intros Hp. destruct b; [| now apply rejected_throw].
  rewrite !_throw_type_error_ok, Hp. cbn.
  eexists. repeat split.
Qed.

Lemma address_refused af d addr w :
  pending w = None ->
  match addr with
  | JsNull | JsUndefined => False
  | JsString s => fst (fst (inet_pton pf af (address_text s))) <= 0
  | _ => True
  end ->
  exists w1,
    open_from_address rt pf af d addr w = (w1, inr None) /\ rejected w w1.
Proof.
  intros Hp H. rewrite open_from_address_ok.
  destruct addr; try contradiction;
    try (eexists; split; [reflexivity | now apply rejected_throw]).
  unfold address_text in H.
  destruct (copy_latin1 s (C.bzero 42) 42) as [buf size]. cbn [fst snd] in *.
  unfold do_inet_pton.
  destruct (inet_pton pf af (C.c_str buf)) as [[r bytes] e].
  cbn [fst snd] in *.
  destruct (r <? 0) eqn:Hlt; cbn; rewrite Hlt.
  - eexists; split; [reflexivity|].
    rewrite _throw_system_error_ok.
    destruct (40 <? size)%nat; rewrite ?_throw_type_error_ok; cbn;
      rewrite Hp; cbn; eexists; repeat split.
  - assert (Heq : (r =? 0) = true)
      by (apply Z.eqb_eq; apply Z.ltb_ge in Hlt; lia).
    rewrite Heq.
    eexists; split; [reflexivity | now apply rejected_throw_twice].
Qed.

Lemma interface_accepted d intf w :
  interface_ok pf intf = true ->
  List.length (__interface d) = (IFNAMSIZ pf + 1)%nat ->
  open_source_interface rt pf d intf w = (w, inl (with_interface intf d)).
Proof.
  intros H Hd. rewrite open_source_interface_ok.
  destruct intf; try discriminate; try reflexivity.
  cbn [interface_ok] in H. apply Nat.leb_le in H.
  rewrite copy_latin1_fits by assumption.
  replace (IFNAMSIZ pf <? String.length s)%nat with false
    by (symmetry; apply Nat.ltb_ge; lia).
  rewrite memcpy_interface by assumption. reflexivity.
Qed.

Lemma interface_refused d intf w :
  interface_ok pf intf = false ->
  exists msg,
    open_source_interface rt pf d intf w
    = (_throw_type_error rt msg w, inr None) /\
    (forall s, intf = JsString s ->
               msg = __ERR_SOURCE_INTERFACE_NAME_TOO_LONG pf).
Proof.
  intros H. rewrite open_source_interface_ok.
  destruct intf; try discriminate;
    try (eexists; split; [reflexivity | discriminate]).
  cbn [interface_ok] in H. apply Nat.leb_gt in H.
  pose proof (copy_latin1_size s (C.bzero (IFNAMSIZ pf + 2)) (IFNAMSIZ pf + 2))
    as Hs.
  destruct (copy_latin1 s _ _) as [buf size]. cbn [snd] in Hs.
  replace (IFNAMSIZ pf <? size)%nat with true
    by (symmetry; apply Nat.ltb_lt; lia).
  eexists; split; [reflexivity | reflexivity].
Qed.

Lemma handler_accepted d cb w :
  handler_ok cb = true ->
  open_callback rt d cb w =
  (log EvCreateReference w, inl (set_callback_ref (Some cb) d)).
Proof.
  intros H. rewrite open_callback_ok. destruct cb; try discriminate.
  reflexivity.
Qed.

Lemma handler_refused d cb w :
  handler_ok cb = false ->
  open_callback rt d cb w =
  (_throw_type_error rt "Specified callback is not a function" w, inr None).
Proof.
  intros H. rewrite open_callback_ok. destruct cb; try discriminate;
    reflexivity.
Qed.


(* ---------------------------------------------------------------- *)
(** *** [_open] as a whole *)


Lemma _open_wrong_argc info w :
  List.length info <> 4%nat ->
  _open rt pf info w = (_throw_type_error rt argc_message w, None).
Proof.
  intros H. unfold _open, NAPI_CALL_VALUE, body, reject.
  unfold bind at 1. rewrite NAPI_CALL_ok. cbn.
  destruct (Nat.eqb_spec (List.length info) 4); [contradiction|].
  reflexivity.
Qed.

Lemma _open_accepts fam addr intf cb w :
  pending w = None ->
  reaches_queue pf fam addr intf cb = true ->
  _open rt pf [fam; addr; intf; cb] w =
  (enqueued (request_of pf fam addr intf cb) (after_length_check addr w),
   None).
Proof.
  intros Hp H. unfold reaches_queue in H.
  apply andb_prop in H as [H Hcb]. apply andb_prop in H as [H Hintf].
  apply andb_prop in H as [Hfam Haddr].
  rewrite _open_ok. unfold body, bind.
  rewrite family_accepted by assumption.
  rewrite address_accepted by assumption.
  rewrite interface_accepted; [| assumption |].
  2: { rewrite interface_with_address, interface_with_family.
       cbn. unfold C.bzero. apply repeat_length. }
  rewrite handler_accepted by assumption.
  rewrite open_queue_ok. unfold after_length_check.
  rewrite _throw_type_error_ok, Hp. reflexivity.
Qed.

Lemma _open_rejects fam addr intf cb w :
  pending w = None ->
  reaches_queue pf fam addr intf cb = false ->
  exists w1,
    _open rt pf [fam; addr; intf; cb] w = (w1, None) /\ rejected w w1.
Proof.
  intros Hp H. rewrite _open_ok. unfold body, bind.
  destruct (family_ok pf fam) eqn:Hfam.
  2: { destruct (family_refused (zero_open_data pf) fam w Hfam) as [msg ->].
       eexists; split; [reflexivity | now apply rejected_throw]. }
  rewrite family_accepted by assumption.
  destruct (address_ok pf fam addr) eqn:Haddr.
  2: { destruct (address_refused (family_of fam)
                   (with_family pf fam (zero_open_data pf)) addr w Hp)
         as (w1 & -> & Hw1).
       - destruct addr; try discriminate; try exact I.
         cbn in Haddr. apply Z.ltb_ge in Haddr. exact Haddr.
       - eexists; split; [reflexivity | assumption]. }
  rewrite address_accepted by assumption.
  destruct (interface_ok pf intf) eqn:Hintf.
  2: { match goal with |- context [open_source_interface rt pf ?d intf ?w0] =>
         destruct (interface_refused d intf w0 Hintf) as (msg & -> & _) end.
       eexists; split; [reflexivity | now apply rejected_throw_twice]. }
  rewrite interface_accepted; [| assumption |].
  2: { rewrite interface_with_address, interface_with_family.
       cbn. unfold C.bzero. apply repeat_length. }
  destruct (handler_ok cb) eqn:Hcb.
  { unfold reaches_queue in H. rewrite Hfam, Haddr, Hintf, Hcb in H.
    discriminate. }
  rewrite handler_refused by assumption.
  eexists; split; [reflexivity | now apply rejected_throw_twice].
Qed.

(* ---------------------------------------------------------------- *)
(** *** The event loop *)

(** What the event loop does with a queued request: the worker's events,
    then the completion step on the request the worker left. *)
Lemma run_async_work_ok d w :
  pending w = None -> queued w = Some d -> well_formed_request d ->
  exists pre d',
    forallb is_worker_event pre = true /\
    (__sockaddr_size d = 0%nat -> count_events is_bind pre = 0%nat) /\
    let '(arg0, arg1) := completion_slots pf (work_status rt) d' in
    trace (run_async_work rt pf w) =
    trace w ++ pre ++ EvFree :: EvCallFunction arg0 arg1
      :: match handler_throws rt with
         | None => [EvDeleteReference; EvDeleteAsyncWork]
         | Some _ => []
         end.
Proof.
  intros Hp Hq Hwf. unfold run_async_work. rewrite Hq.
  destruct (work_status rt =? napi_ok).
  - pose proof (_open_execute_frame pf d (log EvExecute (set_queued None w)))
      as (Hext & Hsame & Hbind & _).
    destruct (_open_execute pf d (log EvExecute (set_queued None w)))
      as [we de]. cbn [fst snd] in *.
    destruct Hext as (Hpe & _ & tr & Htr & Hall).
    exists (EvExecute :: tr), de. split; [|split].
    + cbn. apply (forallb_impl is_syscall); auto using is_syscall_worker.
    + intros Hz. destruct (Hbind Hz) as (_ & _ & tr' & Htr' & Hall').
      cbn in Htr, Htr'. rewrite Htr in Htr'.
      apply app_inv_head in Htr'. subst tr'.
      unfold count_events. cbn. fold (count_events is_bind tr).
      apply (count_events_none not_bind); [|assumption].
      unfold not_bind. intros e He. apply andb_prop in He as [_ He].
      now destruct (is_bind e).
    + rewrite _open_complete_ok.
      * destruct (completion_slots pf (work_status rt) de) as [a0 a1].
        destruct (handler_throws rt); cbn; rewrite Htr; cbn;
          rewrite <- !app_assoc; reflexivity.
      * rewrite Hpe. cbn. assumption.
      * destruct Hwf as [[f Hf] Hw]. destruct Hsame as [Hs1 Hs2].
        split; [exists f|]; congruence.
  - exists [], d. split; [reflexivity | split; [reflexivity|]].
    rewrite _open_complete_ok by (cbn; assumption).
    destruct (completion_slots pf (work_status rt) d) as [a0 a1].
    destruct (handler_throws rt); cbn; rewrite <- !app_assoc; reflexivity.
Qed.

End Runtime_ok.

(* ------------------------------------------------------------------ *)
(** ** The addon whatever the runtime answers *)

Section Any_runtime.

Variable rt : runtime.
Variable pf : platform.

Lemma napi_throw_frame e st w : throws_only w (fst (napi_throw e st w)).
Proof.
  unfold napi_throw. destruct (pending w); [apply throws_only_refl |].
  destruct (st =? napi_ok); [| apply throws_only_refl].
  split; [reflexivity | split; [reflexivity |]].
  exists [EvThrow e]. split; reflexivity.
Qed.

Lemma _napi_call_error_frame st c l w :
  throws_only w (_napi_call_error rt st c l w).
Proof.
  unfold _napi_call_error, napi_is_exception_pending, napi_throw_error.
  destruct (st =? napi_ok); [apply throws_only_refl |].
  destruct (_ && _); [apply napi_throw_frame | apply throws_only_refl].
Qed.

Lemma _throw_type_error_frame msg w :
  throws_only w (_throw_type_error rt msg w).
Proof.
  unfold _throw_type_error, napi_is_exception_pending, napi_throw_type_error.
  destruct (_ && _); [apply napi_throw_frame | apply throws_only_refl].
Qed.

(** The rule of [NAPI_CALL_VALUE] and [NAPI_CALL_VOID], whatever the
    runtime answers. *)
Lemma wp_NAPI_CALL {R A : Type} (null : R) c l (f : napi_fn A)
    (Q : world -> A + R -> Prop) w :
  (forall w' st a, f (napi_result rt c l) w = (w', (st, a)) ->
     (st = napi_ok -> Q w' (inl a)) /\
     (st <> napi_ok -> forall w'', throws_only w' w'' -> Q w'' (inr null))) ->
  wp (NAPI_CALL rt null c l f) Q w.
Proof.
  intros H. unfold wp, NAPI_CALL.
  destruct (f (napi_result rt c l) w) as [w' [st a]] eqn:Hf.
  destruct (H w' st a eq_refl) as [Hok Hfail].
  destruct (Z.eqb_spec st napi_ok); cbn.
  - auto.
  - apply Hfail; [assumption | apply _napi_call_error_frame].
Qed.

Lemma _system_error_frame sc e w :
  throws_only w (fst (_system_error rt pf sc e w)).
Proof.
  unfold _system_error.
  apply (wp_body _ (fun w' _ => throws_only w w')).
  destruct (negb (e =? 0)), sc.
  all: repeat match goal with
    | |- wp (bind _ _) _ _ => apply wp_bind
    | |- wp (ret _) _ _ => apply wp_ret
    | |- wp (NAPI_CALL_VALUE _ _ _ _) _ _ =>
        apply wp_NAPI_CALL; intros w' st a Hf;
        unfold napi_create_string_latin1, napi_create_error,
          napi_create_uint32, napi_set_named_property in Hf;
        cbv beta iota in Hf;
        repeat match type of Hf with
               | context [match ?x with _ => _ end] => destruct x
               end;
        injection Hf as <- <- <-;
        (split; [intros _ | intros _ w'' Hw''; assumption])
    end.
  all: apply throws_only_refl.
Qed.


Lemma _throw_system_error_frame sc e w :
  throws_only w (_throw_system_error rt pf sc e w).
Proof.
  unfold _throw_system_error, napi_is_exception_pending,
    napi_throw_type_error.
  destruct (_ && _); [| apply throws_only_refl].
  pose proof (_system_error_frame sc e w) as H.
  destruct (_system_error rt pf sc e w) as [w' [err |]]; cbn [fst] in H;
    apply (throws_only_trans _ _ _ H), napi_throw_frame.
Qed.

(** A step of [wp] through a [NAPI_CALL] on a function that leaves the
    world alone: the call succeeded and the computation goes on in the
    same world, or it failed and the function returns after throws. *)
Ltac napi_call_step :=
  apply wp_NAPI_CALL;
  let w' := fresh "w'" in
  let st := fresh "st" in
  let a := fresh "a" in
  let Hf := fresh "Hf" in
  intros w' st a Hf;
  unfold napi_typeof, napi_get_value_int32, napi_get_value_string_latin1,
    napi_create_string_latin1, napi_create_object, napi_get_cb_info in Hf.

Ltac failed_call :=
  let w'' := fresh "w''" in
  let Hw'' := fresh "Hw''" in
  intros _ w'' Hw''; split; [assumption | exact I].

Lemma wp_mono {R A : Type} (m : M R A)
    (P Q : world -> A + R -> Prop) w :
  wp m P w -> (forall w' r, P w' r -> Q w' r) -> wp m Q w.
Proof. unfold wp. auto. Qed.

Lemma wp_when_act {R : Type} (c : bool) (f : world -> world)
    (Q : world -> unit + R -> Prop) w :
  Q (if c then f w else w) (inl tt) ->
  wp (if c then act f else ret tt) Q w.
Proof. destruct c; exact (fun H => H). Qed.

Lemma wp_reject {A : Type} msg (Q : world -> A + option js_value -> Prop) w :
  (forall w', throws_only w w' -> Q w' (inr None)) ->
  wp (reject rt msg) Q w.
Proof.
  intros H. unfold reject. apply wp_bind, wp_act, wp_leave.
  apply H, _throw_type_error_frame.
Qed.

Lemma open_socket_family_frame d fam w :
  wp (open_socket_family rt pf d fam)
    (fun w' r =>
       throws_only w w' /\
       match r with
       | inl (af, d') =>
           family_ok pf fam = true /\ af = family_of fam
           /\ d' = with_family pf fam d /\ w' = w
       | inr _ => True
       end) w.
Proof.
  unfold open_socket_family, NAPI_CALL_VALUE.
  apply wp_bind. napi_call_step. injection Hf as <- <- <-.
  split; [intros _ | failed_call].
  apply wp_bind.
  destruct (negb (valuetype_eqb (typeof fam) napi_number)) eqn:Htype.
  { apply wp_reject. intros w' Hw'. split; [assumption | exact I]. }
  apply wp_ret, wp_bind. napi_call_step.
  destruct fam; try discriminate. injection Hf as <- <- <-.
  split; [intros _ | failed_call].
  unfold with_family. cbn [family_ok family_of].
  destruct (C.to_int32 n =? AF_INET pf) eqn:H4;
    [| destruct (C.to_int32 n =? AF_INET6 pf) eqn:H6].
  - apply wp_ret. split; [apply throws_only_refl |]. repeat split.
  - apply wp_ret. split; [apply throws_only_refl |]. repeat split.
  - apply wp_reject. intros w' Hw'. split; [assumption | exact I].
Qed.

Lemma open_from_address_frame fam d addr w :
  wp (open_from_address rt pf (family_of fam) d addr)
    (fun w' r =>
       throws_only w w' /\
       match r with
       | inl d' =>
           address_ok pf fam addr = true /\ d' = with_address pf fam addr d
       | inr _ => True
       end) w.
Proof.
  unfold open_from_address, NAPI_CALL_VALUE.
  apply wp_bind. napi_call_step. injection Hf as <- <- <-.
  split; [intros _ | failed_call].
  destruct (null_or_undefined (typeof addr)) eqn:Hnull.
  { apply wp_ret. split; [apply throws_only_refl |].
    destruct addr; try discriminate; split; reflexivity. }
  destruct (negb (valuetype_eqb (typeof addr) napi_string)) eqn:Hstr.
  { apply wp_reject. intros w' Hw'. split; [assumption | exact I]. }
  apply wp_bind. napi_call_step.
  destruct addr; try discriminate.
  destruct (napi_result rt "napi_get_value_string_latin1" 412 =? napi_ok)
    eqn:Hst; injection Hf as <- <- <-.
  2: { split; [intros E; rewrite E in Hst; discriminate | failed_call]. }
  split; [intros _ | failed_call].
  cbn [address_ok with_address]. unfold address_text.
  destruct (copy_latin1 s (C.bzero 42) 42) as [buf size]. cbn [fst].
  apply wp_bind.
  assert (Hlen : throws_only w
            (if (40 <? size)%nat
             then _throw_type_error rt
                    "From address must be at most 40 characters long" w
             else w)).
  { destruct (40 <? size)%nat;
      [apply _throw_type_error_frame | apply throws_only_refl]. }
  apply wp_when_act.
  generalize dependent (if (40 <? size)%nat
                        then _throw_type_error rt
                          "From address must be at most 40 characters long" w
                        else w).
  intros w1 Hw1.
  apply wp_bind, wp_call. unfold do_inet_pton.
  destruct (inet_pton pf (family_of fam) (C.c_str buf)) as [[r bytes] e].
  cbn [fst snd].
  destruct (r <? 0) eqn:Hlt; cbn [fst snd]; rewrite Hlt.
  { apply wp_bind, wp_act, wp_leave. split; [| exact I].
    apply (throws_only_trans _ _ _ (throws_only_errno e _ _ Hw1)).
    apply _throw_system_error_frame. }
  destruct (r =? 0) eqn:Heq.
  { apply wp_reject. intros w' Hw'. split; [| exact I].
    exact (throws_only_trans _ _ _ Hw1 Hw'). }
  apply wp_ret. split; [exact Hw1 |]. split; [| reflexivity].
  apply Z.ltb_ge in Hlt. apply Z.eqb_neq in Heq. apply Z.ltb_lt. lia.
Qed.


Lemma open_source_interface_frame d intf w :
  List.length (__interface d) = (IFNAMSIZ pf + 1)%nat ->
  wp (open_source_interface rt pf d intf)
    (fun w' r =>
       throws_only w w' /\
       match r with
       | inl d' =>
           interface_ok pf intf = true /\ d' = with_interface intf d /\ w' = w
       | inr _ => True
       end) w.
Proof.
  intros Hbuf. unfold open_source_interface, NAPI_CALL_VALUE.
  apply wp_bind. napi_call_step. injection Hf as <- <- <-.
  split; [intros _ | failed_call].
  destruct (null_or_undefined (typeof intf)) eqn:Hnull.
  { apply wp_ret. split; [apply throws_only_refl |].
    destruct intf; try discriminate; repeat split. }
  destruct (negb (valuetype_eqb (typeof intf) napi_string)) eqn:Hstr.
  { apply wp_reject. intros w' Hw'. split; [assumption | exact I]. }
  apply wp_bind. napi_call_step.
  destruct intf; try discriminate.
  destruct (napi_result rt "napi_get_value_string_latin1" 451 =? napi_ok)
    eqn:Hst; injection Hf as <- <- <-.
  2: { split; [intros E; rewrite E in Hst; discriminate | failed_call]. }
  split; [intros _ | failed_call].
  pose proof (copy_latin1_size s (C.bzero (IFNAMSIZ pf + 2)) (IFNAMSIZ pf + 2))
    as Hsize.
  destruct (Nat.leb_spec (String.length s) (IFNAMSIZ pf)) as [Hle | Hgt].
  - rewrite (copy_latin1_fits s (IFNAMSIZ pf) Hle).
    replace (IFNAMSIZ pf <? String.length s)%nat with false
      by (symmetry; apply Nat.ltb_ge; lia).
    rewrite (memcpy_interface s (IFNAMSIZ pf) (__interface d) Hle Hbuf).
    apply wp_ret. split; [apply throws_only_refl |].
    cbn [interface_ok with_interface]. repeat split.
    apply Nat.leb_le. exact Hle.
  - destruct (copy_latin1 s _ _) as [buf size]. cbn [snd] in Hsize.
    replace (IFNAMSIZ pf <? size)%nat with true
      by (symmetry; apply Nat.ltb_lt; lia).
    apply wp_reject. intros w' Hw'. split; [assumption | exact I].
Qed.

Lemma open_callback_frame d cb w :
  wp (open_callback rt d cb)
    (fun w' r =>
       match r with
       | inl d' =>
           handler_ok cb = true /\ d' = set_callback_ref (Some cb) d
           /\ w' = log EvCreateReference w
       | inr _ => throws_only w w'
       end) w.
Proof.
  unfold open_callback, NAPI_CALL_VALUE.
  apply wp_bind. napi_call_step. injection Hf as <- <- <-.
  split; [intros _ | intros _ w'' Hw''; assumption].
  apply wp_bind.
  destruct (negb (valuetype_eqb (typeof cb) napi_function)) eqn:Htype.
  { apply wp_reject. intros w' Hw'. assumption. }
  apply wp_ret, wp_bind. apply wp_NAPI_CALL. intros w' st a Hf.
  unfold napi_create_reference in Hf.
  destruct (napi_result rt "napi_create_reference" 473 =? napi_ok) eqn:Hst;
    injection Hf as <- <- <-.
  - apply Z.eqb_eq in Hst.
    split; [intros _ | intros Hne; contradiction].
    apply wp_ret. destruct cb; try discriminate. repeat split.
  - split; [intros E; rewrite E in Hst; discriminate |
            intros _ w'' Hw''; assumption].
Qed.

(** After the checks: the request is allocated, and queued unless an
    N-API call fails. *)
Lemma open_queue_frame d w :
  wp (open_queue rt d)
    (fun w' r =>
       opens_only w w' /\
       (queued w' = queued w \/ queued w' = Some (set_async_work true d))) w.
Proof.
  unfold open_queue, NAPI_CALL_VALUE.
  apply wp_bind. napi_call_step. injection Hf as <- <- <-.
  split; [intros _ | intros _ w'' Hw''].
  2: { split; [now apply throws_only_opens | left; apply Hw'']. }
  apply wp_bind. napi_call_step. injection Hf as <- <- <-.
  split; [intros _ | intros _ w'' Hw''].
  2: { split; [now apply throws_only_opens | left; apply Hw'']. }
  apply wp_bind, wp_act, wp_bind.
  assert (Hm : opens_only w (log EvMalloc w))
    by (apply opens_only_log; [reflexivity | apply opens_only_refl]).
  apply wp_NAPI_CALL. intros w' st a Hf. unfold napi_create_async_work in Hf.
  destruct (napi_result rt "napi_create_async_work" 488 =? napi_ok) eqn:Hst;
    injection Hf as <- <- <-.
  2: { split; [intros E; rewrite E in Hst; discriminate | intros _ w'' Hw''].
       split; [| left; apply Hw''].
       exact (opens_only_trans _ _ _ Hm (throws_only_opens _ _ Hw'')). }
  apply Z.eqb_eq in Hst. split; [intros _ | intros Hne; contradiction].
  assert (Hc : opens_only w (log EvCreateAsyncWork (log EvMalloc w)))
    by (apply opens_only_log; [reflexivity | exact Hm]).
  apply wp_bind, wp_NAPI_CALL. intros w' st a Hf.
  unfold napi_queue_async_work in Hf.
  destruct (napi_result rt "napi_queue_async_work" 498 =? napi_ok) eqn:Hst';
    injection Hf as <- <- <-.
  2: { split; [intros E; rewrite E in Hst'; discriminate | intros _ w'' Hw''].
       split; [| left; apply Hw''].
       exact (opens_only_trans _ _ _ Hc (throws_only_opens _ _ Hw'')). }
  apply Z.eqb_eq in Hst'. split; [intros _ | intros Hne; contradiction].
  apply wp_ret. split; [| right; reflexivity].
  apply opens_only_log; [reflexivity |]. apply opens_only_queued. exact Hc.
Qed.

(** [_open], whatever the runtime answers: it throws, creates the
    reference, allocates and queues, and nothing else; in particular it
    writes nowhere out of bounds, makes no system call and invokes no
    handler. Unless the four arguments pass every check it only throws
    and the queue is as it was; when it queues, it queues the request
    made of the arguments. *)
Lemma _open_frame info w :
  opens_only w (fst (_open rt pf info w)) /\
  (throws_only w (fst (_open rt pf info w)) \/
   exists family address interface handler,
     info = [family; address; interface; handler] /\
     reaches_queue pf family address interface handler = true /\
     (queued (fst (_open rt pf info w)) = queued w \/
      queued (fst (_open rt pf info w))
      = Some (request_of pf family address interface handler))).
Proof.
  set (Q := fun (w' : world) =>
    opens_only w w' /\
    (throws_only w w' \/
     exists family address interface handler,
       info = [family; address; interface; handler] /\
       reaches_queue pf family address interface handler = true /\
       (queued w' = queued w \/
        queued w' = Some (request_of pf family address interface handler)))).
  assert (Hthrows : forall w', throws_only w w' -> Q w').
  { intros w' Hw'. split; [now apply throws_only_opens | now left]. }
  change (Q (fst (_open rt pf info w))).
  unfold _open.
  apply (wp_body _ (fun w' (_ : option js_value) => Q w')).
  unfold NAPI_CALL_VALUE.
  apply wp_bind. napi_call_step. injection Hf as <- <- <-.
  split; [intros _ | intros _ w'' Hw''; now apply Hthrows].
  apply wp_bind.
  destruct (negb (List.length info =? 4)%nat) eqn:Hargc.
  { apply wp_reject. intros w' Hw'. now apply Hthrows. }
  apply wp_ret.
  destruct info as [| family [| address [| interface [| handler [| x rest]]]]];
    try discriminate.
  cbn [firstn app nth].
  apply wp_bind.
  eapply wp_mono; [apply open_socket_family_frame |].
  intros w1 [[af d1] | r1] [Hw1 H1]; [| now apply Hthrows].
  destruct H1 as (Hfam & -> & -> & ->).
  apply wp_bind.
  eapply wp_mono; [apply open_from_address_frame |].
  intros w2 [d2 | r2] [Hw2 H2]; [| now apply Hthrows].
  destruct H2 as (Haddr & ->).
  apply wp_bind.
  eapply wp_mono; [apply open_source_interface_frame |].
  { rewrite interface_with_address, interface_with_family.
    cbn. unfold C.bzero. apply repeat_length. }
  intros w3 [d3 | r3] [Hw3 H3];
    [| apply Hthrows; exact (throws_only_trans _ _ _ Hw2 Hw3)].
  destruct H3 as (Hintf & -> & ->).
  apply wp_bind.
  eapply wp_mono; [apply open_callback_frame |].
  intros w4 [d4 | r4] H4;
    [| apply Hthrows; exact (throws_only_trans _ _ _ Hw2 H4)].
  destruct H4 as (Hcb & -> & ->).
  apply wp_bind.
  eapply wp_mono; [apply open_queue_frame |].
  assert (Hreach : reaches_queue pf family address interface handler = true)
    by (unfold reaches_queue; now rewrite Hfam, Haddr, Hintf, Hcb).
  assert (Hpre : opens_only w (log EvCreateReference w2)).
  { apply opens_only_log; [reflexivity | now apply throws_only_opens]. }
  assert (Hq2 : queued (log EvCreateReference w2) = queued w)
    by (cbn; apply Hw2).
  intros w5 r5 [Hw5 Hq5].
  assert (HQ : Q w5).
  { split; [exact (opens_only_trans _ _ _ Hpre Hw5) |].
    right. exists family, address, interface, handler.
    split; [reflexivity | split; [exact Hreach |]].
    destruct Hq5 as [Hq5 | Hq5]; [left; congruence | right; exact Hq5]. }
  destruct r5 as [[] | r5]; [apply wp_ret |]; exact HQ.
Qed.


(* ---------------------------------------------------------------- *)
(** *** The completion step, whatever the runtime answers *)

Lemma completed_to_throws s w0 w1 w2 :
  completed_to s w0 w1 -> throws_only w1 w2 -> completed_to s w0 w2.
Proof.
  intros (Hq & Hf & tr & Ht & Hr) (Hq' & Hf' & tr' & Ht' & Ha').
  split; [congruence | split; [congruence |]].
  exists (tr ++ tr'). split.
  - rewrite Ht', Ht, <- app_assoc. reflexivity.
  - rewrite run_order_app, Hr. now apply run_order_throws.
Qed.

Lemma completed_to_step s s' e w0 w1 :
  completed_to s w0 w1 -> step s e = Some s' ->
  completed_to s' w0 (log e w1).
Proof.
  intros (Hq & Hf & tr & Ht & Hr) He.
  split; [exact Hq | split; [exact Hf |]].
  exists (tr ++ [e]). split.
  - cbn. rewrite Ht, <- app_assoc. reflexivity.
  - rewrite run_order_app, Hr. cbn. now rewrite He.
Qed.

Lemma completed_to_pending s p w0 w1 :
  completed_to s w0 w1 -> completed_to s w0 (set_pending p w1).
Proof. exact (fun H => H). Qed.

(** The completion step frees the request record first, then at most:
    invokes the handler, deletes the reference, deletes the async work,
    in that order; it may throw in between and stop after any of them. *)
Lemma _open_complete_frame st d w :
  exists s, completed_to s w (_open_complete rt pf st d w).
Proof.
  unfold _open_complete.
  apply (wp_body _ (fun w' (_ : unit) => exists s, completed_to s w w')).
  assert (H0 : completed_to Freed w (log EvFree w)).
  { split; [reflexivity | split; [reflexivity |]].
    exists []. split; reflexivity. }
  assert (Hleave : forall s w1 w2 (r : unit + unit),
            completed_to s w w1 -> throws_only w1 w2 ->
            match r with
            | inl _ | inr _ => exists s', completed_to s' w w2
            end).
  { intros s w1 w2 r H1 H2. destruct r; exists s;
      exact (completed_to_throws _ _ _ _ H1 H2). }
  apply wp_bind, wp_act. generalize dependent (log EvFree w). intros w1 H1.
  unfold NAPI_CALL_VOID.
  apply wp_bind, wp_NAPI_CALL. intros w' st' a Hf.
  unfold napi_get_null in Hf. injection Hf as <- <- <-.
  split; [intros _ | intros _ w'' Hw''; exact (Hleave _ _ _ (inr tt) H1 Hw'')].
  apply wp_bind, wp_NAPI_CALL. intros w' st' a Hf.
  unfold napi_get_undefined in Hf. injection Hf as <- <- <-.
  split; [intros _ | intros _ w'' Hw''; exact (Hleave _ _ _ (inr tt) H1 Hw'')].
  apply wp_bind.
  (* the slots *)
  apply (wp_mono _ (fun w' r =>
           completed_to Freed w w')).
  { destruct (negb (st =? napi_ok)); [| destruct (__fd d <? 0)].
    - apply wp_bind, wp_NAPI_CALL. intros w' st' a Hf.
      unfold napi_create_string_latin1 in Hf. injection Hf as <- <- <-.
      split; [intros _ | intros _ w'' Hw'';
                         exact (completed_to_throws _ _ _ _ H1 Hw'')].
      apply wp_bind, wp_NAPI_CALL. intros w' st' a Hf.
      unfold napi_create_error in Hf. injection Hf as <- <- <-.
      split; [intros _ | intros _ w'' Hw'';
                         exact (completed_to_throws _ _ _ _ H1 Hw'')].
      apply wp_ret. exact H1.
    - apply wp_bind, wp_call.
      pose proof (_system_error_frame (__syscall d) (__errno d) w1) as He.
      destruct (_system_error rt pf (__syscall d) (__errno d) w1) as [w2 e].
      cbn [fst snd] in *. apply wp_ret.
      exact (completed_to_throws _ _ _ _ H1 He).
    - apply wp_bind, wp_NAPI_CALL. intros w' st' a Hf.
      unfold napi_create_uint32 in Hf. injection Hf as <- <- <-.
      split; [intros _ | intros _ w'' Hw'';
                         exact (completed_to_throws _ _ _ _ H1 Hw'')].
      apply wp_ret. exact H1. }
  clear w1 H1. intros w1 r H1.
  destruct r as [[arg0 arg1] | []]; [| exists Freed; exact H1].
  apply wp_bind, wp_NAPI_CALL. intros w' st' a Hf.
  unfold napi_get_reference_value in Hf.
  destruct (__callback_ref d); injection Hf as <- <- <-.
  2: { split; [discriminate |
               intros _ w'' Hw''; exact (Hleave _ _ _ (inr tt) H1 Hw'')]. }
  split; [intros _ | intros _ w'' Hw''; exact (Hleave _ _ _ (inr tt) H1 Hw'')].
  apply wp_bind, wp_NAPI_CALL. intros w' st' a Hf.
  unfold napi_get_global in Hf. injection Hf as <- <- <-.
  split; [intros _ | intros _ w'' Hw''; exact (Hleave _ _ _ (inr tt) H1 Hw'')].
  apply wp_bind, wp_NAPI_CALL. intros w' st' a Hf.
  unfold napi_call_function in Hf.
  assert (Hcalled : completed_to Called w (log (EvCallFunction arg0 arg1) w1))
    by (apply (completed_to_step Freed); [exact H1 | reflexivity]).
  destruct (pending w1), j;
    try (injection Hf as <- <- <-;
         split; [discriminate |
                 intros _ w'' Hw'';
                 exact (Hleave _ _ _ (inr tt) H1 Hw'')]).
  destruct (napi_result rt "napi_call_function" 337 =? napi_ok) eqn:Hst.
  2: { injection Hf as <- <- <-.
       split; [intros E; rewrite E in Hst; discriminate |
               intros _ w'' Hw''; exact (Hleave _ _ _ (inr tt) H1 Hw'')]. }
  destruct (handler_throws rt); injection Hf as <- <- <-.
  { split; [discriminate | intros _ w'' Hw''].
    exact (Hleave _ _ _ (inr tt)
             (completed_to_pending _ _ _ _ Hcalled) Hw''). }
  split; [intros _ | intros Hne; contradiction].
  clear H1. generalize dependent (log (EvCallFunction arg0 arg1) w1).
  intros w2 H2.
  apply wp_bind, wp_NAPI_CALL. intros w' st' a Hf.
  unfold napi_delete_reference in Hf.
  destruct (napi_result rt "napi_delete_reference" 340 =? napi_ok) eqn:Hst2;
    injection Hf as <- <- <-.
  2: { split; [intros E; rewrite E in Hst2; discriminate |
               intros _ w'' Hw''; exact (Hleave _ _ _ (inr tt) H2 Hw'')]. }
  apply Z.eqb_eq in Hst2. split; [intros _ | intros Hne; contradiction].
  assert (H3 : completed_to Unreferenced w (log EvDeleteReference w2))
    by (apply (completed_to_step Called); [exact H2 | reflexivity]).
  apply wp_NAPI_CALL. intros w' st' a Hf.
  unfold napi_delete_async_work in Hf.
  destruct (__async_work d).
  2: { injection Hf as <- <- <-.
       split; [discriminate |
               intros _ w'' Hw''; exact (Hleave _ _ _ (inr tt) H3 Hw'')]. }
  destruct (napi_result rt "napi_delete_async_work" 341 =? napi_ok) eqn:Hst3;
    injection Hf as <- <- <-.
  2: { split; [intros E; rewrite E in Hst3; discriminate |
               intros _ w'' Hw''; exact (Hleave _ _ _ (inr tt) H3 Hw'')]. }
  split; [intros _ | intros Hne; apply Z.eqb_eq in Hst3; contradiction].
  exists Finished. apply (completed_to_step Unreferenced); [exact H3 | reflexivity].
Qed.


(* ---------------------------------------------------------------- *)
(** *** The error translation and the event loop, whatever the runtime
        answers *)

(** [_system_error] only throws, and the error it returns, when it
    returns one, is the translation of the failure. *)
Lemma _system_error_result sc e w :
  throws_only w (fst (_system_error rt pf sc e w)) /\
  (snd (_system_error rt pf sc e w) = None \/
   snd (_system_error rt pf sc e w) = Some (system_error_value pf sc e)).
Proof.
  split; [apply _system_error_frame |].
  unfold _system_error, system_error_value.
  apply (wp_body _ (fun _ r => r = None \/ r = Some _)).
  destruct (e =? 0), sc; cbn [negb].
  all: repeat match goal with
    | |- wp (bind _ _) _ _ => apply wp_bind
    | |- wp (ret _) _ _ => apply wp_ret
    | |- wp (NAPI_CALL_VALUE _ _ _ _) _ _ =>
        apply wp_NAPI_CALL; intros w' st a Hf;
        unfold napi_create_string_latin1, napi_create_error,
          napi_create_uint32, napi_set_named_property in Hf;
        cbv beta iota in Hf;
        repeat match type of Hf with
               | context [match ?x with _ => _ end] => destruct x eqn:?
               end;
        injection Hf as <- <- <-;
        (split; [let H := fresh "Hst" in
                 intros H; try discriminate H;
                 try match goal with
                     | E : (_ =? napi_ok) = false |- _ =>
                         rewrite H in E; discriminate E
                     end
                | intros _ w'' Hw''; now left])
    end.
  all: now right.
Qed.

Lemma run_order_calls s s' tr :
  run_order s tr = Some s' ->
  (count_events is_call tr <= 1)%nat /\
  (s <> Freed -> count_events is_call tr = 0%nat) /\
  (s' = Freed -> count_events is_call tr = 0%nat).
Proof.
  revert s. induction tr as [| e tr IH]; intros s H.
  - cbn. repeat split; lia.
  - cbn in H. destruct (step s e) as [s1 |] eqn:He; [| discriminate].
    destruct (IH s1 H) as (H1 & H2 & H3).
    unfold count_events in *. cbn [filter].
    destruct e, s; cbn in He; try discriminate;
      injection He as <-; cbn [is_call List.length];
      repeat split; intros; try congruence; try lia;
      try (rewrite H2 by discriminate; lia);
      try (apply H2; discriminate); try (apply H3; assumption).
    (* the handler was invoked, so the trace does not end at [Freed] *)
    exfalso. subst s'. clear - H.
    assert (Hno : forall t s, s <> Freed -> run_order s t <> Some Freed).
    { induction t as [| e t IHt]; intros s Hs; cbn; [congruence |].
      destruct (step s e) as [s1 |] eqn:He; [| discriminate].
      apply IHt. destruct e, s; cbn in He; try discriminate;
        injection He as <-; congruence. }
    exact (Hno tr Called ltac:(discriminate) H).
Qed.

Lemma run_order_no_release s s' tr :
  run_order s tr = Some s' ->
  count_events (fun e => match e with EvFree => true | _ => false end) tr
  = 0%nat.
Proof.
  revert s. induction tr as [| e tr IH]; intros s H; [reflexivity |].
  cbn in H. destruct (step s e) as [s1 |] eqn:He; [| discriminate].
  unfold count_events in *. cbn [filter].
  destruct e, s; cbn in He; try discriminate; exact (IH s1 H).
Qed.

(** The event loop with nothing queued does nothing. *)
Lemma run_async_work_idle w :
  queued w = None -> run_async_work rt pf w = w.
Proof. intros H. unfold run_async_work. now rewrite H. Qed.

(** The event loop on a queued request: the worker's events, the record
    freed, then the rest of the completion step in order. *)
Lemma run_async_work_frame d w :
  queued w = Some d ->
  exists pre tr s,
    trace (run_async_work rt pf w) = trace w ++ pre ++ EvFree :: tr
    /\ forallb is_worker_event pre = true
    /\ (__sockaddr_size d = 0%nat -> count_events is_bind pre = 0%nat)
    /\ run_order Freed tr = Some s.
Proof.
  intros Hq. unfold run_async_work. rewrite Hq.
  destruct (work_status rt =? napi_ok).
  - pose proof (_open_execute_frame pf d (log EvExecute (set_queued None w)))
      as (Hext & _ & Hbind & _).
    destruct (_open_execute pf d (log EvExecute (set_queued None w)))
      as [we de]. cbn [fst snd] in *.
    destruct Hext as (_ & _ & pre & Hpre & Hall).
    destruct (_open_complete_frame (work_status rt) de we)
      as (s & _ & _ & tr & Htr & Hs).
    exists (EvExecute :: pre), tr, s. split; [| split; [| split]].
    + rewrite Htr, Hpre. cbn. rewrite <- !app_assoc. reflexivity.
    + cbn. apply (forallb_impl is_syscall); auto using is_syscall_worker.
    + intros Hz. destruct (Hbind Hz) as (_ & _ & pre' & Hpre' & Hall').
      rewrite Hpre in Hpre'. apply app_inv_head in Hpre'. subst pre'.
      unfold count_events. cbn. fold (count_events is_bind pre).
      apply (count_events_none not_bind); [| assumption].
      unfold not_bind. intros e He. apply andb_prop in He as [_ He].
      now destruct (is_bind e).
    + exact Hs.
  - destruct (_open_complete_frame (work_status rt) d (set_queued None w))
      as (s & _ & _ & tr & Htr & Hs).
    exists [], tr, s. split; [| split; [| split]]; try reflexivity.
    + rewrite Htr. reflexivity.
    + exact Hs.
Qed.

End Any_runtime.

(* ------------------------------------------------------------------ *)
(** ** A call to [open], from the call to the end of the event loop *)

Lemma napi_all_ok_node : napi_all_ok node.
Proof. intros call line. reflexivity. Qed.

Lemma count_events_opens p w w' :
  (forall e, is_open_event e = true -> p e = false) ->
  opens_only w w' -> count_events p (trace w') = count_events p (trace w).
Proof.
  intros Hp (_ & tr & -> & Hall).
  rewrite count_events_app, (count_events_none is_open_event p tr Hp Hall).
  lia.
Qed.

Lemma is_open_not_call e : is_open_event e = true -> is_call e = false.
Proof. destruct e; cbn; congruence. Qed.

Lemma is_open_not_release e : is_open_event e = true -> is_release e = false.
Proof. destruct e; cbn; congruence. Qed.

Lemma is_open_not_bind e : is_open_event e = true -> is_bind e = false.
Proof. destruct e; cbn; congruence. Qed.

Lemma is_open_not_fault e : is_open_event e = true -> is_fault e = false.
Proof. destruct e; cbn; congruence. Qed.

(** A completion step in order makes no system call. *)
Lemma run_order_no_bind s s' tr :
  run_order s tr = Some s' -> count_events is_bind tr = 0%nat.
Proof.
  revert s. induction tr as [| e tr IH]; intros s H; [reflexivity |].
  cbn in H. destruct (step s e) as [s1 |] eqn:He; [| discriminate].
  unfold count_events in *. cbn [filter].
  destruct e, s; cbn in He; try discriminate; exact (IH s1 H).
Qed.

(** Whatever the runtime answers, a call that queues a request was given
    four arguments that reach the queue, and queues the request made of
    them. *)
Lemma queued_request rt pf info w :
  queued w = None ->
  queued (returned (js_open rt pf info w)) <> None ->
  exists family address interface handler,
    info = [family; address; interface; handler]
    /\ reaches_queue pf family address interface handler = true
    /\ queued (returned (js_open rt pf info w))
       = Some (request_of pf family address interface handler).
Proof.
  intros Hq Hqueued. unfold js_open in *. cbn [returned] in *.
  destruct (_open_frame rt pf info w) as (_ & [Hthrows | H]).
  - destruct Hthrows as (Hq' & _). congruence.
  - destruct H as (f & a & i & h & Hinfo & Hreach & [Hq' | Hq']);
      [congruence |].
    exists f, a, i, h. auto.
Qed.

(** Whatever the runtime answers, a call that queues nothing leaves
    nothing for the event loop to run. *)
Lemma nothing_queued rt pf info w :
  queued (returned (js_open rt pf info w)) = None ->
  settled (js_open rt pf info w)
  = set_pending None (returned (js_open rt pf info w)).
Proof.
  intros H. unfold js_open in *. cbn [returned settled] in *.
  now apply run_async_work_idle.
Qed.

(** Whatever the runtime answers: the events of a call that queues a
    request, from the return of the call to the end of the event loop. *)
Lemma queued_call_events rt pf family address interface handler w :
  queued (returned (js_open rt pf [family; address; interface; handler] w))
  = Some (request_of pf family address interface handler) ->
  exists pre tr s,
    trace (settled (js_open rt pf [family; address; interface; handler] w))
    = trace (returned (js_open rt pf [family; address; interface; handler] w))
        ++ pre ++ EvFree :: tr
    /\ forallb is_worker_event pre = true
    /\ (__sockaddr_size (request_of pf family address interface handler)
        = 0%nat -> count_events is_bind pre = 0%nat)
    /\ run_order Freed tr = Some s.
Proof.
  intros Hq. unfold js_open in *. cbn [returned settled] in *.
  exact (run_async_work_frame rt pf _
           (set_pending None
              (fst (_open rt pf [family; address; interface; handler] w)))
           Hq).
Qed.

Lemma well_formed_request_of pf family address interface handler :
  handler_ok handler = true ->
  well_formed_request (request_of pf family address interface handler).
Proof.
  intros H. destruct handler; try discriminate.
  split; [eexists |]; reflexivity.
Qed.

(** When the N-API calls succeed: what a call that reaches the queue
    leaves when the event loop has run. *)
Lemma accepted_call rt pf family address interface handler w :
  napi_all_ok rt -> pending w = None ->
  reaches_queue pf family address interface handler = true ->
  returned (js_open rt pf [family; address; interface; handler] w)
  = enqueued (request_of pf family address interface handler)
      (after_length_check address w)
  /\ exists pre d',
       forallb is_worker_event pre = true /\
       trace (settled (js_open rt pf [family; address; interface; handler] w))
       = trace (returned (js_open rt pf [family; address; interface; handler] w))
           ++ pre
           ++ EvFree
           :: EvCallFunction (fst (completion_slots pf (work_status rt) d'))
                (snd (completion_slots pf (work_status rt) d'))
           :: match handler_throws rt with
              | None => [EvDeleteReference; EvDeleteAsyncWork]
              | Some _ => []
              end.
Proof.
  intros Hok Hp H. unfold js_open. cbn [returned settled].
  rewrite _open_accepts by assumption. cbn [fst]. split; [reflexivity |].
  assert (Hcb : handler_ok handler = true).
  { unfold reaches_queue in H. now apply andb_prop in H as [_ H]. }
  destruct (run_async_work_ok rt pf Hok
              (request_of pf family address interface handler)
              (set_pending None
                 (enqueued (request_of pf family address interface handler)
                    (after_length_check address w))))
    as (pre & d' & Hpre & _ & Htr);
    [reflexivity | reflexivity | now apply well_formed_request_of |].
  exists pre, d'. split; [assumption |].
  destruct (completion_slots pf (work_status rt) d') as [a0 a1].
  exact Htr.
Qed.

(** When the N-API calls succeed: a call that does not reach the queue
    fails with the one exception it throws. *)
Lemma refused_call rt pf info w :
  napi_all_ok rt -> pending w = None ->
  (forall family address interface handler,
     info = [family; address; interface; handler] ->
     reaches_queue pf family address interface handler = false) ->
  exists e,
    exception (js_open rt pf info w) = Some e
    /\ trace (returned (js_open rt pf info w)) = trace w ++ [EvThrow e].
Proof.
  intros Hok Hp Hno. unfold js_open. cbn [exception returned].
  assert (Hrej : rejected w (fst (_open rt pf info w))).
  { destruct info as [| f [| a [| i [| h [| x rest]]]]].
    1-4, 6: rewrite _open_wrong_argc by (assumption || discriminate);
      now apply rejected_throw.
    destruct (_open_rejects rt pf Hok f a i h w Hp (Hno f a i h eq_refl))
      as (w1 & -> & Hrej). exact Hrej. }
  destruct Hrej as (e & He & Ht & _). exists e. auto.
Qed.

(* ------------------------------------------------------------------ *)
(** ** The claims *)

(** *** C1: failure paths and the descriptor *)

(** [_open_execute_fail] closes nothing when the descriptor is greater
    than 1: it records the failure and returns with the socket open. *)
Lemma _open_execute_fail_keeps_socket pf d _syscall _errno w :
  1 < __fd d ->
  _open_execute_fail pf d _syscall _errno w =
  (w, set_fd (-1) (set_errno (errno w) (set_syscall _syscall d))).
Proof.
  intros H. unfold _open_execute_fail.
  apply Z.ltb_lt in H. rewrite H. reflexivity.
Qed.

(** On every platform and for every request, the worker thread never
    closes a descriptor greater than 1, whatever fails. *)
Lemma _open_execute_never_closes_above_1 pf d w :
  extends closes_low w (fst (_open_execute pf d w)).
Proof. apply _open_execute_frame. Qed.

(** C1, on the code: [socket] returns descriptor 3 and binding to the
    interface fails with ENODEV. The request records the failure of
    [setsockopt] with descriptor [-1], no [close] is ever made, and
    descriptor 3 is still open when the handler has been called with the
    error. The claim asks for the descriptor to be closed. *)
Theorem C1_failure_leaves_descriptor_open :
  let pf := linux (3, 0) (-1, 19) (0, 0) in
  let request :=
    request_of pf (JsNumber 2) JsNull (JsString "eth9") (JsFunction 0) in
  let after := _open_execute pf request fresh_world in
  let r :=
    js_open node pf [JsNumber 2; JsNull; JsString "eth9"; JsFunction 0]
      fresh_world in
  __fd (snd after) = -1
  /\ __syscall (snd after) = Some "setsockopt"%string
  /\ __errno (snd after) = 19
  /\ trace (fst after) = [EvSocket 2 2 1 3; EvSetsockopt 3 1 25 (-1)]
  /\ open_fds (fst after) = [3; 0; 1; 2]
  /\ count_events is_close (trace (settled r)) = 0%nat
  /\ open_fds (settled r) = [3; 0; 1; 2].
Proof. vm_compute. repeat split. Qed.

(* ------------------------------------------------------------------ *)
(** *** C2: the handler is invoked exactly once, with one slot *)

(** C2: for every call to [open] that queues a request.
    Whatever the runtime answers, the call itself invokes no handler and
    the completion handler is invoked at most once afterwards.
    When the N-API calls succeed, the events after the call returned hold
    exactly one invocation of the completion handler, and that invocation
    has exactly one of its two slots populated: an error with the
    descriptor slot [undefined], or [null] with a non-negative
    descriptor. *)
Theorem C2_handler_invoked_exactly_once rt pf info w :
  queued w = None ->
  queued (returned (js_open rt pf info w)) <> None ->
  handler_calls (returned (js_open rt pf info w)) = handler_calls w
  /\ (handler_calls (settled (js_open rt pf info w))
      <= S (handler_calls w))%nat
  /\ (napi_all_ok rt -> pending w = None ->
      exists pre arg0 arg1 post,
        trace (settled (js_open rt pf info w)) =
        trace (returned (js_open rt pf info w))
          ++ pre ++ EvCallFunction arg0 arg1 :: post
        /\ count_events is_call pre = 0%nat
        /\ count_events is_call post = 0%nat
        /\ one_slot arg0 arg1).
Proof.
  intros Hq Hqueued.
  destruct (queued_request rt pf info w Hq Hqueued)
    as (family & address & interface & handler & -> & Hreach & Hreq).
  assert (Hcall : handler_calls
                    (returned (js_open rt pf
                                 [family; address; interface; handler] w))
                  = handler_calls w).
  { apply (count_events_opens is_call); [exact is_open_not_call |].
    apply _open_frame. }
  split; [exact Hcall | split].
  - destruct (queued_call_events rt pf family address interface handler w Hreq)
      as (pre & tr & s & Htr & Hpre & _ & Hs).
    unfold handler_calls in *. rewrite Htr, !count_events_app, Hcall.
    rewrite (count_events_none is_worker_event is_call pre
               is_worker_not_call Hpre).
    destruct (run_order_calls Freed s tr Hs) as (Hle & _).
    change (EvFree :: tr) with ([EvFree] ++ tr).
    rewrite count_events_app. cbn. lia.
  - intros Hok Hp.
    destruct (accepted_call rt pf family address interface handler w
                Hok Hp Hreach) as (_ & pre & d' & Hpre & Htr).
    exists (pre ++ [EvFree]).
    exists (fst (completion_slots pf (work_status rt) d')).
    exists (snd (completion_slots pf (work_status rt) d')).
    exists (match handler_throws rt with
            | None => [EvDeleteReference; EvDeleteAsyncWork]
            | Some _ => []
            end).
    split; [| split; [| split]].
    + rewrite Htr, <- !app_assoc. reflexivity.
    + rewrite count_events_app.
      rewrite (count_events_none is_worker_event is_call pre
                 is_worker_not_call Hpre).
      reflexivity.
    + destruct (handler_throws rt); reflexivity.
    + apply one_slot_completion.
Qed.

(** C2 at a concrete call: Linux, a handler, no address, no interface. *)
Lemma C2_witness :
  queued fresh_world = None
  /\ queued (returned (js_open node linux_ok
                         [JsNumber 2; JsNull; JsNull; JsFunction 0]
                         fresh_world)) <> None
  /\ napi_all_ok node /\ pending fresh_world = None
  /\ handler_calls (returned (js_open node linux_ok
                                [JsNumber 2; JsNull; JsNull; JsFunction 0]
                                fresh_world))
     = handler_calls fresh_world
  /\ (handler_calls (settled (js_open node linux_ok
                                [JsNumber 2; JsNull; JsNull; JsFunction 0]
                                fresh_world))
      <= S (handler_calls fresh_world))%nat
  /\ exists pre arg0 arg1 post,
       trace (settled (js_open node linux_ok
                         [JsNumber 2; JsNull; JsNull; JsFunction 0]
                         fresh_world)) =
       trace (returned (js_open node linux_ok
                          [JsNumber 2; JsNull; JsNull; JsFunction 0]
                          fresh_world))
         ++ pre ++ EvCallFunction arg0 arg1 :: post
       /\ count_events is_call pre = 0%nat
       /\ count_events is_call post = 0%nat
       /\ one_slot arg0 arg1.
Proof.
  assert (Hq : queued (returned (js_open node linux_ok
                                   [JsNumber 2; JsNull; JsNull; JsFunction 0]
                                   fresh_world)) <> None)
    by (vm_compute; discriminate).
  destruct (C2_handler_invoked_exactly_once node linux_ok
              [JsNumber 2; JsNull; JsNull; JsFunction 0] fresh_world
              eq_refl Hq) as (H1 & H2 & H3).
  split; [reflexivity |]. split; [exact Hq |].
  split; [exact napi_all_ok_node |]. split; [reflexivity |].
  split; [exact H1 |]. split; [exact H2 |].
  exact (H3 napi_all_ok_node eq_refl).
Defined.

(* ------------------------------------------------------------------ *)
(** *** C3: validation failures and the worker *)

(** Whatever the runtime answers, a call that does not reach the queue
    only throws, and leaves nothing for the event loop to run. *)
Lemma not_queued_call rt pf family address interface handler w :
  queued w = None ->
  reaches_queue pf family address interface handler = false ->
  throws_only w
    (returned (js_open rt pf [family; address; interface; handler] w))
  /\ settled (js_open rt pf [family; address; interface; handler] w)
     = set_pending None
         (returned (js_open rt pf [family; address; interface; handler] w)).
Proof.
  intros Hq Hno.
  assert (Hthrows : throws_only w
            (returned (js_open rt pf [family; address; interface; handler] w))).
  { unfold js_open. cbn [returned].
    destruct (_open_frame rt pf [family; address; interface; handler] w)
      as (_ & [H | (f & a & i & h & E & Hreach & _)]); [exact H |].
    injection E as <- <- <- <-. congruence. }
  split; [exact Hthrows |].
  apply nothing_queued. destruct Hthrows as (-> & _). exact Hq.
Qed.

(** The same for every argument list: a call that a check of [_open]
    stops only throws, and leaves nothing for the event loop to run. *)
Lemma stopped_call rt pf info w :
  queued w = None ->
  stopped_by_a_check pf info = true ->
  throws_only w (returned (js_open rt pf info w))
  /\ settled (js_open rt pf info w)
     = set_pending None (returned (js_open rt pf info w)).
Proof.
  intros Hq Hstop.
  assert (Hthrows : throws_only w (returned (js_open rt pf info w))).
  { unfold js_open. cbn [returned].
    destruct (_open_frame rt pf info w)
      as (_ & [H | (f & a & i & h & -> & Hreach & _)]); [exact H |].
    cbn in Hstop. rewrite Hreach in Hstop. discriminate. }
  split; [exact Hthrows |].
  apply nothing_queued. destruct Hthrows as (-> & _). exact Hq.
Qed.

Lemma stopped_by_a_check_spec pf info :
  stopped_by_a_check pf info = true ->
  forall family address interface handler,
    info = [family; address; interface; handler] ->
    reaches_queue pf family address interface handler = false.
Proof.
  intros Hstop f a i h ->. cbn in Hstop.
  now destruct (reaches_queue pf f a i h).
Qed.

(** C3, on the code: an address string of 42 characters that is no IPv6
    address, an address followed by one character more; a validation
    failure of the address, for its length and for its text. The call
    fails with "From address must be at most 40 characters long", and
    yet the request is allocated and queued, the worker thread starts,
    opens a socket and binds it to the address made of the 41 characters
    that were kept, and the completion handler is invoked, with the
    descriptor. The claim asks that the request be never allocated, that
    no worker-thread execution start and that the handler be never
    invoked. *)
Theorem C3_validation_failure_reaches_the_handler :
  String.length malformed_long_address = 42%nat
  /\ fst (fst (inet_pton linux_ok 10 malformed_long_address)) = 0
  /\ validation_failure linux_ok (JsNumber 10)
       (JsString malformed_long_address) JsNull (JsFunction 0)
  /\ exception (js_open node linux_ok
                  [JsNumber 10; JsString malformed_long_address; JsNull;
                   JsFunction 0] fresh_world)
     = Some (type_error "From address must be at most 40 characters long")
  /\ trace (settled (js_open node linux_ok
                  [JsNumber 10; JsString malformed_long_address; JsNull;
                   JsFunction 0] fresh_world))
     = [EvThrow (type_error "From address must be at most 40 characters long");
        EvCreateReference; EvMalloc; EvCreateAsyncWork; EvQueueAsyncWork;
        EvExecute; EvSocket 10 2 58 3; EvBind 3 28 0;
        EvFree; EvCallFunction (Some JsNull) (Some (JsNumber 3));
        EvDeleteReference; EvDeleteAsyncWork]
  /\ handler_calls (settled (js_open node linux_ok
                  [JsNumber 10; JsString malformed_long_address; JsNull;
                   JsFunction 0] fresh_world))
     = 1%nat.
Proof.
  split; [reflexivity |]. split; [vm_compute; reflexivity |].
  split; [apply overlong_address; vm_compute; lia |].
  vm_compute. repeat split.
Qed.

(* ------------------------------------------------------------------ *)
(** *** C4: when the handler is invoked *)

(** C4 as stated fails: a call with an unsupported family is refused by
    an exception, and the completion handler is invoked neither during
    the call nor afterwards, where the claim has it invoked once,
    synchronously. *)
Lemma C4_counterexample :
  exception (js_open node linux_ok
               [JsNumber 12345; JsNull; JsNull; JsFunction 0] fresh_world)
  = Some (type_error "Socket family must be AF_INET or AF_INET6")
  /\ handler_calls (returned (js_open node linux_ok
               [JsNumber 12345; JsNull; JsNull; JsFunction 0] fresh_world))
     = 0%nat
  /\ handler_calls (settled (js_open node linux_ok
               [JsNumber 12345; JsNull; JsNull; JsFunction 0] fresh_world))
     = 0%nat.
Proof. vm_compute. repeat split. Qed.

(** C4, amended: for every call to [open].
    Whatever the runtime answers, the completion handler is never invoked
    during the call, it is invoked at most once afterwards, and it is not
    invoked at all when the call queued nothing; and a call that a check
    of [open] stops queues nothing.
    When the N-API calls succeed, a call that queues nothing fails with
    an exception, and a call that queues a request has its handler
    invoked exactly once, by the event loop. *)
Theorem C4_handler_invoked_only_after_queueing rt pf info w :
  queued w = None ->
  handler_calls (returned (js_open rt pf info w)) = handler_calls w
  /\ (handler_calls (settled (js_open rt pf info w))
      <= S (handler_calls w))%nat
  /\ (queued (returned (js_open rt pf info w)) = None ->
      handler_calls (settled (js_open rt pf info w)) = handler_calls w)
  /\ (stopped_by_a_check pf info = true ->
      queued (returned (js_open rt pf info w)) = None)
  /\ (napi_all_ok rt -> pending w = None ->
      (queued (returned (js_open rt pf info w)) = None ->
       exception (js_open rt pf info w) <> None)
      /\ (queued (returned (js_open rt pf info w)) <> None ->
          handler_calls (settled (js_open rt pf info w))
          = S (handler_calls w))).
Proof.
  intros Hq.
  assert (Hcall : handler_calls (returned (js_open rt pf info w))
                  = handler_calls w).
  { apply (count_events_opens is_call); [exact is_open_not_call |].
    apply _open_frame. }
  assert (Hidle : queued (returned (js_open rt pf info w)) = None ->
                  handler_calls (settled (js_open rt pf info w))
                  = handler_calls w).
  { intros Hnone. rewrite (nothing_queued rt pf info w Hnone). exact Hcall. }
  split; [exact Hcall | split; [| split; [exact Hidle | split]]].
  - destruct (queued (returned (js_open rt pf info w))) as [d |] eqn:Hd.
    + assert (Hne : queued (returned (js_open rt pf info w)) <> None)
        by (rewrite Hd; discriminate).
      destruct (queued_request rt pf info w Hq Hne)
        as (f & a & i & h & -> & _ & Hreq).
      destruct (queued_call_events rt pf f a i h w Hreq)
        as (pre & tr & s & Htr & Hpre & _ & Hs).
      unfold handler_calls in *. rewrite Htr, !count_events_app, Hcall.
      rewrite (count_events_none is_worker_event is_call pre
                 is_worker_not_call Hpre).
      destruct (run_order_calls Freed s tr Hs) as (Hle & _).
      change (EvFree :: tr) with ([EvFree] ++ tr).
      rewrite count_events_app. cbn. lia.
    + rewrite (Hidle eq_refl). lia.
  - intros Hstop.
    destruct (stopped_call rt pf info w Hq Hstop) as ((-> & _) & _).
    exact Hq.
  - intros Hok Hp. split.
    + intros Hnone.
      destruct (refused_call rt pf info w Hok Hp) as (e & He & _).
      * intros f a i h ->.
        destruct (reaches_queue pf f a i h) eqn:Hreach; [| reflexivity].
        destruct (accepted_call rt pf f a i h w Hok Hp Hreach) as (Hret & _).
        rewrite Hret in Hnone. discriminate.
      * rewrite He. discriminate.
    + intros Hne.
      destruct (queued_request rt pf info w Hq Hne)
        as (f & a & i & h & -> & Hreach & _).
      destruct (accepted_call rt pf f a i h w Hok Hp Hreach)
        as (_ & pre & d' & Hpre & Htr).
      unfold handler_calls in *. rewrite Htr, !count_events_app, Hcall.
      rewrite (count_events_none is_worker_event is_call pre
                 is_worker_not_call Hpre).
      destruct (handler_throws rt); cbn; lia.
Qed.

(** C4, amended, at a concrete call that queues a request. *)
Lemma C4_witness :
  queued fresh_world = None
  /\ napi_all_ok node /\ pending fresh_world = None
  /\ queued (returned (js_open node linux_ok
                         [JsNumber 2; JsNull; JsNull; JsFunction 0]
                         fresh_world)) <> None
  /\ handler_calls (returned (js_open node linux_ok
                      [JsNumber 2; JsNull; JsNull; JsFunction 0] fresh_world))
     = handler_calls fresh_world
  /\ handler_calls (settled (js_open node linux_ok
                      [JsNumber 2; JsNull; JsNull; JsFunction 0] fresh_world))
     = S (handler_calls fresh_world).
Proof.
  assert (Hq : queued (returned (js_open node linux_ok
                                   [JsNumber 2; JsNull; JsNull; JsFunction 0]
                                   fresh_world)) <> None)
    by (vm_compute; discriminate).
  destruct (C4_handler_invoked_only_after_queueing node linux_ok
              [JsNumber 2; JsNull; JsNull; JsFunction 0] fresh_world eq_refl)
    as (H1 & _ & _ & _ & H4).
  split; [reflexivity |]. split; [exact napi_all_ok_node |].
  split; [reflexivity |]. split; [exact Hq |]. split; [exact H1 |].
  exact (proj2 (H4 napi_all_ok_node eq_refl) Hq).
Defined.

(* ------------------------------------------------------------------ *)
(** *** C5: when the request and the handler reference are released *)

(** C5 as stated fails. On a call that succeeds, the request record is
    freed before the completion handler is invoked, not after it: the
    completion step copies the record and frees it first. And when the
    handler throws, the completion step returns at once and the handler
    reference is never released. *)
Lemma C5_counterexample :
  trace (settled (js_open node linux_ok
                    [JsNumber 2; JsNull; JsNull; JsFunction 0] fresh_world))
  = [EvCreateReference; EvMalloc; EvCreateAsyncWork; EvQueueAsyncWork;
     EvExecute; EvSocket 2 2 1 3;
     EvFree; EvCallFunction (Some JsNull) (Some (JsNumber 3));
     EvDeleteReference; EvDeleteAsyncWork]
  /\ releases_follow_call false
       (trace (settled (js_open node linux_ok
                          [JsNumber 2; JsNull; JsNull; JsFunction 0]
                          fresh_world)))
     = false
  /\ trace (settled (js_open node_handler_throws linux_ok
                       [JsNumber 2; JsNull; JsNull; JsFunction 0] fresh_world))
     = [EvCreateReference; EvMalloc; EvCreateAsyncWork; EvQueueAsyncWork;
        EvExecute; EvSocket 2 2 1 3;
        EvFree; EvCallFunction (Some JsNull) (Some (JsNumber 3))].
Proof. vm_compute. repeat split. Qed.

(** C5, amended: for every call that queues a request.
    Whatever the runtime answers, the call itself releases nothing, and
    the events after it are those of the worker thread, which release
    nothing, then the request record freed, then a completion step in
    order: the handler invoked at most once, the handler reference
    deleted only after the handler was invoked, the record never freed
    again.
    When the N-API calls succeed and the handler returns normally, the
    events after the worker's are exactly: the request record freed, the
    handler invoked, the handler reference deleted, the async work
    deleted. So each of the two is released exactly once, the record
    first and before the handler runs, the reference second and after
    the handler has run. *)
Theorem C5_release_order rt pf info w :
  queued w = None ->
  queued (returned (js_open rt pf info w)) <> None ->
  count_events is_release (trace (returned (js_open rt pf info w)))
  = count_events is_release (trace w)
  /\ (exists pre tr s,
        trace (settled (js_open rt pf info w)) =
        trace (returned (js_open rt pf info w)) ++ pre ++ EvFree :: tr
        /\ forallb is_worker_event pre = true
        /\ count_events is_release pre = 0%nat
        /\ run_order Freed tr = Some s)
  /\ (napi_all_ok rt -> handler_throws rt = None -> pending w = None ->
      exists pre arg0 arg1,
        trace (settled (js_open rt pf info w)) =
        trace (returned (js_open rt pf info w)) ++ pre ++ completion arg0 arg1
        /\ forallb is_worker_event pre = true
        /\ count_events is_release pre = 0%nat).
Proof.
  intros Hq Hqueued.
  destruct (queued_request rt pf info w Hq Hqueued)
    as (family & address & interface & handler & -> & Hreach & Hreq).
  split; [| split].
  - apply (count_events_opens is_release); [exact is_open_not_release |].
    apply _open_frame.
  - destruct (queued_call_events rt pf family address interface handler w Hreq)
      as (pre & tr & s & Htr & Hpre & _ & Hs).
    exists pre, tr, s.
    split; [exact Htr | split; [exact Hpre | split; [| exact Hs]]].
    exact (count_events_none is_worker_event is_release pre
             is_worker_not_release Hpre).
  - intros Hok Hret Hp.
    destruct (accepted_call rt pf family address interface handler w
                Hok Hp Hreach) as (_ & pre & d' & Hpre & Htr).
    rewrite Hret in Htr.
    exists pre, (fst (completion_slots pf (work_status rt) d')),
      (snd (completion_slots pf (work_status rt) d')).
    split; [exact Htr | split; [exact Hpre |]].
    exact (count_events_none is_worker_event is_release pre
             is_worker_not_release Hpre).
Qed.

(** C5, amended, at a concrete call. *)
Lemma C5_witness :
  queued fresh_world = None
  /\ queued (returned (js_open node linux_ok
                         [JsNumber 2; JsNull; JsNull; JsFunction 0]
                         fresh_world)) <> None
  /\ napi_all_ok node /\ handler_throws node = None
  /\ pending fresh_world = None
  /\ count_events is_release
       (trace (returned (js_open node linux_ok
                           [JsNumber 2; JsNull; JsNull; JsFunction 0]
                           fresh_world)))
     = count_events is_release (trace fresh_world)
  /\ exists pre arg0 arg1,
       trace (settled (js_open node linux_ok
                         [JsNumber 2; JsNull; JsNull; JsFunction 0]
                         fresh_world)) =
       trace (returned (js_open node linux_ok
                          [JsNumber 2; JsNull; JsNull; JsFunction 0]
                          fresh_world))
         ++ pre ++ completion arg0 arg1
       /\ forallb is_worker_event pre = true
       /\ count_events is_release pre = 0%nat.
Proof.
  assert (Hq : queued (returned (js_open node linux_ok
                                   [JsNumber 2; JsNull; JsNull; JsFunction 0]
                                   fresh_world)) <> None)
    by (vm_compute; discriminate).
  destruct (C5_release_order node linux_ok
              [JsNumber 2; JsNull; JsNull; JsFunction 0] fresh_world
              eq_refl Hq) as (H1 & _ & H3).
  split; [reflexivity |]. split; [exact Hq |].
  split; [exact napi_all_ok_node |]. split; [reflexivity |].
  split; [reflexivity |]. split; [exact H1 |].
  exact (H3 napi_all_ok_node eq_refl eq_refl).
Defined.

(* ------------------------------------------------------------------ *)
(** *** C6: an address that is present but empty *)

Lemma open_from_address_absent rt pf fam d w :
  open_from_address rt pf fam d JsUndefined w
  = open_from_address rt pf fam d JsNull w.
Proof.
  unfold open_from_address, NAPI_CALL_VALUE, NAPI_CALL, bind, napi_typeof.
  cbn [typeof].
  destruct (napi_result rt "napi_typeof" 399 =? napi_ok); reflexivity.
Qed.

Lemma bind_unfold {R A B : Type} (m : M R A) (k : A -> M R B) w :
  bind m k w =
  match m w with
  | (w', inl a) => k a w'
  | (w', inr r) => (w', inr r)
  end.
Proof. reflexivity. Qed.

(** Whatever the runtime answers, [undefined] for the address does what
    [null] does. *)
Lemma _open_absent_address rt pf family interface handler w :
  _open rt pf [family; JsUndefined; interface; handler] w
  = _open rt pf [family; JsNull; interface; handler] w.
Proof.
  unfold _open, body.
  match goal with
  | |- (let (_, _) := ?a in _) = (let (_, _) := ?b in _) =>
      assert (E : a = b); [| rewrite E; reflexivity]
  end.
  rewrite !(bind_unfold _ _ w).
  unfold NAPI_CALL_VALUE, NAPI_CALL, napi_get_cb_info.
  cbn [List.length firstn app repeat].
  destruct (napi_result rt "napi_get_cb_info" 360 =? napi_ok); [| reflexivity].
  cbn [nth]. change (4 =? 4)%nat with true. cbn [negb].
  rewrite !(bind_unfold _ _ w). unfold ret at 1 3.
  rewrite !(bind_unfold _ _ w).
  destruct (open_socket_family rt pf (zero_open_data pf) family w)
    as [w1 [[fam d] | r]]; [| reflexivity].
  rewrite !(bind_unfold _ _ w1), open_from_address_absent. reflexivity.
Qed.

(** The request made of an absent address has no address to bind to. *)
Lemma absent_address_size pf family address interface handler :
  address = JsNull \/ address = JsUndefined ->
  __sockaddr_size (request_of pf family address interface handler) = 0%nat.
Proof.
  intros [-> | ->]; unfold request_of, with_interface;
    destruct interface; reflexivity.
Qed.

(** C6 as stated fails for the empty string, the value that is present
    and empty: [_open] takes it for an address, [inet_pton] refuses it and
    the call fails with a type error; nothing is queued. *)
Lemma C6_counterexample :
  exception (js_open node linux_ok
               [JsNumber 2; JsString EmptyString; JsNull; JsFunction 0]
               fresh_world)
  = Some (type_error "Invalid IPv4 from address: ")
  /\ queued (returned (js_open node linux_ok
               [JsNumber 2; JsString EmptyString; JsNull; JsFunction 0]
               fresh_world))
     = None
  /\ trace (settled (js_open node linux_ok
               [JsNumber 2; JsString EmptyString; JsNull; JsFunction 0]
               fresh_world))
     = [EvThrow (type_error "Invalid IPv4 from address: ")].
Proof. vm_compute. repeat split. Qed.

(** C6, amended: for every call whose address argument is [null] or
    [undefined].
    Whatever the runtime answers, [undefined] gives the result [null]
    gives, and no [bind] is made, by the call or after it.
    When the N-API calls succeed and the other arguments are valid, the
    call throws nothing and queues a request whose socket address size
    is zero. *)
Theorem C6_null_or_undefined_address_means_no_bind
    rt pf family address interface handler w :
  queued w = None ->
  address = JsNull \/ address = JsUndefined ->
  js_open rt pf [family; address; interface; handler] w
  = js_open rt pf [family; JsNull; interface; handler] w
  /\ count_events is_bind
       (trace (settled (js_open rt pf [family; address; interface; handler] w)))
     = count_events is_bind (trace w)
  /\ (napi_all_ok rt -> pending w = None ->
      family_ok pf family = true -> interface_ok pf interface = true ->
      handler_ok handler = true ->
      exception (js_open rt pf [family; address; interface; handler] w) = None
      /\ exists d,
           queued (returned
                     (js_open rt pf [family; address; interface; handler] w))
           = Some d
           /\ __sockaddr_size d = 0%nat).
Proof.
  intros Hq Haddr.
  pose proof (absent_address_size pf family address interface handler Haddr)
    as Hsize.
  assert (Hcall : count_events is_bind
                    (trace (returned (js_open rt pf
                                        [family; address; interface; handler]
                                        w)))
                  = count_events is_bind (trace w)).
  { apply (count_events_opens is_bind); [exact is_open_not_bind |].
    apply _open_frame. }
  split; [| split].
  - destruct Haddr as [-> | ->]; [reflexivity |].
    unfold js_open. rewrite _open_absent_address. reflexivity.
  - destruct (queued (returned (js_open rt pf
                                  [family; address; interface; handler] w)))
      as [d |] eqn:Hd.
    + assert (Hne : queued (returned (js_open rt pf
                                        [family; address; interface; handler]
                                        w)) <> None)
        by (rewrite Hd; discriminate).
      destruct (queued_request rt pf _ w Hq Hne)
        as (f & a & i & h & E & _ & Hreq).
      injection E as <- <- <- <-.
      destruct (queued_call_events rt pf family address interface handler w
                  Hreq) as (pre & tr & s & Htr & _ & Hbind & Hs).
      rewrite Htr, !count_events_app, Hcall, (Hbind Hsize).
      change (EvFree :: tr) with ([EvFree] ++ tr).
      rewrite count_events_app, (run_order_no_bind Freed s tr Hs).
      cbn. lia.
    + rewrite (nothing_queued rt pf _ w Hd). exact Hcall.
  - intros Hok Hp Hfam Hintf Hcb.
    assert (Hreach : reaches_queue pf family address interface handler = true).
    { unfold reaches_queue. rewrite Hfam, Hintf, Hcb.
      destruct Haddr as [-> | ->]; reflexivity. }
    assert (Hshort : after_length_check address w = w)
      by (destruct Haddr as [-> | ->]; reflexivity).
    destruct (accepted_call rt pf family address interface handler w
                Hok Hp Hreach) as (Hret & _).
    rewrite Hshort in Hret. split.
    + unfold js_open in *. cbn [exception returned] in *. rewrite Hret.
      cbn. assumption.
    + eexists. rewrite Hret. split; [reflexivity | exact Hsize].
Qed.

(** C6, amended, at a concrete call with [undefined] for the address. *)
Lemma C6_witness :
  queued fresh_world = None
  /\ (JsUndefined = JsNull \/ JsUndefined = JsUndefined)
  /\ napi_all_ok node /\ pending fresh_world = None
  /\ family_ok linux_ok (JsNumber 2) = true
  /\ interface_ok linux_ok JsNull = true
  /\ handler_ok (JsFunction 0) = true
  /\ js_open node linux_ok
       [JsNumber 2; JsUndefined; JsNull; JsFunction 0] fresh_world
     = js_open node linux_ok
         [JsNumber 2; JsNull; JsNull; JsFunction 0] fresh_world
  /\ count_events is_bind
       (trace (settled (js_open node linux_ok
                  [JsNumber 2; JsUndefined; JsNull; JsFunction 0] fresh_world)))
     = count_events is_bind (trace fresh_world)
  /\ exception (js_open node linux_ok
                  [JsNumber 2; JsUndefined; JsNull; JsFunction 0] fresh_world)
     = None
  /\ exists d,
       queued (returned (js_open node linux_ok
                 [JsNumber 2; JsUndefined; JsNull; JsFunction 0] fresh_world))
       = Some d /\ __sockaddr_size d = 0%nat.
Proof.
  destruct (C6_null_or_undefined_address_means_no_bind node linux_ok
              (JsNumber 2) JsUndefined JsNull (JsFunction 0) fresh_world
              eq_refl (or_intror eq_refl)) as (H1 & H2 & H3).
  split; [reflexivity |]. split; [right; reflexivity |].
  split; [exact napi_all_ok_node |]. split; [reflexivity |].
  split; [reflexivity |]. split; [reflexivity |]. split; [reflexivity |].
  split; [exact H1 |]. split; [exact H2 |].
  exact (H3 napi_all_ok_node eq_refl eq_refl eq_refl eq_refl).
Defined.

(* ------------------------------------------------------------------ *)
(** *** C7: the limit on the interface name *)

(** A name over the limit, after arguments that pass their checks, is
    refused with the message of line 455. *)
Lemma interface_too_long_message rt pf family address s handler w :
  napi_all_ok rt -> pending w = None ->
  family_ok pf family = true -> address_ok pf family address = true ->
  address_too_long address = false ->
  (IFNAMSIZ pf < String.length s)%nat ->
  _open rt pf [family; address; JsString s; handler] w =
  (thrown (type_error (__ERR_SOURCE_INTERFACE_NAME_TOO_LONG pf)) w, None).
Proof.
  intros Hok Hp Hfam Haddr Hshort Hlen.
  rewrite _open_ok by assumption. unfold body, bind.
  rewrite family_accepted by assumption.
  rewrite address_accepted by assumption. rewrite Hshort.
  assert (Hintf : interface_ok pf (JsString s) = false)
    by (apply Nat.leb_gt; exact Hlen).
  match goal with |- context [open_source_interface rt pf ?d _ w] =>
    destruct (interface_refused rt pf Hok d (JsString s) w Hintf)
      as (msg & -> & Hmsg) end.
  rewrite (Hmsg s eq_refl), _throw_type_error_ok, Hp by assumption.
  reflexivity.
Qed.

(** C7: for every interface name.
    A name longer than [IFNAMSIZ]: whatever the runtime answers, the call
    only throws, so that no system call is made and nothing is queued,
    and the event loop then has nothing to run; when the N-API calls
    succeed the call fails with the one exception it throws, which, after
    a family and an address that pass their checks, is the type error
    "Source interface must be at most IFNAMSIZ characters long".
    A name of exactly [IFNAMSIZ] characters passes the check: when the
    N-API calls succeed and the other arguments are valid the request is
    queued, with the name and its terminator in the interface buffer. *)
Theorem C7_interface_name_limit rt pf family address s handler w :
  queued w = None ->
  ((IFNAMSIZ pf < String.length s)%nat ->
   throws_only w
     (returned (js_open rt pf [family; address; JsString s; handler] w))
   /\ settled (js_open rt pf [family; address; JsString s; handler] w)
      = set_pending None
          (returned (js_open rt pf [family; address; JsString s; handler] w))
   /\ (napi_all_ok rt -> pending w = None ->
       exists e,
         exception (js_open rt pf [family; address; JsString s; handler] w)
         = Some e
         /\ trace (returned
                     (js_open rt pf [family; address; JsString s; handler] w))
            = trace w ++ [EvThrow e]
         /\ (family_ok pf family = true ->
             address_ok pf family address = true ->
             address_too_long address = false ->
             e = type_error (__ERR_SOURCE_INTERFACE_NAME_TOO_LONG pf))))
  /\ (String.length s = IFNAMSIZ pf ->
      interface_ok pf (JsString s) = true
      /\ (napi_all_ok rt -> pending w = None ->
          family_ok pf family = true -> address_ok pf family address = true ->
          handler_ok handler = true ->
          exists d,
            queued (returned
                      (js_open rt pf [family; address; JsString s; handler] w))
            = Some d
            /\ __interface_length d = IFNAMSIZ pf
            /\ __interface d = list_byte_of_string s ++ [x00])).
Proof.
  intros Hq. split.
  - intros Hlen.
    assert (Hreach : reaches_queue pf family address (JsString s) handler
                     = false).
    { unfold reaches_queue. cbn [interface_ok].
      apply Nat.leb_gt in Hlen. rewrite Hlen.
      now rewrite andb_false_r. }
    destruct (not_queued_call rt pf family address (JsString s) handler w
                Hq Hreach) as (H1 & H2).
    split; [exact H1 | split; [exact H2 |]].
    intros Hok Hp.
    destruct (refused_call rt pf [family; address; JsString s; handler] w
                Hok Hp) as (e & He & Ht).
    { intros f a i h E. injection E as <- <- <- <-. exact Hreach. }
    exists e. split; [exact He | split; [exact Ht |]].
    intros Hfam Haddr Hshort.
    unfold js_open in He. cbn [exception] in He.
    rewrite (interface_too_long_message rt pf family address s handler w)
      in He by assumption.
    cbn in He. congruence.
  - intros Hlen. split.
    { cbn [interface_ok]. rewrite Hlen. apply Nat.leb_refl. }
    intros Hok Hp Hfam Haddr Hcb.
    assert (Hreach : reaches_queue pf family address (JsString s) handler
                     = true).
    { unfold reaches_queue. rewrite Hfam, Haddr, Hcb. cbn [interface_ok].
      rewrite Hlen, Nat.leb_refl. reflexivity. }
    destruct (accepted_call rt pf family address (JsString s) handler w
                Hok Hp Hreach) as (Hret & _).
    eexists. rewrite Hret. split; [reflexivity | split].
    + cbn. exact Hlen.
    + unfold request_of, with_interface.
      cbn [__interface set_async_work set_callback_ref set_interface
             set_interface_length].
      rewrite interface_with_address, interface_with_family.
      unfold zero_open_data, C.bzero. cbn [__interface].
      rewrite skipn_all2 by (rewrite repeat_length; lia).
      reflexivity.
Qed.

(** C7 at concrete calls on Linux, where [IFNAMSIZ] is 16: a name of 17
    characters is refused, a name of 16 is queued. *)
Lemma C7_witness :
  queued fresh_world = None
  /\ (IFNAMSIZ linux_ok < String.length "12345678901234567")%nat
  /\ String.length "1234567890123456" = IFNAMSIZ linux_ok
  /\ napi_all_ok node /\ pending fresh_world = None
  /\ family_ok linux_ok (JsNumber 2) = true
  /\ address_ok linux_ok (JsNumber 2) JsNull = true
  /\ address_too_long JsNull = false
  /\ handler_ok (JsFunction 0) = true
  /\ throws_only fresh_world
       (returned (js_open node linux_ok
                    [JsNumber 2; JsNull; JsString "12345678901234567";
                     JsFunction 0] fresh_world))
  /\ settled (js_open node linux_ok
                [JsNumber 2; JsNull; JsString "12345678901234567";
                 JsFunction 0] fresh_world)
     = set_pending None
         (returned (js_open node linux_ok
                      [JsNumber 2; JsNull; JsString "12345678901234567";
                       JsFunction 0] fresh_world))
  /\ (exists e,
        exception (js_open node linux_ok
                     [JsNumber 2; JsNull; JsString "12345678901234567";
                      JsFunction 0] fresh_world) = Some e
        /\ trace (returned
                    (js_open node linux_ok
                       [JsNumber 2; JsNull; JsString "12345678901234567";
                        JsFunction 0] fresh_world))
           = trace fresh_world ++ [EvThrow e]
        /\ e = type_error (__ERR_SOURCE_INTERFACE_NAME_TOO_LONG linux_ok))
  /\ interface_ok linux_ok (JsString "1234567890123456") = true
  /\ exists d,
       queued (returned (js_open node linux_ok
                    [JsNumber 2; JsNull; JsString "1234567890123456";
                     JsFunction 0] fresh_world))
       = Some d
       /\ __interface_length d = IFNAMSIZ linux_ok
       /\ __interface d = list_byte_of_string "1234567890123456" ++ [x00].
Proof.
  assert (Hlong : (IFNAMSIZ linux_ok < String.length "12345678901234567")%nat)
    by (vm_compute; lia).
  destruct (C7_interface_name_limit node linux_ok
              (JsNumber 2) JsNull "12345678901234567" (JsFunction 0)
              fresh_world eq_refl) as (Hover & _).
  destruct (Hover Hlong) as (H1 & H2 & H3).
  destruct (H3 napi_all_ok_node eq_refl) as (e & He & Ht & Hmsg).
  destruct (C7_interface_name_limit node linux_ok
              (JsNumber 2) JsNull "1234567890123456" (JsFunction 0)
              fresh_world eq_refl) as (_ & Hexact).
  destruct (Hexact eq_refl) as (H4 & H5).
  split; [reflexivity |]. split; [exact Hlong |]. split; [reflexivity |].
  split; [exact napi_all_ok_node |]. split; [reflexivity |].
  split; [reflexivity |]. split; [reflexivity |]. split; [reflexivity |].
  split; [reflexivity |]. split; [exact H1 |]. split; [exact H2 |].
  split.
  { exists e. split; [exact He |]. split; [exact Ht |].
    exact (Hmsg eq_refl eq_refl eq_refl). }
  split; [exact H4 |].
  exact (H5 napi_all_ok_node eq_refl eq_refl eq_refl eq_refl).
Defined.

(* ------------------------------------------------------------------ *)
(** *** C8: addresses longer than 40 characters *)

(** An address over 40 characters that [inet_pton] accepts throws the
    type error of line 416 and is queued all the same: after the throw
    [_open] does not return. *)
Lemma long_address_is_queued rt pf family s interface handler w :
  napi_all_ok rt -> pending w = None ->
  (40 < String.length s)%nat ->
  reaches_queue pf family (JsString s) interface handler = true ->
  _open rt pf [family; JsString s; interface; handler] w =
  (enqueued (request_of pf family (JsString s) interface handler)
     (thrown (type_error too_long_message) w), None).
Proof.
  intros Hok Hp Hlen Hreach. rewrite _open_accepts by assumption.
  unfold after_length_check. cbn [address_too_long].
  apply Nat.ltb_lt in Hlen. rewrite Hlen. reflexivity.
Qed.

(** C8, on the code: an IPv6 address of 41 characters. The call throws
    "From address must be at most 40 characters long", and yet the
    request is allocated and queued, the worker thread opens and binds a
    socket and the completion handler is called with the descriptor. The
    claim asks that nothing be queued and no system call be made. *)
Theorem C8_long_address_reaches_the_worker :
  String.length long_address = 41%nat
  /\ exception (js_open node linux_ok
                  [JsNumber 10; JsString long_address; JsNull; JsFunction 0]
                  fresh_world)
     = Some (type_error "From address must be at most 40 characters long")
  /\ queued (returned (js_open node linux_ok
                  [JsNumber 10; JsString long_address; JsNull; JsFunction 0]
                  fresh_world))
     = Some (request_of linux_ok (JsNumber 10) (JsString long_address)
               JsNull (JsFunction 0))
  /\ trace (settled (js_open node linux_ok
                  [JsNumber 10; JsString long_address; JsNull; JsFunction 0]
                  fresh_world))
     = [EvThrow (type_error "From address must be at most 40 characters long");
        EvCreateReference; EvMalloc; EvCreateAsyncWork; EvQueueAsyncWork;
        EvExecute; EvSocket 10 2 58 3; EvBind 3 28 0;
        EvFree; EvCallFunction (Some JsNull) (Some (JsNumber 3));
        EvDeleteReference; EvDeleteAsyncWork].
Proof. vm_compute. repeat split. Qed.

(* ------------------------------------------------------------------ *)
(** *** C9: the translation of a failure into an error value *)

(** C9 as stated fails for an error code libuv does not know: 9999 is
    not in its table, libuv answers "Unknown system error -9999" for both
    the message and the name, and the error carries them; the claim has
    the message "Unknown Error" and no code name. *)
Lemma C9_counterexample :
  Uv.recognized (Uv.uv_translate_sys_error 9999) = false
  /\ _system_error node linux_ok (Some "bind"%string) 9999 fresh_world
     = (fresh_world,
        Some (JsError false (Some "Unknown system error -9999"%string)
                "Unknown system error -9999"
                [("errno"%string, JsNumber 9999);
                 ("syscall"%string, JsString "bind")])).
Proof. vm_compute. repeat split. Qed.

(** C9, amended: for every system call name and error code.
    Whatever the runtime answers, [_system_error] only throws, and what
    it returns is either nothing or the error value described below.
    When the N-API calls succeed and no exception is pending, it returns
    that error value and changes nothing.
    The error value carries the error code, as an unsigned 32-bit number,
    in its [errno] property and the name of the system call, when there
    is one, in [syscall]. For the code zero its message is
    "Unknown Error" and it has no code name. For every other code, known
    to libuv or not, its message is libuv's [uv_strerror] and its code
    name libuv's [uv_err_name] of the translated code. *)
Theorem C9_system_error_translation rt pf _syscall _errno w :
  throws_only w (fst (_system_error rt pf _syscall _errno w))
  /\ (snd (_system_error rt pf _syscall _errno w) = None
      \/ snd (_system_error rt pf _syscall _errno w)
         = Some (system_error_value pf _syscall _errno))
  /\ (napi_all_ok rt -> pending w = None ->
      _system_error rt pf _syscall _errno w
      = (w, Some (system_error_value pf _syscall _errno)))
  /\ exists code message,
       system_error_value pf _syscall _errno =
       JsError false code message
         (("errno"%string, JsNumber (C.to_uint32 _errno))
            :: match _syscall with
               | Some name => [("syscall"%string, JsString name)]
               | None => []
               end)
       /\ (_errno = 0 -> code = None /\ message = "Unknown Error"%string)
       /\ (_errno <> 0 ->
           code = Some (uv_err_name pf (uv_translate_sys_error pf _errno))
           /\ message = uv_strerror pf (uv_translate_sys_error pf _errno))
       /\ (0 <= _errno < 2 ^ 32 -> C.to_uint32 _errno = _errno).
Proof.
  destruct (_system_error_result rt pf _syscall _errno w) as (H1 & H2).
  split; [exact H1 | split; [exact H2 | split]].
  - intros Hok Hp. now apply _system_error_ok.
  - unfold system_error_value. do 2 eexists. split; [reflexivity |].
    split; [| split].
    + intros ->. split; reflexivity.
    + intros H. apply Z.eqb_neq in H. rewrite H. split; reflexivity.
    + intros H. unfold C.to_uint32. now apply Z.mod_small.
Qed.

(** C9, amended, at the failure of [socket] for want of privilege, which
    is EPERM on Linux. *)
Lemma C9_witness :
  napi_all_ok node /\ pending fresh_world = None
  /\ _system_error node linux_ok (Some "socket"%string) 1 fresh_world
     = (fresh_world,
        Some (system_error_value linux_ok (Some "socket"%string) 1))
  /\ system_error_value linux_ok (Some "socket"%string) 1
     = JsError false (Some "EPERM"%string) "operation not permitted"
         [("errno"%string, JsNumber 1); ("syscall"%string, JsString "socket")].
Proof.
  destruct (C9_system_error_translation node linux_ok
              (Some "socket"%string) 1 fresh_world) as (_ & _ & H3 & _).
  split; [exact napi_all_ok_node |]. split; [reflexivity |].
  split; [exact (H3 napi_all_ok_node eq_refl) |].
  vm_compute. reflexivity.
Defined.

(* ------------------------------------------------------------------ *)
(** *** C10: the copy of the interface name *)

(** C10: for every interface name of at most [IFNAMSIZ] characters and
    every request whose interface buffer has its [IFNAMSIZ + 1] bytes.
    The [memcpy] of line 460 copies [length + 1] bytes, which is within
    both buffers. The buffer then holds the name, its terminator, and
    past them what it held before; it still has [IFNAMSIZ + 1] bytes; and
    the byte after the name is the terminator.
    Whatever the runtime answers, the check of the interface only throws,
    so that nothing is written out of bounds, and when it goes on it does
    so with that buffer in the request and nothing else changed.
    When the N-API calls succeed it does go on. *)
Theorem C10_interface_copy_in_bounds rt pf d s w :
  (String.length s <= IFNAMSIZ pf)%nat ->
  List.length (__interface d) = (IFNAMSIZ pf + 1)%nat ->
  C.memcpy (__interface d)
    (fst (copy_latin1 s (C.bzero (IFNAMSIZ pf + 2)) (IFNAMSIZ pf + 2)))
    (snd (copy_latin1 s (C.bzero (IFNAMSIZ pf + 2)) (IFNAMSIZ pf + 2)) + 1)
  = Some (__interface (with_interface (JsString s) d))
  /\ (snd (copy_latin1 s (C.bzero (IFNAMSIZ pf + 2)) (IFNAMSIZ pf + 2)) + 1
      = String.length s + 1)%nat
  /\ (String.length s + 1 <= List.length (__interface d))%nat
  /\ __interface_length (with_interface (JsString s) d) = String.length s
  /\ __interface (with_interface (JsString s) d) =
     list_byte_of_string s
       ++ x00 :: skipn (String.length s + 1) (__interface d)
  /\ List.length (__interface (with_interface (JsString s) d))
     = (IFNAMSIZ pf + 1)%nat
  /\ nth (String.length s) (__interface (with_interface (JsString s) d)) x01
     = x00
  /\ throws_only w (fst (open_source_interface rt pf d (JsString s) w))
  /\ count_events is_fault
       (trace (fst (open_source_interface rt pf d (JsString s) w)))
     = count_events is_fault (trace w)
  /\ (forall d',
        snd (open_source_interface rt pf d (JsString s) w) = inl d' ->
        d' = with_interface (JsString s) d
        /\ fst (open_source_interface rt pf d (JsString s) w) = w)
  /\ (napi_all_ok rt ->
      open_source_interface rt pf d (JsString s) w
      = (w, inl (with_interface (JsString s) d))).
Proof.
  intros Hlen Hbuf.
  assert (Hintf : interface_ok pf (JsString s) = true)
    by (apply Nat.leb_le; exact Hlen).
  pose proof (open_source_interface_frame rt pf d (JsString s) w Hbuf)
    as Hframe.
  unfold wp in Hframe. destruct Hframe as (Hthrows & Hgoes).
  rewrite (copy_latin1_fits s (IFNAMSIZ pf) Hlen). cbn [fst snd].
  rewrite (memcpy_interface s (IFNAMSIZ pf) (__interface d) Hlen Hbuf).
  cbn [with_interface __interface __interface_length set_interface
         set_interface_length].
  replace (String.length s + 1)%nat with (S (String.length s)) by lia.
  split; [reflexivity |]. split; [reflexivity |]. split; [lia |].
  split; [reflexivity |]. split; [reflexivity |].
  split; [| split; [| split; [exact Hthrows | split; [| split]]]].
  - rewrite length_app, length_list_byte_of_string. cbn [List.length].
    rewrite length_skipn. lia.
  - rewrite <- (length_list_byte_of_string s) at 1. apply nth_middle.
  - destruct Hthrows as (_ & _ & tr & -> & Htr).
    rewrite count_events_app.
    rewrite (count_events_none is_throw is_fault tr); [lia | | exact Htr].
    intros e He. destruct e; cbn in *; congruence.
  - intros d' Hd'. rewrite Hd' in Hgoes.
    destruct Hgoes as (_ & -> & ->). split; reflexivity.
  - intros Hok.
    exact (interface_accepted rt pf Hok d (JsString s) w Hintf Hbuf).
Qed.

(** C10 at the request [_open] starts from and a name of 4 characters. *)
Lemma C10_witness :
  (String.length "eth0" <= IFNAMSIZ linux_ok)%nat
  /\ List.length (__interface (zero_open_data linux_ok))
     = (IFNAMSIZ linux_ok + 1)%nat
  /\ napi_all_ok node
  /\ C.memcpy (__interface (zero_open_data linux_ok))
       (fst (copy_latin1 "eth0" (C.bzero (IFNAMSIZ linux_ok + 2))
               (IFNAMSIZ linux_ok + 2)))
       (snd (copy_latin1 "eth0" (C.bzero (IFNAMSIZ linux_ok + 2))
               (IFNAMSIZ linux_ok + 2)) + 1)
     = Some (__interface
               (with_interface (JsString "eth0") (zero_open_data linux_ok)))
  /\ (String.length "eth0" + 1
      <= List.length (__interface (zero_open_data linux_ok)))%nat
  /\ nth (String.length "eth0")
       (__interface
          (with_interface (JsString "eth0") (zero_open_data linux_ok))) x01
     = x00
  /\ open_source_interface node linux_ok (zero_open_data linux_ok)
       (JsString "eth0") fresh_world
     = (fresh_world,
        inl (with_interface (JsString "eth0") (zero_open_data linux_ok))).
Proof.
  assert (Hlen : (String.length "eth0" <= IFNAMSIZ linux_ok)%nat)
    by (vm_compute; lia).
  destruct (C10_interface_copy_in_bounds node linux_ok
              (zero_open_data linux_ok) "eth0" fresh_world Hlen eq_refl)
    as (H1 & _ & H3 & _ & _ & _ & H7 & _ & _ & _ & H11).
  split; [exact Hlen |]. split; [reflexivity |].
  split; [exact napi_all_ok_node |]. split; [exact H1 |].
  split; [exact H3 |]. split; [exact H7 |].
  exact (H11 napi_all_ok_node).
Defined.

(* ------------------------------------------------------------------ *)
(** ** Exceptions: the first one wins, and no failure is silent *)

Lemma throws_of_log e w :
  throws_of (log e w) = throws_of w ++ (if is_throw e then [e] else []).
Proof.
  unfold throws_of, log. cbn [trace]. rewrite filter_app. cbn [filter].
  destruct (is_throw e); reflexivity.
Qed.

Lemma first_wins_refl w : first_wins w w.
Proof. unfold first_wins. destruct (pending w); auto. Qed.

Lemma first_wins_trans w1 w2 w3 :
  first_wins w1 w2 -> first_wins w2 w3 -> first_wins w1 w3.
Proof.
  unfold first_wins. destruct (pending w1) as [e1 |].
  - intros (-> & ->). auto.
  - intros [(-> & ->) | (e & -> & ->)]; [auto |].
    intros (-> & ->). right. eauto.
Qed.

(** Steps that throw nothing and leave the pending exception alone. *)
Lemma first_wins_same w w' :
  pending w' = pending w -> throws_of w' = throws_of w -> first_wins w w'.
Proof.
  intros Hp Ht. unfold first_wins. rewrite Hp, Ht.
  destruct (pending w); auto.
Qed.

Lemma first_wins_log e w1 w2 :
  is_throw e = false -> first_wins w1 w2 -> first_wins w1 (log e w2).
Proof.
  intros He H. apply (first_wins_trans _ _ _ H).
  apply first_wins_same; [reflexivity |].
  rewrite throws_of_log, He. apply app_nil_r.
Qed.

Lemma first_wins_errno e w1 w2 :
  first_wins w1 w2 -> first_wins w1 (set_world_errno e w2).
Proof.
  intros H. apply (first_wins_trans _ _ _ H).
  apply first_wins_same; reflexivity.
Qed.

Lemma first_wins_queued q w1 w2 :
  first_wins w1 w2 -> first_wins w1 (set_queued q w2).
Proof.
  intros H. apply (first_wins_trans _ _ _ H).
  apply first_wins_same; reflexivity.
Qed.

(** A pending exception is never replaced. *)
Lemma first_wins_pending w w' e :
  first_wins w w' -> pending w = Some e -> pending w' = Some e.
Proof. unfold first_wins. intros H Hp. rewrite Hp in H. apply H. Qed.

Lemma first_wins_reported w w' :
  first_wins w w' -> pending w <> None -> pending w' <> None.
Proof.
  unfold first_wins. destruct (pending w) as [e |]; [| congruence].
  intros (-> & _) _. discriminate.
Qed.

Section Exceptions.

Variable rt : runtime.
Variable pf : platform.

Lemma napi_throw_first_wins e st w :
  first_wins w (fst (napi_throw e st w)).
Proof.
  unfold napi_throw. destruct (pending w) eqn:Hp; [apply first_wins_refl |].
  destruct (st =? napi_ok); [| apply first_wins_refl].
  cbn [fst]. unfold first_wins. rewrite Hp. right. exists e.
  split; [reflexivity |]. rewrite throws_of_log. reflexivity.
Qed.

(** [napi_throw] with [napi_ok] for an answer leaves an exception
    pending. *)
Lemma napi_throw_reported e st w :
  st = napi_ok -> pending (fst (napi_throw e st w)) <> None.
Proof.
  intros ->. unfold napi_throw. destruct (pending w) eqn:Hp.
  - cbn [fst]. rewrite Hp. discriminate.
  - cbn. discriminate.
Qed.

Lemma _napi_call_error_first_wins st c l w :
  first_wins w (_napi_call_error rt st c l w).
Proof.
  unfold _napi_call_error, napi_is_exception_pending, napi_throw_error.
  destruct (st =? napi_ok); [apply first_wins_refl |].
  destruct (_ && _); [apply napi_throw_first_wins | apply first_wins_refl].
Qed.

Lemma _napi_call_error_reported st c l w :
  st <> napi_ok -> can_throw rt ->
  pending (_napi_call_error rt st c l w) <> None.
Proof.
  intros Hst (H52 & H56 & _).
  unfold _napi_call_error, napi_is_exception_pending, napi_throw_error.
  apply Z.eqb_neq in Hst. rewrite Hst, H52, H56. cbn [Z.eqb napi_ok andb].
  destruct (pending w) eqn:Hp; cbn [negb].
  - rewrite Hp. discriminate.
  - now apply napi_throw_reported.
Qed.

Lemma _throw_type_error_first_wins msg w :
  first_wins w (_throw_type_error rt msg w).
Proof.
  unfold _throw_type_error, napi_is_exception_pending, napi_throw_type_error.
  destruct (_ && _); [apply napi_throw_first_wins | apply first_wins_refl].
Qed.

Lemma _throw_type_error_reported msg w :
  can_throw rt -> pending (_throw_type_error rt msg w) <> None.
Proof.
  intros (_ & _ & H138 & H141 & _).
  unfold _throw_type_error, napi_is_exception_pending, napi_throw_type_error.
  rewrite H138, H141. cbn [Z.eqb napi_ok andb].
  destruct (pending w) eqn:Hp; cbn [negb].
  - rewrite Hp. discriminate.
  - now apply napi_throw_reported.
Qed.

(** The rule of [NAPI_CALL_VALUE] and [NAPI_CALL_VOID] for exceptions:
    a failed call returns after at most one throw, with an exception
    pending when the runtime lets the addon throw. *)
Lemma wp_NAPI_CALL_raise {R A : Type} (null : R) c l (f : napi_fn A)
    (Q : world -> A + R -> Prop) w :
  (forall w' st a, f (napi_result rt c l) w = (w', (st, a)) ->
     (st = napi_ok -> Q w' (inl a)) /\
     (st <> napi_ok ->
      forall w'', first_wins w' w'' ->
                  (can_throw rt -> pending w'' <> None) ->
                  Q w'' (inr null))) ->
  wp (NAPI_CALL rt null c l f) Q w.
Proof.
  intros H. unfold wp, NAPI_CALL.
  destruct (f (napi_result rt c l) w) as [w' [st a]] eqn:Hf.
  destruct (H w' st a eq_refl) as [Hok Hfail].
  destruct (Z.eqb_spec st napi_ok); cbn.
  - auto.
  - apply Hfail; [assumption | apply _napi_call_error_first_wins |].
    now apply _napi_call_error_reported.
Qed.

Lemma wp_reject_raise {A : Type} msg
    (Q : world -> A + option js_value -> Prop) w :
  (forall w', first_wins w w' -> (can_throw rt -> pending w' <> None) ->
              Q w' (inr None)) ->
  wp (reject rt msg) Q w.
Proof.
  intros H. unfold reject. apply wp_bind, wp_act, wp_leave.
  apply H; [apply _throw_type_error_first_wins |].
  apply _throw_type_error_reported.
Qed.

Lemma wp_conj {R A : Type} (m : M R A)
    (P Q : world -> A + R -> Prop) w :
  wp m P w -> wp m Q w -> wp m (fun w' r => P w' r /\ Q w' r) w.
Proof. unfold wp. auto. Qed.

Ltac raise_step :=
  apply wp_NAPI_CALL_raise;
  let w' := fresh "w'" in
  let st := fresh "st" in
  let a := fresh "a" in
  let Hf := fresh "Hf" in
  intros w' st a Hf;
  unfold napi_typeof, napi_get_value_int32, napi_get_value_string_latin1,
    napi_create_string_latin1, napi_create_object, napi_get_cb_info,
    napi_create_error, napi_create_uint32, napi_set_named_property in Hf.

Ltac raise_failed :=
  let w'' := fresh "w''" in
  let Hw'' := fresh "Hw''" in
  let Hrep := fresh "Hrep" in
  intros _ w'' Hw'' Hrep; split; assumption.

(** [_system_error] throws at most once, and returns NULL only with an
    exception pending. *)
Lemma _system_error_raises sc e w :
  first_wins w (fst (_system_error rt pf sc e w))
  /\ (snd (_system_error rt pf sc e w) = None ->
      can_throw rt -> pending (fst (_system_error rt pf sc e w)) <> None).
Proof.
  unfold _system_error.
  apply (wp_body _ (fun w' r =>
           first_wins w w' /\ (r = None -> can_throw rt -> pending w' <> None))).
  destruct (negb (e =? 0)), sc.
  all: repeat match goal with
    | |- wp (bind _ _) _ _ => apply wp_bind
    | |- wp (ret _) _ _ => apply wp_ret
    | |- wp (NAPI_CALL_VALUE _ _ _ _) _ _ =>
        apply wp_NAPI_CALL_raise; intros w' st a Hf;
        unfold napi_create_string_latin1, napi_create_error,
          napi_create_uint32, napi_set_named_property in Hf;
        cbv beta iota in Hf;
        repeat match type of Hf with
               | context [match ?x with _ => _ end] => destruct x
               end;
        injection Hf as <- <- <-;
        (split; [intros _ | intros _ w'' Hw'' Hrep; split; [assumption | auto]])
    end.
  all: split; [apply first_wins_refl | discriminate].
Qed.

Lemma _throw_system_error_first_wins sc e w :
  first_wins w (_throw_system_error rt pf sc e w).
Proof.
  unfold _throw_system_error, napi_is_exception_pending,
    napi_throw_type_error.
  destruct (_ && _); [| apply first_wins_refl].
  pose proof (_system_error_raises sc e w) as [H _].
  destruct (_system_error rt pf sc e w) as [w' [err |]]; cbn [fst] in H;
    apply (first_wins_trans _ _ _ H), napi_throw_first_wins.
Qed.

Lemma _throw_system_error_reported sc e w :
  can_throw rt -> pending (_throw_system_error rt pf sc e w) <> None.
Proof.
  intros (_ & _ & _ & _ & H152 & H156 & H164).
  unfold _throw_system_error, napi_is_exception_pending,
    napi_throw_type_error.
  rewrite H152. cbn [Z.eqb napi_ok andb].
  destruct (pending w) eqn:Hp; cbn [negb].
  - rewrite Hp. discriminate.
  - destruct (_system_error rt pf sc e w) as [w' [err |]];
      now apply napi_throw_reported.
Qed.

Lemma open_socket_family_raises d fam w :
  wp (open_socket_family rt pf d fam) (raises rt w) w.
Proof.
  unfold open_socket_family, NAPI_CALL_VALUE.
  apply wp_bind. raise_step. injection Hf as <- <- <-.
  split; [intros _ | raise_failed].
  apply wp_bind.
  destruct (negb (valuetype_eqb (typeof fam) napi_number)) eqn:Htype.
  { apply wp_reject_raise. intros w' Hw' Hrep. split; assumption. }
  apply wp_ret, wp_bind. raise_step.
  destruct fam; try discriminate. injection Hf as <- <- <-.
  split; [intros _ | raise_failed].
  destruct (C.to_int32 n =? AF_INET pf);
    [| destruct (C.to_int32 n =? AF_INET6 pf)].
  - apply wp_ret. split; [apply first_wins_refl | exact I].
  - apply wp_ret. split; [apply first_wins_refl | exact I].
  - apply wp_reject_raise. intros w' Hw' Hrep. split; assumption.
Qed.

Lemma open_from_address_raises af d addr w :
  wp (open_from_address rt pf af d addr) (raises rt w) w.
Proof.
  unfold open_from_address, NAPI_CALL_VALUE.
  apply wp_bind. raise_step. injection Hf as <- <- <-.
  split; [intros _ | raise_failed].
  destruct (null_or_undefined (typeof addr)) eqn:Hnull.
  { apply wp_ret. split; [apply first_wins_refl | exact I]. }
  destruct (negb (valuetype_eqb (typeof addr) napi_string)) eqn:Hstr.
  { apply wp_reject_raise. intros w' Hw' Hrep. split; assumption. }
  apply wp_bind. raise_step.
  destruct addr; try discriminate.
  destruct (napi_result rt "napi_get_value_string_latin1" 412 =? napi_ok)
    eqn:Hst; injection Hf as <- <- <-.
  2: { split; [intros E; rewrite E in Hst; discriminate | raise_failed]. }
  split; [intros _ | raise_failed].
  destruct (copy_latin1 s (C.bzero 42) 42) as [buf size].
  apply wp_bind.
  assert (Hlen : first_wins w
            (if (40 <? size)%nat
             then _throw_type_error rt
                    "From address must be at most 40 characters long" w
             else w)).
  { destruct (40 <? size)%nat;
      [apply _throw_type_error_first_wins | apply first_wins_refl]. }
  apply wp_when_act.
  generalize dependent (if (40 <? size)%nat
                        then _throw_type_error rt
                          "From address must be at most 40 characters long" w
                        else w).
  intros w1 Hw1.
  apply wp_bind, wp_call. unfold do_inet_pton.
  destruct (inet_pton pf af (C.c_str buf)) as [[r bytes] e].
  cbn [fst snd].
  destruct (r <? 0) eqn:Hlt; cbn [fst snd]; rewrite Hlt.
  { apply wp_bind, wp_act, wp_leave. split.
    - apply (first_wins_trans _ _ _ (first_wins_errno e _ _ Hw1)).
      apply _throw_system_error_first_wins.
    - apply _throw_system_error_reported. }
  destruct (r =? 0) eqn:Heq.
  { apply wp_reject_raise. intros w' Hw' Hrep. split; [| exact Hrep].
    exact (first_wins_trans _ _ _ Hw1 Hw'). }
  apply wp_ret. split; [exact Hw1 | exact I].
Qed.

Lemma open_source_interface_raises d intf w :
  wp (open_source_interface rt pf d intf) (raises rt w) w.
Proof.
  unfold open_source_interface, NAPI_CALL_VALUE.
  apply wp_bind. raise_step. injection Hf as <- <- <-.
  split; [intros _ | raise_failed].
  destruct (null_or_undefined (typeof intf)) eqn:Hnull.
  { apply wp_ret. split; [apply first_wins_refl | exact I]. }
  destruct (negb (valuetype_eqb (typeof intf) napi_string)) eqn:Hstr.
  { apply wp_reject_raise. intros w' Hw' Hrep. split; assumption. }
  apply wp_bind. raise_step.
  destruct intf; try discriminate.
  destruct (napi_result rt "napi_get_value_string_latin1" 451 =? napi_ok)
    eqn:Hst; injection Hf as <- <- <-.
  2: { split; [intros E; rewrite E in Hst; discriminate | raise_failed]. }
  split; [intros _ | raise_failed].
  destruct (copy_latin1 s _ _) as [buf size].
  destruct (IFNAMSIZ pf <? size)%nat.
  { apply wp_reject_raise. intros w' Hw' Hrep. split; assumption. }
  destruct (C.memcpy (__interface d) buf (size + 1)).
  - apply wp_ret. split; [apply first_wins_refl | exact I].
  - apply wp_bind, wp_act, wp_ret. split; [| exact I].
    apply first_wins_log; [reflexivity | apply first_wins_refl].
Qed.

Lemma open_callback_raises d cb w :
  wp (open_callback rt d cb) (raises rt w) w.
Proof.
  unfold open_callback, NAPI_CALL_VALUE.
  apply wp_bind. raise_step. injection Hf as <- <- <-.
  split; [intros _ | raise_failed].
  apply wp_bind.
  destruct (negb (valuetype_eqb (typeof cb) napi_function)) eqn:Htype.
  { apply wp_reject_raise. intros w' Hw' Hrep. split; assumption. }
  apply wp_ret, wp_bind. apply wp_NAPI_CALL_raise. intros w' st a Hf.
  unfold napi_create_reference in Hf.
  destruct (napi_result rt "napi_create_reference" 473 =? napi_ok) eqn:Hst;
    injection Hf as <- <- <-.
  - apply Z.eqb_eq in Hst.
    split; [intros _ | intros Hne; contradiction].
    apply wp_ret. split; [| exact I].
    apply first_wins_log; [reflexivity | apply first_wins_refl].
  - split; [intros E; rewrite E in Hst; discriminate | raise_failed].
Qed.

(** After the checks: the request is queued, or an exception is
    pending. *)
Lemma open_queue_raises d w :
  wp (open_queue rt d)
    (fun w' r =>
       first_wins w w'
       /\ match r with
          | inl _ => queued w' = Some (set_async_work true d)
          | inr _ => can_throw rt -> pending w' <> None
          end) w.
Proof.
  unfold open_queue, NAPI_CALL_VALUE.
  apply wp_bind. raise_step. injection Hf as <- <- <-.
  split; [intros _ | raise_failed].
  apply wp_bind. raise_step. injection Hf as <- <- <-.
  split; [intros _ | raise_failed].
  apply wp_bind, wp_act, wp_bind.
  assert (Hm : first_wins w (log EvMalloc w))
    by (apply first_wins_log; [reflexivity | apply first_wins_refl]).
  apply wp_NAPI_CALL_raise. intros w' st a Hf.
  unfold napi_create_async_work in Hf.
  destruct (napi_result rt "napi_create_async_work" 488 =? napi_ok) eqn:Hst;
    injection Hf as <- <- <-.
  2: { split; [intros E; rewrite E in Hst; discriminate |].
       intros _ w'' Hw'' Hrep. split; [| exact Hrep].
       exact (first_wins_trans _ _ _ Hm Hw''). }
  apply Z.eqb_eq in Hst. split; [intros _ | intros Hne; contradiction].
  assert (Hc : first_wins w (log EvCreateAsyncWork (log EvMalloc w)))
    by (apply first_wins_log; [reflexivity | exact Hm]).
  apply wp_bind, wp_NAPI_CALL_raise. intros w' st a Hf.
  unfold napi_queue_async_work in Hf.
  destruct (napi_result rt "napi_queue_async_work" 498 =? napi_ok) eqn:Hst';
    injection Hf as <- <- <-.
  2: { split; [intros E; rewrite E in Hst'; discriminate |].
       intros _ w'' Hw'' Hrep. split; [| exact Hrep].
       exact (first_wins_trans _ _ _ Hc Hw''). }
  apply Z.eqb_eq in Hst'. split; [intros _ | intros Hne; contradiction].
  apply wp_ret. split; [| reflexivity].
  apply first_wins_log; [reflexivity |]. apply first_wins_queued. exact Hc.
Qed.

(** [_open], whatever the runtime answers: at most one exception is
    thrown, and the call ends with the request queued or, when the
    runtime lets the addon throw, with an exception pending. *)
Lemma _open_raises info w :
  first_wins w (fst (_open rt pf info w))
  /\ (can_throw rt ->
      pending (fst (_open rt pf info w)) <> None
      \/ exists family address interface handler,
           info = [family; address; interface; handler]
           /\ reaches_queue pf family address interface handler = true
           /\ queued (fst (_open rt pf info w))
              = Some (request_of pf family address interface handler)).
Proof.
  set (Q := fun (w' : world) =>
    first_wins w w'
    /\ (can_throw rt ->
        pending w' <> None
        \/ exists family address interface handler,
             info = [family; address; interface; handler]
             /\ reaches_queue pf family address interface handler = true
             /\ queued w' = Some (request_of pf family address interface
                                    handler))).
  assert (Hleave : forall w', first_wins w w' ->
                              (can_throw rt -> pending w' <> None) -> Q w').
  { intros w' Hw' Hrep. split; [exact Hw' | auto]. }
  change (Q (fst (_open rt pf info w))).
  unfold _open.
  apply (wp_body _ (fun w' (_ : option js_value) => Q w')).
  unfold NAPI_CALL_VALUE.
  apply wp_bind. raise_step. injection Hf as <- <- <-.
  split; [intros _ | intros _ w'' Hw'' Hrep; now apply Hleave].
  apply wp_bind.
  destruct (negb (List.length info =? 4)%nat) eqn:Hargc.
  { apply wp_reject_raise. intros w' Hw' Hrep. now apply Hleave. }
  apply wp_ret.
  destruct info as [| family [| address [| interface [| handler [| x rest]]]]];
    try discriminate.
  cbn [firstn app nth].
  apply wp_bind.
  eapply wp_mono;
    [exact (wp_conj _ _ _ _ (open_socket_family_frame rt pf _ family w)
              (open_socket_family_raises _ family w)) |].
  intros w1 [[af d1] | r1] [[_ H1] [Hw1 Hr1]]; [| now apply Hleave].
  destruct H1 as (Hfam & -> & -> & ->).
  apply wp_bind.
  eapply wp_mono;
    [exact (wp_conj _ _ _ _ (open_from_address_frame rt pf family _ address w)
              (open_from_address_raises _ _ address w)) |].
  intros w2 [d2 | r2] [[_ H2] [Hw2 Hr2]]; [| now apply Hleave].
  destruct H2 as (Haddr & ->).
  apply wp_bind.
  eapply wp_mono;
    [refine (wp_conj _ _ _ _
               (open_source_interface_frame rt pf _ interface w2 _)
               (open_source_interface_raises _ interface w2)) |].
  { rewrite interface_with_address, interface_with_family.
    cbn. unfold C.bzero. apply repeat_length. }
  intros w3 [d3 | r3] [[_ H3] [Hw3 Hr3]].
  2: { apply Hleave; [exact (first_wins_trans _ _ _ Hw2 Hw3) | exact Hr3]. }
  destruct H3 as (Hintf & -> & ->).
  apply wp_bind.
  eapply wp_mono;
    [exact (wp_conj _ _ _ _ (open_callback_frame rt _ handler w2)
              (open_callback_raises _ handler w2)) |].
  intros w4 [d4 | r4] [H4 [Hw4 Hr4]].
  2: { apply Hleave; [exact (first_wins_trans _ _ _ Hw2 Hw4) | exact Hr4]. }
  destruct H4 as (Hcb & -> & ->).
  apply wp_bind.
  eapply wp_mono; [apply open_queue_raises |].
  assert (Hreach : reaches_queue pf family address interface handler = true)
    by (unfold reaches_queue; now rewrite Hfam, Haddr, Hintf, Hcb).
  intros w5 r5 [Hw5 Hq5].
  assert (HQ : Q w5).
  { split; [exact (first_wins_trans _ _ _
                     (first_wins_trans _ _ _ Hw2 Hw4) Hw5) |].
    intros Hcan. destruct r5 as [[] | r5]; [right | left; auto].
    exists family, address, interface, handler.
    split; [reflexivity | split; [exact Hreach | exact Hq5]]. }
  destruct r5 as [[] | r5]; [apply wp_ret |]; exact HQ.
Qed.

End Exceptions.

(* ------------------------------------------------------------------ *)
(** ** More about a call to [open], whatever the runtime answers *)

Lemma is_open_not_syscall e : is_open_event e = true -> is_syscall e = false.
Proof. destruct e; cbn; congruence. Qed.

Lemma request_of_ready pf family address interface handler :
  reaches_queue pf family address interface handler = true ->
  worker_ready pf (request_of pf family address interface handler).
Proof.
  unfold reaches_queue. intros H.
  apply andb_prop in H as [H Hcb]. apply andb_prop in H as [H Hintf].
  apply andb_prop in H as [Hfam Haddr].
  unfold request_of, worker_ready.
  cbn [__sa_family __sockaddr_size __interface __interface_length
         __callback_ref __async_work __syscall __errno __fd
         set_async_work set_callback_ref].
  assert (Hf : __sa_family (with_family pf family (zero_open_data pf))
               = AF_INET pf
               /\ __sockaddr_size (with_family pf family (zero_open_data pf))
                  = sizeof_sockaddr_in pf
               \/ __sa_family (with_family pf family (zero_open_data pf))
                  = AF_INET6 pf
                  /\ __sockaddr_size (with_family pf family (zero_open_data pf))
                     = sizeof_sockaddr_in6 pf).
  { unfold with_family. destruct (family_of family =? AF_INET pf);
      [left | right]; split; reflexivity. }
  assert (Hb : List.length
                 (__interface (with_family pf family (zero_open_data pf)))
               = (IFNAMSIZ pf + 1)%nat
               /\ nth 0 (__interface
                           (with_family pf family (zero_open_data pf))) x01
                  = x00).
  { rewrite interface_with_family. cbn. unfold C.bzero.
    split; [apply repeat_length |].
    replace (IFNAMSIZ pf + 1)%nat with (S (IFNAMSIZ pf)) by lia.
    reflexivity. }
  assert (Hrest : __syscall (with_family pf family (zero_open_data pf)) = None
                  /\ __errno (with_family pf family (zero_open_data pf)) = 0
                  /\ __fd (with_family pf family (zero_open_data pf)) = 0).
  { unfold with_family. destruct (_ =? _); repeat split. }
  generalize dependent (with_family pf family (zero_open_data pf)).
  intros d0 Hf Hb Hrest.
  assert (Ha : (__sa_family (with_address pf family address d0)
                = __sa_family d0)
               /\ (__sockaddr_size (with_address pf family address d0) = 0%nat
                   \/ __sockaddr_size (with_address pf family address d0)
                      = __sockaddr_size d0)
               /\ __interface (with_address pf family address d0)
                  = __interface d0
               /\ __syscall (with_address pf family address d0) = __syscall d0
               /\ __errno (with_address pf family address d0) = __errno d0
               /\ __fd (with_address pf family address d0) = __fd d0).
  { destruct address; cbn; auto 10. }
  generalize dependent (with_address pf family address d0).
  intros d1 (Ha1 & Ha2 & Ha3 & Ha4 & Ha5 & Ha6).
  assert (Hi : List.length (__interface (with_interface interface d1))
               = (IFNAMSIZ pf + 1)%nat
               /\ (__interface_length (with_interface interface d1)
                   <= IFNAMSIZ pf)%nat
               /\ nth (__interface_length (with_interface interface d1))
                    (__interface (with_interface interface d1)) x01 = x00).
  { rewrite <- Ha3 in Hb. destruct Hb as [Hb Hz].
    destruct interface; try discriminate Hintf;
      cbn [with_interface set_interface_length set_interface
             __interface __interface_length].
    - split; [exact Hb | split; [lia | exact Hz]].
    - split; [exact Hb | split; [lia | exact Hz]].
    - cbn [interface_ok] in Hintf. apply Nat.leb_le in Hintf.
      split; [| split; [exact Hintf |]].
      + rewrite length_app, length_list_byte_of_string. cbn [List.length].
        rewrite length_skipn. lia.
      + rewrite <- (length_list_byte_of_string s) at 1. apply nth_middle. }
  assert (Hs : __sa_family (with_interface interface d1) = __sa_family d1
               /\ __sockaddr_size (with_interface interface d1)
                  = __sockaddr_size d1
               /\ __syscall (with_interface interface d1) = __syscall d1
               /\ __errno (with_interface interface d1) = __errno d1
               /\ __fd (with_interface interface d1) = __fd d1).
  { destruct interface; repeat split. }
  destruct Hs as (-> & -> & -> & -> & ->).
  destruct Hi as (Hi1 & Hi2 & Hi3).
  destruct Hrest as (Hr1 & Hr2 & Hr3).
  rewrite Ha1, Ha4, Ha5, Ha6.
  split; [destruct Hf as [[H1 _] | [H1 _]]; auto |].
  split.
  { destruct Ha2 as [-> | ->]; [now left | right].
    destruct Hf as [[H1 H2] | [H1 H2]]; auto. }
  split; [exact Hi1 | split; [exact Hi2 | split; [exact Hi3 |]]].
  split; [destruct handler; try discriminate; eauto |].
  auto.
Qed.

Lemma can_throw_node : can_throw node.
Proof. repeat split. Qed.

(** X1: A call to [open] that starts with no exception pending
    throws at most one exception, whatever the runtime answers, and the
    exception the caller sees is that one: when the call fails, the
    exceptions thrown during it are exactly the one it fails with; when
    it does not fail, none was thrown. *)
Theorem open_throws_at_most_once rt pf info w :
  pending w = None ->
  match exception (js_open rt pf info w) with
  | None => throws_of (returned (js_open rt pf info w)) = throws_of w
  | Some e =>
      throws_of (returned (js_open rt pf info w)) = throws_of w ++ [EvThrow e]
  end.
Proof.
  intros Hp. unfold js_open. cbn [exception returned].
  destruct (_open_raises rt pf info w) as [H _].
  unfold first_wins in H. rewrite Hp in H.
  destruct H as [(-> & H) | (e & -> & H)]; exact H.
Qed.

(** X1, at an address of 41 characters, where the length check throws and
    [_open] goes on: the only exception is that of the length check. *)
Lemma open_throws_at_most_once_witness :
  pending fresh_world = None
  /\ exception (js_open node linux_ok
                  [JsNumber 10; JsString long_address; JsNull; JsFunction 0]
                  fresh_world)
     = Some (type_error too_long_message)
  /\ match exception (js_open node linux_ok
                        [JsNumber 10; JsString long_address; JsNull;
                         JsFunction 0] fresh_world) with
     | None =>
         throws_of (returned (js_open node linux_ok
                      [JsNumber 10; JsString long_address; JsNull;
                       JsFunction 0] fresh_world))
         = throws_of fresh_world
     | Some e =>
         throws_of (returned (js_open node linux_ok
                      [JsNumber 10; JsString long_address; JsNull;
                       JsFunction 0] fresh_world))
         = throws_of fresh_world ++ [EvThrow e]
     end.
Proof.
  split; [reflexivity |]. split; [vm_compute; reflexivity |].
  exact (open_throws_at_most_once node linux_ok
           [JsNumber 10; JsString long_address; JsNull; JsFunction 0]
           fresh_world eq_refl).
Defined.

(** X2: A call to [open] never fails silently: whatever the
    N-API calls answer, as long as the calls by which the addon tests for
    a pending exception and throws succeed, the call ends with an
    exception pending or with the request made of its four arguments
    queued. *)
Theorem open_never_fails_silently rt pf info w :
  can_throw rt ->
  exception (js_open rt pf info w) <> None
  \/ exists family address interface handler,
       info = [family; address; interface; handler]
       /\ reaches_queue pf family address interface handler = true
       /\ queued (returned (js_open rt pf info w))
          = Some (request_of pf family address interface handler).
Proof.
  intros Hcan. unfold js_open. cbn [exception returned].
  destruct (_open_raises rt pf info w) as [_ H]. exact (H Hcan).
Qed.

Lemma can_throw_node_failing_at line :
  line <> 52 -> line <> 56 -> line <> 138 -> line <> 141 ->
  line <> 152 -> line <> 156 -> line <> 164 ->
  can_throw (node_failing_at line).
Proof.
  intros. unfold can_throw, node_failing_at. cbn [napi_result].
  repeat split;
    match goal with
    | |- (if ?l =? line then _ else _) = _ =>
        destruct (Z.eqb_spec l line); [congruence | reflexivity]
    end.
Qed.

(** X2, where [napi_create_reference] (line 473) fails: the call ends with
    the error thrown for that failure. *)
Lemma open_never_fails_silently_witness :
  can_throw (node_failing_at 473)
  /\ exception (js_open (node_failing_at 473) linux_ok
                  [JsNumber 2; JsNull; JsNull; JsFunction 0] fresh_world)
     = Some (JsError false None
               "Unknown Error (napi_create_reference, line=473)" [])
  /\ (exception (js_open (node_failing_at 473) linux_ok
                   [JsNumber 2; JsNull; JsNull; JsFunction 0] fresh_world)
      <> None
      \/ exists family address interface handler,
           [JsNumber 2; JsNull; JsNull; JsFunction 0]
           = [family; address; interface; handler]
           /\ reaches_queue linux_ok family address interface handler = true
           /\ queued (returned (js_open (node_failing_at 473) linux_ok
                        [JsNumber 2; JsNull; JsNull; JsFunction 0]
                        fresh_world))
              = Some (request_of linux_ok family address interface handler)).
Proof.
  assert (H : can_throw (node_failing_at 473))
    by (apply can_throw_node_failing_at; discriminate).
  split; [exact H |]. split; [vm_compute; reflexivity |].
  exact (open_never_fails_silently (node_failing_at 473) linux_ok
           [JsNumber 2; JsNull; JsNull; JsFunction 0] fresh_world H).
Defined.

(** X3: Whatever its arguments and whatever the runtime
    answers, the call to [open] itself makes no system call, leaves the
    set of open descriptors as it was and writes nowhere out of bounds:
    every system call is left to the worker thread. *)
Theorem open_makes_no_system_call rt pf info w :
  count_events is_syscall (trace (returned (js_open rt pf info w)))
  = count_events is_syscall (trace w)
  /\ open_fds (returned (js_open rt pf info w)) = open_fds w
  /\ count_events is_fault (trace (returned (js_open rt pf info w)))
     = count_events is_fault (trace w).
Proof.
  unfold js_open. cbn [returned].
  destruct (_open_frame rt pf info w) as [H _].
  split; [| split].
  - exact (count_events_opens is_syscall _ _ is_open_not_syscall H).
  - apply H.
  - exact (count_events_opens is_fault _ _ is_open_not_fault H).
Qed.

(** X4: Whatever the runtime answers, every request that [open]
    queues is fit for the worker thread: its family is AF_INET or
    AF_INET6, its address size is zero or the size of that family's
    socket address, its interface name is terminated within its buffer of
    IFNAMSIZ + 1 bytes, it holds a reference to a function and its async
    work, and records no outcome yet. *)
Theorem queued_request_is_ready rt pf info w d :
  queued w = None ->
  queued (returned (js_open rt pf info w)) = Some d ->
  worker_ready pf d.
Proof.
  intros Hq Hd.
  assert (Hne : queued (returned (js_open rt pf info w)) <> None)
    by (rewrite Hd; discriminate).
  destruct (queued_request rt pf info w Hq Hne)
    as (f & a & i & h & _ & Hreach & Hreq).
  rewrite Hreq in Hd. injection Hd as <-.
  now apply request_of_ready.
Qed.

(** X4, at the request queued by a call on Linux. *)
Lemma queued_request_is_ready_witness :
  queued fresh_world = None
  /\ queued (returned (js_open node linux_ok
                         [JsNumber 2; JsString "127.0.0.1"; JsString "lo";
                          JsFunction 0] fresh_world))
     = Some (request_of linux_ok (JsNumber 2) (JsString "127.0.0.1")
               (JsString "lo") (JsFunction 0))
  /\ worker_ready linux_ok
       (request_of linux_ok (JsNumber 2) (JsString "127.0.0.1")
          (JsString "lo") (JsFunction 0)).
Proof.
  assert (H : queued (returned (js_open node linux_ok
                         [JsNumber 2; JsString "127.0.0.1"; JsString "lo";
                          JsFunction 0] fresh_world))
              = Some (request_of linux_ok (JsNumber 2) (JsString "127.0.0.1")
                        (JsString "lo") (JsFunction 0)))
    by (vm_compute; reflexivity).
  split; [reflexivity |]. split; [exact H |].
  exact (queued_request_is_ready node linux_ok _ fresh_world _ eq_refl H).
Defined.

(* ------------------------------------------------------------------ *)
(** ** The worker thread, call by call *)

Lemma trace_close pf fd w : trace (close pf fd w) = trace w ++ [EvClose fd].
Proof. unfold close. destruct (existsb _ _); reflexivity. Qed.

Section First_failure.

Variable pf : platform.
Variable d : _open_data.
Variable w : world.

Local Abbreviation sock := (first_socket pf d).
Local Abbreviation going := (worker_going pf d w).
Local Abbreviation outcome := (worker_outcome pf d w).

Lemma going_log r calls e w1 :
  going r calls w1 -> call_failed e = false ->
  going r (calls ++ [e]) (log e w1).
Proof.
  intros (Ht & Hok & Hfd) He. split; [| split].
  - cbn. rewrite Ht, <- app_assoc. reflexivity.
  - change (sock r :: calls ++ [e]) with ((sock r :: calls) ++ [e]).
    rewrite existsb_app, Hok. cbn. now rewrite He.
  - exact Hfd.
Qed.

Lemma going_outcome r calls w1 :
  going r calls w1 -> outcome w1 (set_fd r d).
Proof.
  intros (Ht & Hok & Hfd). exists r, calls, [].
  split; [now rewrite app_nil_r |]. split; [reflexivity |].
  split; [cbn; lia |]. left. auto.
Qed.

Lemma fail_outcome (pre : list event) e name d1 x w2 :
  trace w2 = trace w ++ pre ++ [e] ->
  (exists r calls, pre ++ [e] = sock r :: calls) ->
  existsb call_failed pre = false -> call_failed e = true ->
  call_name e = Some name ->
  (sets_errno e = true -> errno w2 = kernel_errno pf d e) ->
  outcome (fst (_open_execute_fail pf d1 (Some name) x w2))
    (snd (_open_execute_fail pf d1 (Some name) x w2)).
Proof.
  intros Ht (r & calls & Hpre) Hok He Hname Herrno.
  unfold _open_execute_fail.
  exists r, calls,
    (if 1 <? __fd d1 then [] else [EvClose (__fd d1)]).
  rewrite <- Hpre.
  destruct (1 <? __fd d1); cbn [fst snd].
  - split; [now rewrite app_nil_r |]. split; [reflexivity |].
    split; [cbn; lia |]. right. exists pre, e.
    rewrite Hname. repeat split; assumption.
  - split.
    { rewrite trace_close, Ht, <- !app_assoc. reflexivity. }
    split; [reflexivity |]. split; [cbn; lia |]. right. exists pre, e.
    rewrite Hname. repeat split; assumption.
Qed.

Lemma wp_fail_outcome {A : Type} (pre : list event) e name d1 w2
    (Q : world -> A + _open_data -> Prop) :
  trace w2 = trace w ++ pre ++ [e] ->
  (exists r calls, pre ++ [e] = sock r :: calls) ->
  existsb call_failed pre = false -> call_failed e = true ->
  call_name e = Some name ->
  (sets_errno e = true -> errno w2 = kernel_errno pf d e) ->
  (forall w' d', outcome w' d' -> Q w' (inr d')) ->
  wp (fail_and_return pf d1 name) Q w2.
Proof.
  intros Ht Hpre Hok He Hname Herrno HQ. unfold wp, fail_and_return.
  pose proof (fail_outcome pre e name d1 (errno w2) w2 Ht Hpre Hok He Hname
                Herrno) as H.
  destruct (_open_execute_fail pf d1 (Some name) (errno w2) w2) as [w' d'].
  cbn in *. auto.
Qed.

(** The last part of [_open_execute]: the address to bind to. *)
Lemma bind_outcome r calls w1 :
  going r calls w1 ->
  wp (if (0 <? __sockaddr_size d)%nat then
        __result <- call (bind_socket pf r (__sa_family d)
                            (__sin_addr d) (__sockaddr_size d)) ;;
        if negb (__result =? 0)
        then call (fun w => _open_execute_fail pf (set_fd r d)
                              (Some "bind"%string) (errno w) w)
        else ret (set_fd r d)
      else ret (set_fd r d))%c
    (fun w' r => match r with inl a | inr a => outcome w' a end) w1.
Proof.
  intros Hg. destruct (0 <? __sockaddr_size d)%nat.
  2: { apply wp_ret. now apply (going_outcome r calls). }
  apply wp_bind, wp_call. unfold bind_socket.
  destruct (sys_bind pf r (__sa_family d) (__sin_addr d) (__sockaddr_size d))
    as [rb eb] eqn:Hsys.
  set (e := EvBind r (__sockaddr_size d) rb).
  assert (Hw2 : forall w2, trace w2 = trace (log e w1) ->
                           open_fds w2 = open_fds w1 ->
                           ((rb <? 0) = true -> errno w2 = eb) ->
                           wp (if negb (rb =? 0)
                               then call (fun w => _open_execute_fail pf
                                            (set_fd r d) (Some "bind"%string)
                                            (errno w) w)
                               else ret (set_fd r d))
                             (fun w' r => match r with
                                          | inl a | inr a => outcome w' a
                                          end) w2).
  { intros w2 Ht Hfd Herr. destruct (rb =? 0) eqn:Hrb; cbn [negb].
    - apply wp_ret. apply (going_outcome r (calls ++ [e])).
      destruct (going_log r calls e w1 Hg) as (H1 & H2 & H3).
      { cbn. now rewrite Hrb. }
      split; [rewrite Ht; exact H1 | split; [exact H2 |]].
      rewrite Hfd. exact H3.
    - apply wp_call.
      destruct Hg as (Hg1 & Hg2 & _).
      apply (fail_outcome (sock r :: calls) e).
      + rewrite Ht. cbn. rewrite Hg1, <- app_assoc. reflexivity.
      + eexists _, _. reflexivity.
      + exact Hg2.
      + cbn. now rewrite Hrb.
      + reflexivity.
      + cbn. rewrite Hsys. exact Herr. }
  destruct (rb <? 0); cbn [fst snd]; apply Hw2;
    reflexivity || discriminate || (intros _; reflexivity).
Qed.

Hypothesis supported :
  __sa_family d = AF_INET pf \/ __sa_family d = AF_INET6 pf.

Lemma _open_execute_outcome :
  outcome (fst (_open_execute pf d w)) (snd (_open_execute pf d w)).
Proof.
  unfold _open_execute. apply (wp_body _ outcome).
  assert (Hproto :
    (if __sa_family d =? AF_INET pf then ret (IPPROTO_ICMP pf)
     else if __sa_family d =? AF_INET6 pf then ret (IPPROTO_ICMPV6 pf)
          else leave (set_fd (-1) (set_errno (EAFNOSUPPORT pf) d)))
    = (ret (icmp_protocol pf (__sa_family d)) : M _open_data Z)).
  { unfold icmp_protocol.
    destruct (__sa_family d =? AF_INET pf) eqn:H4; [reflexivity |].
    destruct (__sa_family d =? AF_INET6 pf) eqn:H6; [reflexivity |].
    apply Z.eqb_neq in H4, H6. destruct supported; contradiction. }
  rewrite Hproto. clear Hproto.
  apply wp_bind, wp_ret, wp_bind, wp_call. unfold socket.
  destruct (sys_socket pf (__sa_family d) (SOCK_DGRAM pf)
              (icmp_protocol pf (__sa_family d))) as [r e] eqn:Hsys.
  fold (sock r). cbn [__fd set_fd __interface_length __sockaddr_size
                        __sa_family __sin_addr __interface].
  destruct (r <? 0) eqn:Hr; cbn [fst snd]; rewrite ?Hr.
  { (* [socket] failed *)
    apply wp_bind.
    apply (wp_fail_outcome [] (sock r)); auto.
    - exists r, []. reflexivity.
    - intros _. cbn. rewrite Hsys. reflexivity. }
  clear Hsys.
  assert (Hg : going r [] (set_open_fds (r :: open_fds (log (sock r) w))
                             (log (sock r) w))).
  { split; [reflexivity | split; [| reflexivity]]. cbn. now rewrite Hr. }
  generalize dependent (set_open_fds (r :: open_fds (log (sock r) w))
                          (log (sock r) w)).
  intros w1 Hg.
  apply wp_bind, wp_ret, wp_bind.
  (* the interface *)
  apply (wp_mono _ (fun w' x =>
           match x with
           | inl _ => exists calls, going r calls w'
           | inr d' => outcome w' d'
           end)).
  2: { intros w2 [[] | d2] H; [| exact H].
       destruct H as (calls & H). now apply (bind_outcome r calls). }
  destruct (0 <? __interface_length d)%nat; [| apply wp_ret; eauto].
  destruct (os pf).
  - (* Linux *)
    apply wp_bind, wp_call. unfold setsockopt.
    destruct (sys_setsockopt pf r (SOL_SOCKET pf) (SO_BINDTODEVICE pf))
      as [rs es] eqn:Hsys.
    set (ev := EvSetsockopt r (SOL_SOCKET pf) (SO_BINDTODEVICE pf) rs).
    destruct (rs <? 0) eqn:Hrs; cbn [fst snd]; rewrite Hrs.
    + destruct Hg as (Hg1 & Hg2 & _).
      apply (wp_fail_outcome [sock r] ev); auto.
      * cbn. rewrite Hg1, <- app_assoc. reflexivity.
      * exists r, [ev]. reflexivity.
      * intros _. cbn. rewrite Hsys. reflexivity.
    + apply wp_ret. exists [ev]. apply (going_log r [] ev w1 Hg).
      cbn. exact Hrs.
  - (* Apple *)
    apply wp_bind, wp_call. unfold if_nametoindex.
    destruct (sys_if_nametoindex pf (C.c_str (__interface d))) as [ri ei]
      eqn:Hsysi.
    set (evi := EvIfNametoindex (C.c_str (__interface d)) ri).
    destruct (ri =? 0) eqn:Hri; cbn [fst snd]; rewrite Hri.
    { apply wp_bind. destruct Hg as (Hg1 & Hg2 & _).
      apply (wp_fail_outcome [sock r] evi); auto.
      - cbn. rewrite Hg1, <- app_assoc. reflexivity.
      - exists r, [evi]. reflexivity.
      - intros _. cbn. rewrite Hsysi. reflexivity. }
    apply wp_bind, wp_ret.
    assert (Hg' : going r [evi] (log evi w1))
      by (apply (going_log r [] evi w1 Hg); cbn; exact Hri).
    generalize dependent (log evi w1). intros w2 Hg2.
    destruct (if __sa_family d =? AF_INET pf
              then (IPPROTO_IP pf, IP_BOUND_IF pf)
              else (IPPROTO_IPV6 pf, IPV6_BOUND_IF pf)) as [lv op].
    apply wp_bind, wp_call. unfold setsockopt.
    destruct (sys_setsockopt pf r lv op) as [rs es] eqn:Hsys.
    set (ev := EvSetsockopt r lv op rs).
    destruct (rs <? 0) eqn:Hrs; cbn [fst snd]; rewrite Hrs.
    + destruct Hg2 as (Hg1 & Hg3 & _).
      apply (wp_fail_outcome [sock r; evi] ev); auto.
      * cbn. rewrite Hg1, <- app_assoc. reflexivity.
      * exists r, [evi; ev]. reflexivity.
      * intros _. cbn. rewrite Hsys. reflexivity.
    + apply wp_ret. exists [evi; ev]. apply (going_log r [evi] ev w2 Hg2).
      cbn. exact Hrs.
  - apply wp_ret. eauto.
Qed.

End First_failure.

(** X5: The worker thread, for a request of family AF_INET
    or AF_INET6, on every platform and whatever the kernel answers: its
    first call is [socket] for a datagram socket of the family, with
    ICMP for AF_INET and ICMPv6 for AF_INET6; it goes on call by call and
    stops at the first call that fails, after which it makes at most one
    [close] and nothing else. When no call failed the request holds the
    descriptor [socket] returned, which is open; when one failed the
    request holds the descriptor -1, the name of that call and, when the
    kernel set one, its [errno]. *)
Theorem worker_stops_at_first_failure pf d w :
  __sa_family d = AF_INET pf \/ __sa_family d = AF_INET6 pf ->
  exists r calls closes,
    trace (fst (_open_execute pf d w))
    = trace w
        ++ (EvSocket (__sa_family d) (SOCK_DGRAM pf)
              (icmp_protocol pf (__sa_family d)) r :: calls)
        ++ closes
    /\ forallb is_close closes = true
    /\ (List.length closes <= 1)%nat
    /\ ((existsb call_failed
           (EvSocket (__sa_family d) (SOCK_DGRAM pf)
              (icmp_protocol pf (__sa_family d)) r :: calls) = false
         /\ closes = []
         /\ snd (_open_execute pf d w) = set_fd r d
         /\ open_fds (fst (_open_execute pf d w)) = r :: open_fds w)
        \/ (exists ok last,
              EvSocket (__sa_family d) (SOCK_DGRAM pf)
                (icmp_protocol pf (__sa_family d)) r :: calls
              = ok ++ [last]
              /\ existsb call_failed ok = false
              /\ call_failed last = true
              /\ __fd (snd (_open_execute pf d w)) = -1
              /\ __syscall (snd (_open_execute pf d w)) = call_name last
              /\ (sets_errno last = true ->
                  __errno (snd (_open_execute pf d w))
                  = kernel_errno pf d last))).
Proof. exact (_open_execute_outcome pf d w). Qed.

(** X5, on Linux, where [setsockopt] fails for the interface
    [eth9]: the worker stops there. *)
Lemma worker_stops_at_first_failure_witness :
  (__sa_family (request_of (linux (3, 0) (-1, 19) (0, 0))
                  (JsNumber 2) JsNull (JsString "eth9") (JsFunction 0))
   = AF_INET (linux (3, 0) (-1, 19) (0, 0))
   \/ __sa_family (request_of (linux (3, 0) (-1, 19) (0, 0))
                     (JsNumber 2) JsNull (JsString "eth9") (JsFunction 0))
      = AF_INET6 (linux (3, 0) (-1, 19) (0, 0)))
  /\ trace (fst (_open_execute (linux (3, 0) (-1, 19) (0, 0))
                   (request_of (linux (3, 0) (-1, 19) (0, 0))
                      (JsNumber 2) JsNull (JsString "eth9") (JsFunction 0))
                   fresh_world))
     = [EvSocket 2 2 1 3; EvSetsockopt 3 1 25 (-1)]
  /\ exists r calls closes,
       trace (fst (_open_execute (linux (3, 0) (-1, 19) (0, 0))
                     (request_of (linux (3, 0) (-1, 19) (0, 0))
                        (JsNumber 2) JsNull (JsString "eth9") (JsFunction 0))
                     fresh_world))
       = trace fresh_world
           ++ (EvSocket 2 2 (icmp_protocol (linux (3, 0) (-1, 19) (0, 0)) 2) r
                 :: calls)
           ++ closes.
Proof.
  split; [left; reflexivity |]. split; [vm_compute; reflexivity |].
  destruct (worker_stops_at_first_failure (linux (3, 0) (-1, 19) (0, 0))
              (request_of (linux (3, 0) (-1, 19) (0, 0))
                 (JsNumber 2) JsNull (JsString "eth9") (JsFunction 0))
              fresh_world (or_introl eq_refl))
    as (r & calls & closes & H & _).
  exists r, calls, closes. exact H.
Defined.

(* ------------------------------------------------------------------ *)
(** ** From the call to the handler *)







(* ------------------------------------------------------------------ *)
(** ** The checks of [_open], one by one *)

Lemma exception_thrown rt pf info w e :
  _open rt pf info w = (thrown e w, None) ->
  exception (js_open rt pf info w) = Some e
  /\ returned (js_open rt pf info w) = thrown e w.
Proof. intros H. unfold js_open. rewrite H. split; reflexivity. Qed.

(** X7: A call with any number of arguments other than four, none
    included, fails with the type error of line 363 and does nothing
    else, when the N-API calls succeed. *)
Theorem open_wants_four_arguments rt pf info w :
  napi_all_ok rt -> pending w = None -> List.length info <> 4%nat ->
  exception (js_open rt pf info w)
  = Some (type_error
            "Expected 4 arguments: socket family, from address, source interface, callback")
  /\ returned (js_open rt pf info w)
     = thrown (type_error
                 "Expected 4 arguments: socket family, from address, source interface, callback")
         w.
Proof.
  intros Hok Hp Hlen. apply exception_thrown.
  rewrite (_open_wrong_argc rt pf Hok info w Hlen).
  rewrite (_throw_type_error_ok rt Hok), Hp. reflexivity.
Qed.

(** X7, at a concrete call. *)
Lemma open_wants_four_arguments_witness :
  napi_all_ok node /\ pending fresh_world = None
  /\ List.length [JsNumber 2; JsNull; JsNull; JsFunction 0; JsNull] <> 4%nat
  /\ exception (js_open node linux_ok
                  [JsNumber 2; JsNull; JsNull; JsFunction 0; JsNull]
                  fresh_world)
     = Some (type_error
               "Expected 4 arguments: socket family, from address, source interface, callback")
  /\ returned (js_open node linux_ok
                 [JsNumber 2; JsNull; JsNull; JsFunction 0; JsNull]
                 fresh_world)
     = thrown (type_error
                 "Expected 4 arguments: socket family, from address, source interface, callback")
         fresh_world.
Proof.
  assert (H : List.length [JsNumber 2; JsNull; JsNull; JsFunction 0; JsNull]
              <> 4%nat) by discriminate.
  split; [exact napi_all_ok_node |]. split; [reflexivity |].
  split; [exact H |].
  exact (open_wants_four_arguments node linux_ok
           [JsNumber 2; JsNull; JsNull; JsFunction 0; JsNull] fresh_world
           napi_all_ok_node eq_refl H).
Defined.

(** X8: The family is checked first: when it is not a number, or
    a number that is, as a 32-bit integer, neither AF_INET nor AF_INET6,
    the call fails with the type error of line 375 or of line 394,
    whatever the other three arguments are, and does nothing else (when
    the N-API calls succeed). *)
Theorem open_checks_the_family_first
    rt pf family address interface handler w :
  napi_all_ok rt -> pending w = None ->
  family_ok pf family = false ->
  exception (js_open rt pf [family; address; interface; handler] w)
  = Some (type_error
            match family with
            | JsNumber _ => "Socket family must be AF_INET or AF_INET6"
            | _ => "Specified socket family is not a number"
            end)
  /\ returned (js_open rt pf [family; address; interface; handler] w)
     = thrown (type_error
                 match family with
                 | JsNumber _ => "Socket family must be AF_INET or AF_INET6"
                 | _ => "Specified socket family is not a number"
                 end) w.
Proof.
  intros Hok Hp Hfam. apply exception_thrown.
  rewrite (_open_ok rt pf Hok). unfold body, bind.
  rewrite (open_socket_family_ok rt pf Hok).
  destruct family; try (rewrite (_throw_type_error_ok rt Hok), Hp; reflexivity).
  cbn [family_ok] in Hfam. apply orb_false_elim in Hfam as [-> ->].
  rewrite (_throw_type_error_ok rt Hok), Hp. reflexivity.
Qed.

(** X8, at a concrete call. *)
Lemma open_checks_the_family_first_witness :
  napi_all_ok node /\ pending fresh_world = None
  /\ family_ok linux_ok (JsString "AF_INET") = false
  /\ exception (js_open node linux_ok
                  [JsString "AF_INET"; JsBoolean true; JsNumber 7; JsNull]
                  fresh_world)
     = Some (type_error "Specified socket family is not a number")
  /\ returned (js_open node linux_ok
                 [JsString "AF_INET"; JsBoolean true; JsNumber 7; JsNull]
                 fresh_world)
     = thrown (type_error "Specified socket family is not a number")
         fresh_world.
Proof.
  split; [exact napi_all_ok_node |]. split; [reflexivity |].
  split; [reflexivity |].
  exact (open_checks_the_family_first node linux_ok (JsString "AF_INET")
           (JsBoolean true) (JsNumber 7) JsNull fresh_world
           napi_all_ok_node eq_refl eq_refl).
Defined.

(** After a family that passes its check, [_open] is at the address. *)
Lemma _open_at_address rt pf family address interface handler w :
  napi_all_ok rt -> family_ok pf family = true ->
  _open rt pf [family; address; interface; handler] w
  = body ( __data <- open_from_address rt pf (family_of family)
                       (with_family pf family (zero_open_data pf)) address ;;
           __data <- open_source_interface rt pf __data interface ;;
           __data <- open_callback rt __data handler ;;
           open_queue rt __data ;;;
           ret None)%c w.
Proof.
  intros Hok Hfam. rewrite (_open_ok rt pf Hok). unfold body.
  unfold bind at 1. rewrite (family_accepted rt pf Hok) by assumption.
  reflexivity.
Qed.

(** X9: After a family that passes its check, an address
    that is neither a string nor [null] nor [undefined] makes the call
    fail with the type error of line 403, whatever the interface and the
    handler are, and nothing else is done (when the N-API calls
    succeed). *)
Theorem open_wants_a_string_for_the_address
    rt pf family address interface handler w :
  napi_all_ok rt -> pending w = None ->
  family_ok pf family = true ->
  typeof address <> napi_null -> typeof address <> napi_undefined ->
  typeof address <> napi_string ->
  exception (js_open rt pf [family; address; interface; handler] w)
  = Some (type_error "From address must be a string, null or undefined")
  /\ returned (js_open rt pf [family; address; interface; handler] w)
     = thrown (type_error "From address must be a string, null or undefined")
         w.
Proof.
  intros Hok Hp Hfam Hn Hu Hs. apply exception_thrown.
  rewrite (_open_at_address rt pf family address interface handler w Hok Hfam).
  unfold body, bind. rewrite (open_from_address_ok rt pf Hok).
  destruct address; try (now contradiction Hn); try (now contradiction Hu);
    try (now contradiction Hs);
    rewrite (_throw_type_error_ok rt Hok), Hp; reflexivity.
Qed.

(** X9, at a concrete call. *)
Lemma open_wants_a_string_for_the_address_witness :
  napi_all_ok node /\ pending fresh_world = None
  /\ family_ok linux_ok (JsNumber 2) = true
  /\ typeof (JsNumber 2130706433) <> napi_null
  /\ typeof (JsNumber 2130706433) <> napi_undefined
  /\ typeof (JsNumber 2130706433) <> napi_string
  /\ exception (js_open node linux_ok
                  [JsNumber 2; JsNumber 2130706433; JsNull; JsFunction 0]
                  fresh_world)
     = Some (type_error "From address must be a string, null or undefined")
  /\ returned (js_open node linux_ok
                 [JsNumber 2; JsNumber 2130706433; JsNull; JsFunction 0]
                 fresh_world)
     = thrown (type_error "From address must be a string, null or undefined")
         fresh_world.
Proof.
  assert (H1 : typeof (JsNumber 2130706433) <> napi_null) by discriminate.
  assert (H2 : typeof (JsNumber 2130706433) <> napi_undefined)
    by discriminate.
  assert (H3 : typeof (JsNumber 2130706433) <> napi_string) by discriminate.
  split; [exact napi_all_ok_node |]. split; [reflexivity |].
  split; [reflexivity |]. split; [exact H1 |]. split; [exact H2 |].
  split; [exact H3 |].
  exact (open_wants_a_string_for_the_address node linux_ok (JsNumber 2)
           (JsNumber 2130706433) JsNull (JsFunction 0) fresh_world
           napi_all_ok_node eq_refl eq_refl H1 H2 H3).
Defined.

(** X10: After a family that passes its check, an address
    string of at most 40 characters that [inet_pton] does not take for
    an address of the family makes the call fail with the type error of
    lines 425-432, which names the family and quotes the text
    [inet_pton] was given; nothing else is done (when the N-API calls
    succeed). *)
Theorem open_refuses_a_malformed_address
    rt pf family s interface handler w :
  napi_all_ok rt -> pending w = None ->
  family_ok pf family = true ->
  (String.length s <= 40)%nat ->
  fst (fst (inet_pton pf (family_of family) (address_text s))) = 0 ->
  exception (js_open rt pf [family; JsString s; interface; handler] w)
  = Some (type_error
            (C.snprintf 128
               ((if family_of family =? AF_INET pf
                 then "Invalid IPv4 from address: "
                 else "Invalid IPv6 from address: ") ++ address_text s)))
  /\ returned (js_open rt pf [family; JsString s; interface; handler] w)
     = thrown (type_error
                 (C.snprintf 128
                    ((if family_of family =? AF_INET pf
                      then "Invalid IPv4 from address: "
                      else "Invalid IPv6 from address: ") ++ address_text s)))
         w.
Proof.
  intros Hok Hp Hfam Hlen Hr. apply exception_thrown.
  rewrite (_open_at_address rt pf family _ interface handler w Hok Hfam).
  unfold body, bind. rewrite (open_from_address_ok rt pf Hok).
  pose proof (address_too_long_size s) as Hsz. unfold address_text in *.
  destruct (copy_latin1 s (C.bzero 42) 42) as [buf size].
  cbn [fst snd] in *. rewrite Hsz. cbn [address_too_long].
  replace (40 <? String.length s)%nat with false
    by (symmetry; apply Nat.ltb_ge; exact Hlen).
  unfold do_inet_pton.
  destruct (inet_pton pf (family_of family) (C.c_str buf)) as [[r bytes] e].
  cbn [fst snd] in Hr. subst r. cbn [Z.ltb Z.eqb Z.compare fst snd].
  rewrite (_throw_type_error_ok rt Hok), Hp.
  destruct (family_of family =? AF_INET pf) eqn:H4; [reflexivity |].
  destruct family; try discriminate Hfam. cbn [family_ok family_of] in *.
  rewrite H4 in Hfam. cbn in Hfam. rewrite Hfam. reflexivity.
Qed.

(** X10, at a concrete call. *)
Lemma open_refuses_a_malformed_address_witness :
  napi_all_ok node /\ pending fresh_world = None
  /\ family_ok linux_ok (JsNumber 10) = true
  /\ (String.length "127.0.0.1" <= 40)%nat
  /\ fst (fst (inet_pton linux_ok (family_of (JsNumber 10))
                 (address_text "127.0.0.1"))) = 0
  /\ exception (js_open node linux_ok
                  [JsNumber 10; JsString "127.0.0.1"; JsNull; JsFunction 0]
                  fresh_world)
     = Some (type_error "Invalid IPv6 from address: 127.0.0.1")
  /\ exception (js_open node linux_ok
                  [JsNumber 10; JsString "127.0.0.1"; JsNull; JsFunction 0]
                  fresh_world)
     = Some (type_error
               (C.snprintf 128
                  ((if family_of (JsNumber 10) =? AF_INET linux_ok
                    then "Invalid IPv4 from address: "
                    else "Invalid IPv6 from address: ")
                     ++ address_text "127.0.0.1"))).
Proof.
  assert (Hlen : (String.length "127.0.0.1" <= 40)%nat) by (vm_compute; lia).
  split; [exact napi_all_ok_node |]. split; [reflexivity |].
  split; [reflexivity |]. split; [exact Hlen |].
  split; [vm_compute; reflexivity |]. split; [vm_compute; reflexivity |].
  exact (proj1 (open_refuses_a_malformed_address node linux_ok (JsNumber 10)
                  "127.0.0.1" JsNull (JsFunction 0) fresh_world
                  napi_all_ok_node eq_refl eq_refl Hlen eq_refl)).
Defined.

(** X11: Of an address string of more than 40 characters [_open] keeps
    the first 41, up to a NUL, and hands that text to [inet_pton]. When
    [inet_pton] does not take the text that was kept for an address, the
    call is refused: it fails with the type error of line 416, the only
    exception thrown, and nothing is queued (when the N-API calls
    succeed and the family passes its check). *)
Theorem open_refuses_a_long_address_whose_kept_text_does_not_parse
    rt pf family s interface handler w :
  napi_all_ok rt -> pending w = None ->
  family_ok pf family = true ->
  (40 < String.length s)%nat ->
  fst (fst (inet_pton pf (family_of family) (address_text s))) <= 0 ->
  exception (js_open rt pf [family; JsString s; interface; handler] w)
  = Some (type_error "From address must be at most 40 characters long")
  /\ trace (returned (js_open rt pf [family; JsString s; interface; handler] w))
     = trace w
         ++ [EvThrow
               (type_error "From address must be at most 40 characters long")]
  /\ queued (returned (js_open rt pf [family; JsString s; interface; handler]
                         w))
     = queued w.
Proof.
  intros Hok Hp Hfam Hlen Hr. unfold js_open. cbn [exception returned].
  rewrite (_open_at_address rt pf family _ interface handler w Hok Hfam).
  unfold body, bind. rewrite (open_from_address_ok rt pf Hok).
  pose proof (address_too_long_size s) as Hsz. unfold address_text in *.
  destruct (copy_latin1 s (C.bzero 42) 42) as [buf size].
  cbn [fst snd] in *. rewrite Hsz. cbn [address_too_long].
  replace (40 <? String.length s)%nat with true
    by (symmetry; apply Nat.ltb_lt; exact Hlen).
  rewrite (_throw_type_error_ok rt Hok), Hp.
  unfold do_inet_pton.
  destruct (inet_pton pf (family_of family) (C.c_str buf)) as [[r bytes] e].
  cbn [fst snd] in Hr.
  destruct (r <? 0) eqn:Hlt; cbn [fst snd]; rewrite Hlt.
  - rewrite (_throw_system_error_ok rt pf Hok). cbn. repeat split.
  - assert (Heq : (r =? 0) = true)
      by (apply Z.eqb_eq; apply Z.ltb_ge in Hlt; lia).
    rewrite Heq, (_throw_type_error_ok rt Hok). cbn. repeat split.
Qed.

(** X11, at an IPv6 address of 41 characters given for the family
    AF_INET: the text kept is no IPv4 address. *)
Lemma open_refuses_a_long_address_whose_kept_text_does_not_parse_witness :
  napi_all_ok node /\ pending fresh_world = None
  /\ family_ok linux_ok (JsNumber 2) = true
  /\ (40 < String.length long_address)%nat
  /\ fst (fst (inet_pton linux_ok (family_of (JsNumber 2))
                 (address_text long_address))) <= 0
  /\ exception (js_open node linux_ok
                  [JsNumber 2; JsString long_address; JsNull; JsFunction 0]
                  fresh_world)
     = Some (type_error "From address must be at most 40 characters long")
  /\ trace (returned (js_open node linux_ok
                        [JsNumber 2; JsString long_address; JsNull;
                         JsFunction 0] fresh_world))
     = trace fresh_world
         ++ [EvThrow
               (type_error "From address must be at most 40 characters long")]
  /\ queued (returned (js_open node linux_ok
                         [JsNumber 2; JsString long_address; JsNull;
                          JsFunction 0] fresh_world))
     = queued fresh_world.
Proof.
  assert (Hlen : (40 < String.length long_address)%nat) by (vm_compute; lia).
  assert (Hr : fst (fst (inet_pton linux_ok (family_of (JsNumber 2))
                           (address_text long_address))) <= 0)
    by (vm_compute; discriminate).
  split; [exact napi_all_ok_node |]. split; [reflexivity |].
  split; [reflexivity |]. split; [exact Hlen |]. split; [exact Hr |].
  exact (open_refuses_a_long_address_whose_kept_text_does_not_parse node linux_ok
           (JsNumber 2) long_address JsNull (JsFunction 0) fresh_world
           napi_all_ok_node eq_refl eq_refl Hlen Hr).
Defined.

(** After a family and an address that pass their checks, [_open] is at
    the interface. *)
Lemma _open_at_interface rt pf family address interface handler w :
  napi_all_ok rt -> pending w = None ->
  family_ok pf family = true -> address_ok pf family address = true ->
  _open rt pf [family; address; interface; handler] w
  = body ( __data <- open_source_interface rt pf
                       (with_address pf family address
                          (with_family pf family (zero_open_data pf)))
                       interface ;;
           __data <- open_callback rt __data handler ;;
           open_queue rt __data ;;;
           ret None)%c (after_length_check address w).
Proof.
  intros Hok Hp Hfam Haddr.
  rewrite (_open_at_address rt pf family address interface handler w Hok Hfam).
  unfold body. unfold bind at 1.
  rewrite (address_accepted rt pf Hok) by assumption.
  unfold after_length_check.
  rewrite (_throw_type_error_ok rt Hok), Hp. reflexivity.
Qed.

(** X12: After a family and an address that pass their
    checks, an interface that is neither a string nor [null] nor
    [undefined] makes the call fail with the type error of line 442,
    whatever the handler is, and nothing else is done (when the N-API
    calls succeed). *)
Theorem open_wants_a_string_for_the_interface
    rt pf family address interface handler w :
  napi_all_ok rt -> pending w = None ->
  family_ok pf family = true -> address_ok pf family address = true ->
  address_too_long address = false ->
  typeof interface <> napi_null -> typeof interface <> napi_undefined ->
  typeof interface <> napi_string ->
  exception (js_open rt pf [family; address; interface; handler] w)
  = Some (type_error "Source interface must be a string, null or undefined")
  /\ returned (js_open rt pf [family; address; interface; handler] w)
     = thrown
         (type_error "Source interface must be a string, null or undefined")
         w.
Proof.
  intros Hok Hp Hfam Haddr Hshort Hn Hu Hs. apply exception_thrown.
  rewrite (_open_at_interface rt pf family address interface handler w
             Hok Hp Hfam Haddr).
  unfold after_length_check. rewrite Hshort.
  unfold body, bind. rewrite (open_source_interface_ok rt pf Hok).
  destruct interface; try (now contradiction Hn); try (now contradiction Hu);
    try (now contradiction Hs);
    rewrite (_throw_type_error_ok rt Hok), Hp; reflexivity.
Qed.

(** X12, at a concrete call. *)
Lemma open_wants_a_string_for_the_interface_witness :
  napi_all_ok node /\ pending fresh_world = None
  /\ family_ok linux_ok (JsNumber 2) = true
  /\ address_ok linux_ok (JsNumber 2) (JsString "127.0.0.1") = true
  /\ address_too_long (JsString "127.0.0.1") = false
  /\ typeof (JsNumber 1) <> napi_null
  /\ typeof (JsNumber 1) <> napi_undefined
  /\ typeof (JsNumber 1) <> napi_string
  /\ exception (js_open node linux_ok
                  [JsNumber 2; JsString "127.0.0.1"; JsNumber 1; JsFunction 0]
                  fresh_world)
     = Some (type_error "Source interface must be a string, null or undefined")
  /\ returned (js_open node linux_ok
                 [JsNumber 2; JsString "127.0.0.1"; JsNumber 1; JsFunction 0]
                 fresh_world)
     = thrown
         (type_error "Source interface must be a string, null or undefined")
         fresh_world.
Proof.
  assert (H1 : typeof (JsNumber 1) <> napi_null) by discriminate.
  assert (H2 : typeof (JsNumber 1) <> napi_undefined) by discriminate.
  assert (H3 : typeof (JsNumber 1) <> napi_string) by discriminate.
  split; [exact napi_all_ok_node |]. split; [reflexivity |].
  split; [reflexivity |]. split; [vm_compute; reflexivity |].
  split; [reflexivity |].
  split; [exact H1 |]. split; [exact H2 |]. split; [exact H3 |].
  exact (open_wants_a_string_for_the_interface node linux_ok (JsNumber 2)
           (JsString "127.0.0.1") (JsNumber 1) (JsFunction 0) fresh_world
           napi_all_ok_node eq_refl eq_refl eq_refl eq_refl H1 H2 H3).
Defined.

(** X13: The handler is checked last: after three arguments
    that pass their checks, a handler that is not a function makes the
    call fail with the type error of line 468, and nothing else is
    done: no reference is created, nothing is allocated or queued (when
    the N-API calls succeed). *)
Theorem open_wants_a_function_for_the_handler
    rt pf family address interface handler w :
  napi_all_ok rt -> pending w = None ->
  family_ok pf family = true -> address_ok pf family address = true ->
  address_too_long address = false ->
  interface_ok pf interface = true ->
  typeof handler <> napi_function ->
  exception (js_open rt pf [family; address; interface; handler] w)
  = Some (type_error "Specified callback is not a function")
  /\ returned (js_open rt pf [family; address; interface; handler] w)
     = thrown (type_error "Specified callback is not a function") w.
Proof.
  intros Hok Hp Hfam Haddr Hshort Hintf Hcb. apply exception_thrown.
  rewrite (_open_at_interface rt pf family address interface handler w
             Hok Hp Hfam Haddr).
  unfold after_length_check. rewrite Hshort.
  unfold body, bind.
  rewrite (interface_accepted rt pf Hok); [| assumption |].
  2: { rewrite interface_with_address, interface_with_family.
       cbn. unfold C.bzero. apply repeat_length. }
  rewrite (handler_refused rt Hok).
  2: { destruct handler; try reflexivity. now contradiction Hcb. }
  rewrite (_throw_type_error_ok rt Hok), Hp. reflexivity.
Qed.

(** X13, at a concrete call. *)
Lemma open_wants_a_function_for_the_handler_witness :
  napi_all_ok node /\ pending fresh_world = None
  /\ family_ok linux_ok (JsNumber 2) = true
  /\ address_ok linux_ok (JsNumber 2) JsNull = true
  /\ address_too_long JsNull = false
  /\ interface_ok linux_ok (JsString "lo") = true
  /\ typeof JsUndefined <> napi_function
  /\ exception (js_open node linux_ok
                  [JsNumber 2; JsNull; JsString "lo"; JsUndefined]
                  fresh_world)
     = Some (type_error "Specified callback is not a function")
  /\ returned (js_open node linux_ok
                 [JsNumber 2; JsNull; JsString "lo"; JsUndefined] fresh_world)
     = thrown (type_error "Specified callback is not a function") fresh_world.
Proof.
  assert (H : typeof JsUndefined <> napi_function) by discriminate.
  split; [exact napi_all_ok_node |]. split; [reflexivity |].
  split; [reflexivity |]. split; [reflexivity |]. split; [reflexivity |].
  split; [reflexivity |]. split; [exact H |].
  exact (open_wants_a_function_for_the_handler node linux_ok (JsNumber 2)
           JsNull (JsString "lo") JsUndefined fresh_world
           napi_all_ok_node eq_refl eq_refl eq_refl eq_refl eq_refl H).
Defined.

(* ------------------------------------------------------------------ *)
(** ** Cancelled work, and arguments that [_open] treats alike *)

(** X14: When the engine completes the work with a status
    other than [napi_ok], as it does for work that was cancelled, the
    worker thread has not run: no system call is made and no descriptor
    is opened; the request is freed and the handler is invoked once,
    with [undefined] for the descriptor and an error whose message is
    "NAPI error opening (status=N)" for the status N (when the N-API
    calls succeed). *)
Theorem open_reports_cancelled_work rt pf family address interface handler w :
  napi_all_ok rt -> work_status rt <> napi_ok -> pending w = None ->
  reaches_queue pf family address interface handler = true ->
  trace (settled (js_open rt pf [family; address; interface; handler] w))
  = trace (returned (js_open rt pf [family; address; interface; handler] w))
      ++ EvFree
      :: EvCallFunction
           (Some (JsError false None
                    (C.snprintf 128
                       ("NAPI error opening (status="
                          ++ C.fmt_d (work_status rt) ++ ")")) []))
           (Some JsUndefined)
      :: match handler_throws rt with
         | None => [EvDeleteReference; EvDeleteAsyncWork]
         | Some _ => []
         end
  /\ open_fds (settled (js_open rt pf [family; address; interface; handler] w))
     = open_fds w.
Proof.
  intros Hok Hst Hp Hreach. unfold js_open. cbn [settled returned].
  rewrite (_open_accepts rt pf Hok family address interface handler w Hp
             Hreach).
  cbn [fst]. unfold run_async_work.
  cbn [queued set_pending enqueued log set_queued].
  apply Z.eqb_neq in Hst. rewrite Hst.
  assert (Hcb : handler_ok handler = true)
    by (unfold reaches_queue in Hreach; now apply andb_prop in Hreach as [_ H]).
  rewrite (_open_complete_ok rt pf Hok);
    [| reflexivity | now apply well_formed_request_of].
  unfold completion_slots. rewrite Hst. cbn [negb].
  split.
  - destruct (handler_throws rt); cbn; rewrite <- ?app_assoc; reflexivity.
  - destruct (handler_throws rt); cbn;
      unfold after_length_check; destruct (address_too_long address);
      reflexivity.
Qed.

Lemma napi_all_ok_node_cancelled : napi_all_ok node_cancelled.
Proof. intros call line. reflexivity. Qed.

(** X14, at a work item that was cancelled. *)
Lemma open_reports_cancelled_work_witness :
  napi_all_ok node_cancelled /\ work_status node_cancelled <> napi_ok
  /\ pending fresh_world = None
  /\ reaches_queue linux_ok (JsNumber 2) JsNull JsNull (JsFunction 0) = true
  /\ trace (settled (js_open node_cancelled linux_ok
                       [JsNumber 2; JsNull; JsNull; JsFunction 0]
                       fresh_world))
     = [EvCreateReference; EvMalloc; EvCreateAsyncWork; EvQueueAsyncWork;
        EvFree;
        EvCallFunction
          (Some (JsError false None "NAPI error opening (status=11)" []))
          (Some JsUndefined);
        EvDeleteReference; EvDeleteAsyncWork]
  /\ open_fds (settled (js_open node_cancelled linux_ok
                          [JsNumber 2; JsNull; JsNull; JsFunction 0]
                          fresh_world))
     = open_fds fresh_world.
Proof.
  assert (H : work_status node_cancelled <> napi_ok) by discriminate.
  split; [exact napi_all_ok_node_cancelled |]. split; [exact H |].
  split; [reflexivity |]. split; [reflexivity |].
  split; [vm_compute; reflexivity |].
  exact (proj2 (open_reports_cancelled_work node_cancelled linux_ok
                  (JsNumber 2) JsNull JsNull (JsFunction 0) fresh_world
                  napi_all_ok_node_cancelled H eq_refl eq_refl)).
Defined.

(** [_open] on four arguments, whatever the runtime answers. *)
Lemma _open_four rt pf family address interface handler w :
  _open rt pf [family; address; interface; handler] w
  = if napi_result rt "napi_get_cb_info" 360 =? napi_ok
    then body ( ' (__sa_family, __data) <-
                  open_socket_family rt pf (zero_open_data pf) family ;;
                __data <- open_from_address rt pf __sa_family __data address ;;
                __data <- open_source_interface rt pf __data interface ;;
                __data <- open_callback rt __data handler ;;
                open_queue rt __data ;;;
                ret None)%c w
    else (_napi_call_error rt (napi_result rt "napi_get_cb_info" 360)
            "napi_get_cb_info" 360 w, None).
Proof.
  unfold _open, NAPI_CALL_VALUE, body.
  unfold bind at 1. unfold NAPI_CALL, napi_get_cb_info.
  cbn [List.length firstn app repeat].
  destruct (napi_result rt "napi_get_cb_info" 360 =? napi_ok); reflexivity.
Qed.

Lemma to_int32_wraps n k : C.to_int32 (n + k * 2 ^ 32) = C.to_int32 n.
Proof.
  unfold C.to_int32. f_equal.
  replace (n + k * 2 ^ 32 + 2 ^ 31) with (n + 2 ^ 31 + k * 2 ^ 32) by lia.
  apply Z_mod_plus_full.
Qed.

Lemma open_socket_family_wraps rt pf d n k w :
  open_socket_family rt pf d (JsNumber (n + k * 2 ^ 32)) w
  = open_socket_family rt pf d (JsNumber n) w.
Proof.
  unfold open_socket_family, napi_get_value_int32, napi_typeof.
  cbn [typeof]. rewrite to_int32_wraps. reflexivity.
Qed.

(** X15: The family is read as a 32-bit integer: whatever
    the runtime answers, two numbers that differ by a multiple of 2^32
    are the same family to [open], which does with one exactly what it
    does with the other. *)
Theorem open_reads_the_family_modulo_2_32
    rt pf n k address interface handler w :
  js_open rt pf [JsNumber (n + k * 2 ^ 32); address; interface; handler] w
  = js_open rt pf [JsNumber n; address; interface; handler] w.
Proof.
  assert (H : _open rt pf [JsNumber (n + k * 2 ^ 32); address; interface;
                           handler] w
              = _open rt pf [JsNumber n; address; interface; handler] w).
  { rewrite !_open_four.
    destruct (napi_result rt "napi_get_cb_info" 360 =? napi_ok);
      [| reflexivity].
    unfold body. rewrite !(bind_unfold _ _ w), open_socket_family_wraps.
    reflexivity. }
  unfold js_open. rewrite H. reflexivity.
Qed.

Lemma list_byte_of_string_app s t :
  list_byte_of_string (s ++ t)%string
  = (list_byte_of_string s ++ list_byte_of_string t)%list.
Proof.
  unfold list_byte_of_string. rewrite <- map_app. f_equal.
  induction s as [| c s IH]; [reflexivity |].
  change (String c s ++ t)%string with (String c (s ++ t)%string).
  cbn [list_ascii_of_string app]. now rewrite IH.
Qed.

(** A C string ends at its first NUL. *)
Lemma c_str_bytes_nul l rest :
  C.c_str_bytes (l ++ x00 :: rest) = C.c_str_bytes l.
Proof.
  induction l as [| b l IH]; cbn; [reflexivity |].
  destruct (Byte.eqb b x00); [reflexivity | now rewrite IH].
Qed.

Lemma c_str_copy_latin1 s buf n :
  C.c_str (fst (copy_latin1 s buf n))
  = string_of_list_byte
      (C.c_str_bytes (firstn (n - 1) (list_byte_of_string s))).
Proof. unfold C.c_str, copy_latin1. cbn [fst]. now rewrite c_str_bytes_nul. Qed.

(** What comes after a NUL character in an address does not reach
    [inet_pton]. *)
Lemma address_text_nul s t :
  address_text (s ++ String Ascii.zero t)%string = address_text s.
Proof.
  unfold address_text. rewrite !c_str_copy_latin1. f_equal.
  rewrite list_byte_of_string_app.
  change (list_byte_of_string (String Ascii.zero t))
    with (x00 :: list_byte_of_string t).
  rewrite firstn_app, length_list_byte_of_string.
  destruct (Nat.leb_spec (42 - 1) (String.length s)) as [Hle | Hgt].
  - replace (42 - 1 - String.length s)%nat with 0%nat by lia.
    cbn [firstn]. now rewrite app_nil_r.
  - rewrite (firstn_all2 (list_byte_of_string s))
      by (rewrite length_list_byte_of_string; lia).
    destruct (42 - 1 - String.length s)%nat eqn:E; [lia |].
    cbn [firstn]. apply c_str_bytes_nul.
Qed.

Lemma length_append s t :
  String.length (s ++ t)%string = (String.length s + String.length t)%nat.
Proof.
  induction s as [| c s IH]; [reflexivity |].
  change (String c s ++ t)%string with (String c (s ++ t)%string).
  cbn [String.length Nat.add]. now rewrite IH.
Qed.

Lemma open_from_address_nul rt pf af d s t w :
  (String.length s + 1 + String.length t <= 40)%nat ->
  open_from_address rt pf af d (JsString (s ++ String Ascii.zero t)%string) w
  = open_from_address rt pf af d (JsString s) w.
Proof.
  intros Hlen.
  pose proof (address_text_nul s t) as Htext. unfold address_text in Htext.
  pose proof (copy_latin1_size (s ++ String Ascii.zero t)%string (C.bzero 42) 42)
    as Hsz'.
  pose proof (copy_latin1_size s (C.bzero 42) 42) as Hsz.
  rewrite length_append in Hsz'. cbn [String.length] in Hsz'.
  unfold open_from_address, NAPI_CALL_VALUE, NAPI_CALL, napi_typeof,
    napi_get_value_string_latin1.
  cbn [typeof null_or_undefined valuetype_eqb orb negb].
  rewrite !(bind_unfold _ _ w).
  destruct (napi_result rt "napi_typeof" 399 =? napi_ok); [| reflexivity].
  change (null_or_undefined napi_string) with false.
  change (valuetype_eqb napi_string napi_string) with true.
  cbn [negb]. cbv iota.
  rewrite !(bind_unfold _ _ w).
  destruct (napi_result rt "napi_get_value_string_latin1" 412 =? napi_ok)
    eqn:Hst; [| rewrite Hst; reflexivity].
  destruct (copy_latin1 (s ++ String Ascii.zero t)%string (C.bzero 42) 42)
    as [buf' size'].
  destruct (copy_latin1 s (C.bzero 42) 42) as [buf size].
  cbn [fst snd] in *. rewrite Hst.
  replace (40 <? size')%nat with false by (symmetry; apply Nat.ltb_ge; lia).
  replace (40 <? size)%nat with false by (symmetry; apply Nat.ltb_ge; lia).
  rewrite Htext. reflexivity.
Qed.

(** X16: An address string is read as a C string: whatever the
    runtime answers, what follows a NUL character in it is ignored, and
    [open] does with the whole string, when it has at most 40
    characters, exactly what it does with the part before the NUL. *)
Theorem open_reads_the_address_up_to_a_nul
    rt pf family s t interface handler w :
  (String.length s + 1 + String.length t <= 40)%nat ->
  address_text (s ++ String Ascii.zero t)%string = address_text s
  /\ js_open rt pf [family; JsString (s ++ String Ascii.zero t)%string; interface;
                    handler] w
     = js_open rt pf [family; JsString s; interface; handler] w.
Proof.
  intros Hlen. split; [apply address_text_nul |].
  assert (H : _open rt pf [family; JsString (s ++ String Ascii.zero t)%string;
                           interface; handler] w
              = _open rt pf [family; JsString s; interface; handler] w).
  { rewrite !_open_four.
    destruct (napi_result rt "napi_get_cb_info" 360 =? napi_ok);
      [| reflexivity].
    unfold body. rewrite !(bind_unfold _ _ w).
    destruct (open_socket_family rt pf (zero_open_data pf) family w)
      as [w1 [[af d] | r]]; [| reflexivity].
    rewrite !(bind_unfold _ _ w1), (open_from_address_nul _ _ _ _ _ _ _ Hlen).
    reflexivity. }
  unfold js_open. rewrite H. reflexivity.
Qed.

(** X16, the address 127.0.0.1 followed by a NUL and more: the call is
    accepted and the request binds to 127.0.0.1. *)
Lemma open_reads_the_address_up_to_a_nul_witness :
  (String.length "127.0.0.1" + 1 + String.length ".example.org" <= 40)%nat
  /\ exception (js_open node linux_ok
                  [JsNumber 2;
                   JsString ("127.0.0.1" ++ String Ascii.zero ".example.org")%string;
                   JsNull; JsFunction 0] fresh_world)
     = None
  /\ js_open node linux_ok
       [JsNumber 2;
        JsString ("127.0.0.1" ++ String Ascii.zero ".example.org")%string;
        JsNull; JsFunction 0] fresh_world
     = js_open node linux_ok
         [JsNumber 2; JsString "127.0.0.1"; JsNull; JsFunction 0]
         fresh_world.
Proof.
  assert (Hlen : (String.length "127.0.0.1" + 1
                  + String.length ".example.org" <= 40)%nat)
    by (vm_compute; lia).
  split; [exact Hlen |]. split; [vm_compute; reflexivity |].
  exact (proj2 (open_reads_the_address_up_to_a_nul node linux_ok (JsNumber 2)
                  "127.0.0.1" ".example.org" JsNull (JsFunction 0)
                  fresh_world Hlen)).
Defined.

(* ------------------------------------------------------------------ *)
(** ** When the work cannot be queued *)

Lemma napi_all_ok_all_ok_of rt : napi_all_ok (all_ok_of rt).
Proof. intros call line. reflexivity. Qed.

Section One_failure.

Variable rt : runtime.
Variable pf : platform.
Variable line : Z.
Hypothesis Hline : line = 488 \/ line = 498.
Hypothesis Hrest : napi_ok_except rt line.

(** The checks of [_open] make none of their N-API calls at lines 488
    and 498: they go as in the runtime in which every call succeeds. *)
Ltac same_answers :=
  repeat progress unfold NAPI_CALL_VALUE, NAPI_CALL, reject,
    _throw_type_error, _throw_system_error, _system_error, _napi_call_error;
  rewrite !Hrest by lia; reflexivity.

Lemma open_socket_family_same d v w :
  open_socket_family rt pf d v w = open_socket_family (all_ok_of rt) pf d v w.
Proof. unfold open_socket_family. same_answers. Qed.

Lemma open_from_address_same af d v w :
  open_from_address rt pf af d v w
  = open_from_address (all_ok_of rt) pf af d v w.
Proof. unfold open_from_address. same_answers. Qed.

Lemma open_source_interface_same d v w :
  open_source_interface rt pf d v w
  = open_source_interface (all_ok_of rt) pf d v w.
Proof. unfold open_source_interface. same_answers. Qed.

Lemma open_callback_same d v w :
  open_callback rt d v w = open_callback (all_ok_of rt) d v w.
Proof. unfold open_callback. same_answers. Qed.

Hypothesis Hfail : forall call, napi_result rt call line <> napi_ok.

(** The error thrown for the N-API call that failed. *)
Lemma _napi_call_error_throws st c w :
  st <> napi_ok -> pending w = None ->
  exists m, _napi_call_error rt st c line w
            = thrown (JsError false None m []) w.
Proof.
  intros Hst Hp. unfold _napi_call_error, napi_is_exception_pending,
    napi_throw_error, napi_throw.
  apply Z.eqb_neq in Hst. rewrite Hst, !Hrest by lia. rewrite Hp.
  cbn. eexists. reflexivity.
Qed.

Lemma open_queue_fails d w :
  pending w = None ->
  exists e,
    open_queue rt d w
    = (thrown e
         (if line =? 498
          then log EvCreateAsyncWork (log EvMalloc w)
          else log EvMalloc w),
       inr None).
Proof.
  intros Hp. unfold open_queue, NAPI_CALL_VALUE.
  rewrite (bind_unfold _ _ w). unfold NAPI_CALL at 1.
  unfold napi_create_object. rewrite Hrest by lia. cbn [Z.eqb napi_ok].
  rewrite (bind_unfold _ _ w). unfold NAPI_CALL at 1.
  unfold napi_create_string_latin1. rewrite Hrest by lia. cbn [Z.eqb napi_ok].
  rewrite (bind_unfold _ _ w). unfold act at 1.
  rewrite (bind_unfold _ _ (log EvMalloc w)). unfold NAPI_CALL at 1.
  unfold napi_create_async_work.
  destruct Hline as [E | E].
  - assert (Hb : (line =? 498) = false) by (rewrite E; reflexivity).
    rewrite Hb, <- E.
    pose proof (Hfail "napi_create_async_work") as Hst.
    destruct (_napi_call_error_throws _ "napi_create_async_work"
                (log EvMalloc w) Hst Hp) as (m & Hm).
    apply Z.eqb_neq in Hst. rewrite Hst, Hst, Hm.
    eexists. reflexivity.
  - assert (Hb : (line =? 498) = true) by (rewrite E; reflexivity).
    rewrite Hb, Hrest by lia. cbn [Z.eqb napi_ok].
    rewrite (bind_unfold _ _ (log EvCreateAsyncWork (log EvMalloc w))).
    unfold NAPI_CALL at 1. unfold napi_queue_async_work. rewrite <- E.
    pose proof (Hfail "napi_queue_async_work") as Hst.
    destruct (_napi_call_error_throws _ "napi_queue_async_work"
                (log EvCreateAsyncWork (log EvMalloc w)) Hst Hp) as (m & Hm).
    apply Z.eqb_neq in Hst. rewrite Hst, Hst, Hm.
    eexists. reflexivity.
Qed.

Lemma _open_allocates_and_stops family address interface handler w :
  pending w = None ->
  reaches_queue pf family address interface handler = true ->
  address_too_long address = false ->
  exists e,
    _open rt pf [family; address; interface; handler] w
    = (thrown e
         (if line =? 498
          then log EvCreateAsyncWork (log EvMalloc (log EvCreateReference w))
          else log EvMalloc (log EvCreateReference w)),
       None).
Proof.
  intros Hp Hreach Hshort.
  pose proof (napi_all_ok_all_ok_of rt) as Hok.
  unfold reaches_queue in Hreach.
  apply andb_prop in Hreach as [H Hcb]. apply andb_prop in H as [H Hintf].
  apply andb_prop in H as [Hfam Haddr].
  rewrite _open_four, Hrest by lia. cbn [Z.eqb napi_ok].
  unfold body. rewrite (bind_unfold _ _ w).
  rewrite open_socket_family_same, (family_accepted _ pf Hok) by assumption.
  rewrite (bind_unfold _ _ w).
  rewrite open_from_address_same, (address_accepted _ pf Hok) by assumption.
  rewrite Hshort.
  rewrite (bind_unfold _ _ w).
  rewrite open_source_interface_same, (interface_accepted _ pf Hok);
    [| assumption |].
  2: { rewrite interface_with_address, interface_with_family.
       cbn. unfold C.bzero. apply repeat_length. }
  rewrite (bind_unfold _ _ w).
  rewrite open_callback_same, (handler_accepted _ Hok) by assumption.
  rewrite (bind_unfold _ _ (log EvCreateReference w)).
  match goal with |- context [open_queue rt ?d ?w1] =>
    destruct (open_queue_fails d w1 Hp) as (e & ->) end.
  exists e. reflexivity.
Qed.

End One_failure.

(** X17: When [napi_create_async_work] (line 488) or
    [napi_queue_async_work] (line 498) fails, the other N-API calls
    succeeding, a call whose arguments pass every check fails with the
    error thrown for that N-API call and queues nothing; and what it
    created by then is never released: to the end of the event loop the
    only events are the reference to the handler created, the request
    allocated, the async work created if line 498 was reached, and the
    throw. The reference is not deleted, the request is not freed, the
    async work is not deleted. *)
Theorem open_leaks_when_the_work_is_not_queued
    rt pf line family address interface handler w :
  line = 488 \/ line = 498 ->
  napi_ok_except rt line ->
  (forall call, napi_result rt call line <> napi_ok) ->
  pending w = None -> queued w = None ->
  reaches_queue pf family address interface handler = true ->
  address_too_long address = false ->
  exists e,
    exception (js_open rt pf [family; address; interface; handler] w) = Some e
    /\ queued (returned (js_open rt pf [family; address; interface; handler]
                           w)) = None
    /\ trace (settled (js_open rt pf [family; address; interface; handler] w))
       = trace w
           ++ [EvCreateReference; EvMalloc]
           ++ (if line =? 498 then [EvCreateAsyncWork] else [])
           ++ [EvThrow e].
Proof.
  intros Hline Hrest Hfail Hp Hq Hreach Hshort.
  destruct (_open_allocates_and_stops rt pf line Hline Hrest Hfail
              family address interface handler w Hp Hreach Hshort)
    as (e & He).
  exists e. unfold js_open. rewrite He. cbn [exception returned settled fst].
  unfold run_async_work.
  destruct (line =? 498); cbn; rewrite Hq; cbn; rewrite <- ?app_assoc;
    repeat split.
Qed.

Lemma napi_ok_except_node_failing_at line :
  napi_ok_except (node_failing_at line) line
  /\ forall call, napi_result (node_failing_at line) call line <> napi_ok.
Proof.
  split.
  - intros call l Hl. cbn. destruct (Z.eqb_spec l line); [contradiction |].
    reflexivity.
  - intros call. cbn. rewrite Z.eqb_refl. discriminate.
Qed.

(** X17, where [napi_queue_async_work] fails. *)
Lemma open_leaks_when_the_work_is_not_queued_witness :
  (498 = 488 \/ 498 = 498)
  /\ napi_ok_except (node_failing_at 498) 498
  /\ pending fresh_world = None /\ queued fresh_world = None
  /\ reaches_queue linux_ok (JsNumber 2) JsNull JsNull (JsFunction 0) = true
  /\ address_too_long JsNull = false
  /\ trace (settled (js_open (node_failing_at 498) linux_ok
                       [JsNumber 2; JsNull; JsNull; JsFunction 0]
                       fresh_world))
     = [EvCreateReference; EvMalloc; EvCreateAsyncWork;
        EvThrow (JsError false None
                   "Unknown Error (napi_queue_async_work, line=498)" [])]
  /\ exists e,
       exception (js_open (node_failing_at 498) linux_ok
                    [JsNumber 2; JsNull; JsNull; JsFunction 0] fresh_world)
       = Some e
       /\ queued (returned (js_open (node_failing_at 498) linux_ok
                              [JsNumber 2; JsNull; JsNull; JsFunction 0]
                              fresh_world)) = None
       /\ trace (settled (js_open (node_failing_at 498) linux_ok
                            [JsNumber 2; JsNull; JsNull; JsFunction 0]
                            fresh_world))
          = trace fresh_world
              ++ [EvCreateReference; EvMalloc]
              ++ (if 498 =? 498 then [EvCreateAsyncWork] else [])
              ++ [EvThrow e].
Proof.
  destruct (napi_ok_except_node_failing_at 498) as [H1 H2].
  split; [right; reflexivity |]. split; [exact H1 |].
  split; [reflexivity |]. split; [reflexivity |]. split; [reflexivity |].
  split; [reflexivity |]. split; [vm_compute; reflexivity |].
  exact (open_leaks_when_the_work_is_not_queued (node_failing_at 498) linux_ok
           498 (JsNumber 2) JsNull JsNull (JsFunction 0) fresh_world
           (or_intror eq_refl) H1 H2 eq_refl eq_refl eq_refl eq_refl).
Defined.

(* ------------------------------------------------------------------ *)
(** ** [init] *)

Lemma get_set_property name v props :
  get_property name (set_property name v props) = Some v.
Proof.
  induction props as [| [k x] rest IH]; cbn.
  - now rewrite String.eqb_refl.
  - destruct (String.eqb k name) eqn:E; cbn; rewrite E; [reflexivity | exact IH].
Qed.

Lemma get_set_other_property name other v props :
  String.eqb other name = false ->
  get_property name (set_property other v props) = get_property name props.
Proof.
  intros Hne. induction props as [| [k x] rest IH]; cbn.
  - now rewrite Hne.
  - destruct (String.eqb k other) eqn:E; cbn.
    + apply String.eqb_eq in E. subst k. now rewrite Hne.
    + destruct (String.eqb k name); [reflexivity | exact IH].
Qed.

(** What [init] makes of the properties of [exports]. *)
Lemma exports_properties pf version props :
  get_property "version" (written pf version 4 props)
  = Some (JsString version)
  /\ get_property "AF_INET" (written pf version 4 props)
     = Some (JsNumber (C.to_uint32 (AF_INET pf)))
  /\ get_property "AF_INET6" (written pf version 4 props)
     = Some (JsNumber (C.to_uint32 (AF_INET6 pf)))
  /\ get_property "open" (written pf version 4 props)
     = Some (JsFunction _open_callback)
  /\ forall name,
       String.eqb "version" name = false -> String.eqb "AF_INET" name = false ->
       String.eqb "AF_INET6" name = false -> String.eqb "open" name = false ->
       get_property name (written pf version 4 props)
       = get_property name props.
Proof.
  unfold written, module_exports. cbn [firstn fold_left fst snd].
  repeat split.
  - rewrite !get_set_other_property by reflexivity. apply get_set_property.
  - rewrite !get_set_other_property by reflexivity. apply get_set_property.
  - rewrite !get_set_other_property by reflexivity. apply get_set_property.
  - apply get_set_property.
  - intros name H1 H2 H3 H4. now rewrite !get_set_other_property.
Qed.

Section Init_proofs.

Variable rt : runtime.
Variable pf : platform.
Variable version : string.

Local Abbreviation filled := (init_exports pf version).

Lemma init_ok exports w :
  napi_all_ok rt -> pending w = None -> frozen exports = false ->
  init rt pf version exports w = (w, mk_init_outcome (filled exports) true).
Proof.
  intros Hok Hp Hf. unfold init, body.
  repeat (rewrite (bind_unfold _ _ w), (NAPI_CALL_ok rt Hok);
          unfold napi_create_string_latin1, napi_set_named_property_of,
            napi_create_uint32, napi_create_function, napi_object_freeze;
          rewrite ?Hp, ?Hf;
          cbn [Z.eqb napi_ok frozen properties]).
  reflexivity.
Qed.

(** The object is left with the first [k] exports written, for some [k],
    and not frozen. *)
Ltac some_written :=
  first [ exists 0%nat; split; [lia | reflexivity]
        | exists 1%nat; split; [lia | reflexivity]
        | exists 2%nat; split; [lia | reflexivity]
        | exists 3%nat; split; [lia | reflexivity]
        | exists 4%nat; split; [lia | reflexivity] ].

(** Whatever the runtime answers, [init] only throws, and it returns
    [exports] only when every call succeeded; when it returns NULL the
    object holds the exports written before the call that failed. *)
Lemma init_result exports w :
  frozen exports = false ->
  throws_only w (fst (init rt pf version exports w))
  /\ ((returns_exports (snd (init rt pf version exports w)) = false
       /\ exists k,
            (k <= 4)%nat
            /\ exports_object (snd (init rt pf version exports w))
               = mk_js_object (written pf version k (properties exports))
                   false)
      \/ (snd (init rt pf version exports w)
          = mk_init_outcome (filled exports) true
          /\ fst (init rt pf version exports w) = w)).
Proof.
  destruct exports as [props fr]. cbn [frozen properties]. intros ->.
  unfold init.
  apply (wp_body _ (fun w' r =>
           throws_only w w'
           /\ ((returns_exports r = false
                /\ exists k,
                     (k <= 4)%nat
                     /\ exports_object r
                        = mk_js_object (written pf version k props) false)
               \/ (r = mk_init_outcome (filled (mk_js_object props false)) true
                   /\ w' = w)))).
  repeat match goal with
    | |- wp (bind _ _) _ _ => apply wp_bind
    | |- wp (ret _) _ _ => apply wp_ret
    | |- wp (NAPI_CALL _ _ _ _ _) _ _ =>
        apply wp_NAPI_CALL; intros w' st a Hf';
        unfold napi_create_string_latin1, napi_set_named_property_of,
          napi_create_uint32, napi_create_function, napi_object_freeze in Hf';
        cbv beta iota in Hf'; cbn [frozen properties] in Hf';
        repeat match type of Hf' with
               | context [match ?x with _ => _ end] => destruct x eqn:?
               end;
        injection Hf' as <- <- <-;
        (split; [let H := fresh "Hst" in
                 intros H; try discriminate H;
                 try match goal with
                     | E : (_ =? napi_ok) = false |- _ =>
                         rewrite H in E; discriminate E
                     end
                | intros _ w'' Hw''; split;
                  [assumption
                  | left; split; [reflexivity | some_written]]])
    end.
  split; [apply throws_only_refl |]. right. split; reflexivity.
Qed.

(** A call that makes [init] return NULL leaves an exception pending
    when the runtime lets the addon throw. *)
Lemma init_reports exports w :
  returns_exports (snd (init rt pf version exports w)) = false ->
  can_throw rt -> pending (fst (init rt pf version exports w)) <> None.
Proof.
  unfold init.
  apply (wp_body _ (fun w' r =>
           returns_exports r = false -> can_throw rt -> pending w' <> None)).
  repeat match goal with
    | |- wp (bind _ _) _ _ => apply wp_bind
    | |- wp (ret _) _ _ => apply wp_ret
    | |- wp (NAPI_CALL _ _ _ _ _) _ _ =>
        apply wp_NAPI_CALL_raise; intros ? ? ? _;
        (split; [intros _
                | let H := fresh "Hrep" in intros _ ? _ H _; exact H])
    end.
  cbv beta iota. cbn [returns_exports]. discriminate.
Qed.

End Init_proofs.

(** X18: When the N-API calls succeed and the [exports] object it is
    given is not frozen, [init] gives the module its four exports and
    freezes it: it returns [exports], and leaves the object frozen, with
    [version] the version string of the build, [AF_INET] and [AF_INET6]
    the constants of the platform, [open] the native function [_open],
    and every other property as it was; it throws nothing. *)
Theorem init_fills_and_freezes_exports rt pf version exports w :
  napi_all_ok rt -> pending w = None -> frozen exports = false ->
  exists exports',
    init rt pf version exports w = (w, mk_init_outcome exports' true)
    /\ frozen exports' = true
    /\ get_property "version" (properties exports') = Some (JsString version)
    /\ get_property "AF_INET" (properties exports')
       = Some (JsNumber (C.to_uint32 (AF_INET pf)))
    /\ get_property "AF_INET6" (properties exports')
       = Some (JsNumber (C.to_uint32 (AF_INET6 pf)))
    /\ get_property "open" (properties exports')
       = Some (JsFunction _open_callback)
    /\ forall name,
         String.eqb "version" name = false ->
         String.eqb "AF_INET" name = false ->
         String.eqb "AF_INET6" name = false ->
         String.eqb "open" name = false ->
         get_property name (properties exports')
         = get_property name (properties exports).
Proof.
  intros Hok Hp Hf.
  rewrite (init_ok rt pf version exports w Hok Hp Hf).
  eexists. split; [reflexivity |]. split; [reflexivity |].
  cbn [properties init_exports]. apply exports_properties.
Qed.

(** X18, an [exports] that already has a property [version]: it is
    overwritten, and the property [name] is kept. *)
Lemma init_fills_and_freezes_exports_witness :
  napi_all_ok node /\ pending fresh_world = None
  /\ frozen (mk_js_object [("version"%string, JsNumber 1);
                           ("name"%string, JsString "ping")] false) = false
  /\ init node linux_ok "1.2.3"
       (mk_js_object [("version"%string, JsNumber 1);
                      ("name"%string, JsString "ping")] false) fresh_world
     = (fresh_world,
        mk_init_outcome
          (mk_js_object
             [("version"%string, JsString "1.2.3");
              ("name"%string, JsString "ping");
              ("AF_INET"%string, JsNumber 2);
              ("AF_INET6"%string, JsNumber 10);
              ("open"%string, JsFunction _open_callback)] true)
          true)
  /\ exists exports',
       init node linux_ok "1.2.3"
         (mk_js_object [("version"%string, JsNumber 1);
                        ("name"%string, JsString "ping")] false) fresh_world
       = (fresh_world, mk_init_outcome exports' true)
       /\ frozen exports' = true
       /\ get_property "version" (properties exports')
          = Some (JsString "1.2.3").
Proof.
  split; [exact napi_all_ok_node |]. split; [reflexivity |].
  split; [reflexivity |]. split; [vm_compute; reflexivity |].
  destruct (init_fills_and_freezes_exports node linux_ok "1.2.3"
              (mk_js_object [("version"%string, JsNumber 1);
                             ("name"%string, JsString "ping")] false)
              fresh_world napi_all_ok_node eq_refl eq_refl)
    as (e & H1 & H2 & H3 & _).
  exists e. auto.
Defined.

(** X19: Given an [exports] object that is not frozen, and whatever the
    runtime answers. Apart from writing to the object, [init] only
    throws. It returns [exports] only after every one of its calls
    succeeded, and then the object is frozen and holds the four exports,
    and nothing was thrown. Otherwise it returns NULL, with an exception
    pending when the runtime lets the addon throw, and the object is
    left as the calls before the failure made it: not frozen, with the
    first [k] of the four exports written, for some [k]. *)
Theorem init_returns_only_filled_exports rt pf version exports w :
  frozen exports = false ->
  throws_only w (fst (init rt pf version exports w))
  /\ if returns_exports (snd (init rt pf version exports w))
     then
       fst (init rt pf version exports w) = w
       /\ frozen (exports_object (snd (init rt pf version exports w))) = true
       /\ get_property "version"
            (properties (exports_object (snd (init rt pf version exports w))))
          = Some (JsString version)
       /\ get_property "AF_INET"
            (properties (exports_object (snd (init rt pf version exports w))))
          = Some (JsNumber (C.to_uint32 (AF_INET pf)))
       /\ get_property "AF_INET6"
            (properties (exports_object (snd (init rt pf version exports w))))
          = Some (JsNumber (C.to_uint32 (AF_INET6 pf)))
       /\ get_property "open"
            (properties (exports_object (snd (init rt pf version exports w))))
          = Some (JsFunction _open_callback)
     else
       (can_throw rt ->
        pending (fst (init rt pf version exports w)) <> None)
       /\ exists k,
            (k <= 4)%nat
            /\ exports_object (snd (init rt pf version exports w))
               = mk_js_object (written pf version k (properties exports))
                   false.
Proof.
  intros Hf.
  destruct (init_result rt pf version exports w Hf) as (Hthrows & Hres).
  split; [exact Hthrows |].
  pose proof (init_reports rt pf version exports w) as Hrep.
  destruct Hres as [(Hnull & Hk) | (Hsome & Hw)].
  - rewrite Hnull in *. split; [exact (Hrep eq_refl) | exact Hk].
  - rewrite Hsome. cbn [returns_exports exports_object].
    split; [exact Hw |]. split; [reflexivity |].
    cbn [properties init_exports].
    destruct (exports_properties pf version (properties exports))
      as (H1 & H2 & H3 & H4 & _).
    auto.
Qed.

(** X19, where the third [napi_set_named_property] (line 518) fails:
    [init] returns NULL with the error thrown for it, and leaves
    [version] and [AF_INET] written to the object. *)
Lemma init_returns_only_filled_exports_witness :
  frozen (mk_js_object [] false) = false
  /\ init (node_failing_at 518) linux_ok "1.2.3" (mk_js_object [] false)
       fresh_world
     = (thrown (JsError false None
                  "Unknown Error (napi_set_named_property, line=518)" [])
          fresh_world,
        mk_init_outcome
          (mk_js_object [("version"%string, JsString "1.2.3");
                         ("AF_INET"%string, JsNumber 2)] false)
          false)
  /\ throws_only fresh_world
       (fst (init (node_failing_at 518) linux_ok "1.2.3"
               (mk_js_object [] false) fresh_world)).
Proof.
  split; [reflexivity |]. split; [vm_compute; reflexivity |].
  exact (proj1 (init_returns_only_filled_exports (node_failing_at 518)
                  linux_ok "1.2.3" (mk_js_object [] false) fresh_world
                  eq_refl)).
Defined.

(* ------------------------------------------------------------------ *)
(** ** The completion step, whatever the runtime answers *)

Lemma run_order_no_syscall s s' tr :
  run_order s tr = Some s' -> count_events is_syscall tr = 0%nat.
Proof.
  revert s. induction tr as [| e tr IH]; intros s H; [reflexivity |].
  cbn in H. destruct (step s e) as [s1 |] eqn:He; [| discriminate].
  unfold count_events in *. cbn [filter].
  destruct e, s; cbn in He; try discriminate; exact (IH s1 H).
Qed.

(** X20: The completion step makes no system call:
    whatever the runtime answers and whatever the outcome of the
    request, it closes no descriptor and leaves the set of open
    descriptors as it was. A socket the worker opened is still open
    after the step, also when the handler could not be invoked or
    threw. *)
Theorem completion_makes_no_system_call rt pf st d w :
  count_events is_syscall (trace (_open_complete rt pf st d w))
  = count_events is_syscall (trace w)
  /\ open_fds (_open_complete rt pf st d w) = open_fds w.
Proof.
  destruct (_open_complete_frame rt pf st d w)
    as (s & _ & Hfds & tr & Htr & Hs).
  split; [| exact Hfds].
  rewrite Htr, count_events_app.
  change (EvFree :: tr) with ([EvFree] ++ tr).
  rewrite count_events_app, (run_order_no_syscall Freed s tr Hs).
  cbn. lia.
Qed.

Section Slots.

Variable rt : runtime.
Variable pf : platform.
Hypothesis Hcan : can_throw rt.

Local Abbreviation quiet := no_null_slot.

Lemma quiet_throws w0 w1 w2 :
  quiet w0 w1 -> throws_only w1 w2 -> quiet w0 w2.
Proof.
  unfold no_null_slot. intros H (_ & _ & tr & -> & Htr).
  rewrite count_events_app, H.
  rewrite (count_events_none is_throw null_slot tr); [lia | | exact Htr].
  intros e He. destruct e; cbn in *; congruence.
Qed.

Lemma quiet_log w0 w1 e :
  quiet w0 w1 -> null_slot e = false -> quiet w0 (log e w1).
Proof.
  unfold no_null_slot. intros H He. cbn [trace log].
  rewrite count_events_app, H. unfold count_events at 2. cbn [filter].
  rewrite He. cbn. lia.
Qed.

Lemma _open_complete_quiet st d w :
  quiet w (_open_complete rt pf st d w).
Proof.
  unfold _open_complete.
  apply (wp_body _ (fun w' (_ : unit) => quiet w w')).
  assert (H0 : quiet w (log EvFree w)).
  { apply quiet_log; [reflexivity | reflexivity]. }
  assert (Hleave : forall w1 w2 (r : unit + unit),
            quiet w w1 -> throws_only w1 w2 ->
            match r with inl _ | inr _ => quiet w w2 end).
  { intros w1 w2 r H1 H2. destruct r; exact (quiet_throws _ _ _ H1 H2). }
  apply wp_bind, wp_act. generalize dependent (log EvFree w). intros w1 H1.
  unfold NAPI_CALL_VOID.
  apply wp_bind, wp_NAPI_CALL. intros w' st' a Hf.
  unfold napi_get_null in Hf. injection Hf as <- <- <-.
  split; [intros _ | intros _ w'' Hw''; exact (Hleave _ _ (inr tt) H1 Hw'')].
  apply wp_bind, wp_NAPI_CALL. intros w' st' a Hf.
  unfold napi_get_undefined in Hf. injection Hf as <- <- <-.
  split; [intros _ | intros _ w'' Hw''; exact (Hleave _ _ (inr tt) H1 Hw'')].
  apply wp_bind.
  (* the slots: none is NULL, unless an exception is pending *)
  apply (wp_mono _ (fun w' r =>
           quiet w w'
           /\ match r with
              | inl (arg0, arg1) =>
                  (arg0 = None -> pending w' <> None) /\ arg1 <> None
              | inr _ => True
              end)).
  { destruct (negb (st =? napi_ok)); [| destruct (__fd d <? 0)].
    - apply wp_bind, wp_NAPI_CALL. intros w' st' a Hf.
      unfold napi_create_string_latin1 in Hf. injection Hf as <- <- <-.
      split; [intros _ | intros _ w'' Hw''; split;
                         [exact (quiet_throws _ _ _ H1 Hw'') | exact I]].
      apply wp_bind, wp_NAPI_CALL. intros w' st' a Hf.
      unfold napi_create_error in Hf. injection Hf as <- <- <-.
      split; [intros _ | intros _ w'' Hw''; split;
                         [exact (quiet_throws _ _ _ H1 Hw'') | exact I]].
      apply wp_ret. split; [exact H1 |]. split; discriminate.
    - apply wp_bind, wp_call.
      pose proof (_system_error_frame rt pf (__syscall d) (__errno d) w1)
        as He.
      pose proof (_system_error_raises rt pf (__syscall d) (__errno d) w1)
        as [_ Hnull].
      destruct (_system_error rt pf (__syscall d) (__errno d) w1) as [w2 e].
      cbn [fst snd] in *. apply wp_ret.
      split; [exact (quiet_throws _ _ _ H1 He) |].
      split; [auto | discriminate].
    - apply wp_bind, wp_NAPI_CALL. intros w' st' a Hf.
      unfold napi_create_uint32 in Hf. injection Hf as <- <- <-.
      split; [intros _ | intros _ w'' Hw''; split;
                         [exact (quiet_throws _ _ _ H1 Hw'') | exact I]].
      apply wp_ret. split; [exact H1 |]. split; discriminate. }
  clear w1 H1. intros w1 r [H1 Hslots].
  destruct r as [[arg0 arg1] | []]; [| exact H1].
  destruct Hslots as [Harg0 Harg1].
  apply wp_bind, wp_NAPI_CALL. intros w' st' a Hf.
  unfold napi_get_reference_value in Hf.
  destruct (__callback_ref d); injection Hf as <- <- <-.
  2: { split; [discriminate |
               intros _ w'' Hw''; exact (Hleave _ _ (inr tt) H1 Hw'')]. }
  split; [intros _ | intros _ w'' Hw''; exact (Hleave _ _ (inr tt) H1 Hw'')].
  apply wp_bind, wp_NAPI_CALL. intros w' st' a Hf.
  unfold napi_get_global in Hf. injection Hf as <- <- <-.
  split; [intros _ | intros _ w'' Hw''; exact (Hleave _ _ (inr tt) H1 Hw'')].
  apply wp_bind, wp_NAPI_CALL. intros w' st' a Hf.
  unfold napi_call_function in Hf.
  assert (Hcalled : pending w1 = None ->
                    quiet w (log (EvCallFunction arg0 arg1) w1)).
  { intros Hp. apply quiet_log; [exact H1 |].
    destruct arg0 as [a0 |]; [| now contradiction (Harg0 eq_refl)].
    destruct arg1 as [a1 |]; [reflexivity | now contradiction Harg1]. }
  destruct (pending w1) eqn:Hp1, j;
    try (injection Hf as <- <- <-;
         split; [discriminate |
                 intros _ w'' Hw''; exact (Hleave _ _ (inr tt) H1 Hw'')]).
  specialize (Hcalled eq_refl).
  destruct (napi_result rt "napi_call_function" 337 =? napi_ok) eqn:Hst.
  2: { injection Hf as <- <- <-.
       split; [intros E; rewrite E in Hst; discriminate |
               intros _ w'' Hw''; exact (Hleave _ _ (inr tt) H1 Hw'')]. }
  destruct (handler_throws rt); injection Hf as <- <- <-.
  { split; [discriminate | intros _ w'' Hw''].
    exact (Hleave (set_pending (Some j) (log (EvCallFunction arg0 arg1) w1))
             _ (inr tt) Hcalled Hw''). }
  split; [intros _ | intros Hne; contradiction].
  clear H1 Harg0 Hp1. generalize dependent (log (EvCallFunction arg0 arg1) w1).
  intros w2 H2.
  apply wp_bind, wp_NAPI_CALL. intros w' st' a Hf.
  unfold napi_delete_reference in Hf.
  destruct (napi_result rt "napi_delete_reference" 340 =? napi_ok) eqn:Hst2;
    injection Hf as <- <- <-.
  2: { split; [intros E; rewrite E in Hst2; discriminate |
               intros _ w'' Hw''; exact (Hleave _ _ (inr tt) H2 Hw'')]. }
  apply Z.eqb_eq in Hst2. split; [intros _ | intros Hne; contradiction].
  assert (H3 : quiet w (log EvDeleteReference w2))
    by (apply quiet_log; [exact H2 | reflexivity]).
  apply wp_NAPI_CALL. intros w' st' a Hf.
  unfold napi_delete_async_work in Hf.
  destruct (__async_work d).
  2: { injection Hf as <- <- <-.
       split; [discriminate |
               intros _ w'' Hw''; exact (Hleave _ _ (inr tt) H3 Hw'')]. }
  destruct (napi_result rt "napi_delete_async_work" 341 =? napi_ok) eqn:Hst3;
    injection Hf as <- <- <-.
  2: { split; [intros E; rewrite E in Hst3; discriminate |
               intros _ w'' Hw''; exact (Hleave _ _ (inr tt) H3 Hw'')]. }
  split; [intros _ | intros Hne; apply Z.eqb_eq in Hst3; contradiction].
  apply quiet_log; [exact H3 | reflexivity].
Qed.

End Slots.

Lemma null_slot_open_event e : is_open_event e = true -> null_slot e = false.
Proof. destruct e; cbn; congruence. Qed.

Lemma null_slot_syscall e : is_syscall e = true -> null_slot e = false.
Proof. destruct e; cbn; congruence. Qed.

(** X21: When the runtime lets the addon throw, the handler is never
    given a NULL argument, whatever the arguments of [open], the platform
    and the answers of the kernel and of the other N-API calls: when the
    error of a failed request cannot be built, an exception is pending and
    the handler is not invoked at all. *)
Theorem handler_is_never_given_null rt pf info w :
  can_throw rt ->
  count_events null_slot (trace (settled (js_open rt pf info w)))
  = count_events null_slot (trace w).
Proof.
  intros Hcan. unfold js_open. cbn [settled].
  destruct (_open_frame rt pf info w) as [(_ & tr & Htr & Hall) _].
  set (w1 := fst (_open rt pf info w)) in *.
  assert (H1 : count_events null_slot (trace (set_pending None w1))
               = count_events null_slot (trace w)).
  { cbn [trace set_pending]. rewrite Htr, count_events_app.
    rewrite (count_events_none is_open_event null_slot tr
               null_slot_open_event Hall). lia. }
  generalize dependent (set_pending None w1). clear w1 tr Htr Hall.
  intros w2 H2. rewrite <- H2. clear H2.
  unfold run_async_work. destruct (queued w2) as [d |]; [| reflexivity].
  destruct (work_status rt =? napi_ok).
  - pose proof (_open_execute_frame pf d (log EvExecute (set_queued None w2)))
      as ((_ & _ & pre & Hpre & Hall) & _).
    destruct (_open_execute pf d (log EvExecute (set_queued None w2)))
      as [we de]. cbn [fst snd] in *.
    rewrite (_open_complete_quiet rt pf Hcan (work_status rt) de we).
    rewrite Hpre, count_events_app.
    rewrite (count_events_none is_syscall null_slot pre
               null_slot_syscall Hall).
    cbn [trace log set_queued].
    rewrite count_events_app. unfold count_events at 2. cbn. lia.
  - rewrite (_open_complete_quiet rt pf Hcan (work_status rt) d
               (set_queued None w2)).
    reflexivity.
Qed.

(** X21, where [socket] fails and [napi_create_error] (line 112)
    fails in turn: the error is thrown and the handler is not invoked. *)
Lemma handler_is_never_given_null_witness :
  can_throw (node_failing_at 112)
  /\ trace (settled (js_open (node_failing_at 112) (linux (-1, 1) (0, 0) (0, 0))
                       [JsNumber 2; JsNull; JsNull; JsFunction 0]
                       fresh_world))
     = [EvCreateReference; EvMalloc; EvCreateAsyncWork; EvQueueAsyncWork;
        EvExecute; EvSocket 2 2 1 (-1); EvClose (-1); EvFree;
        EvThrow (JsError false None
                   "Unknown Error (napi_create_error, line=112)" [])]
  /\ count_events null_slot
       (trace (settled (js_open (node_failing_at 112)
                          (linux (-1, 1) (0, 0) (0, 0))
                          [JsNumber 2; JsNull; JsNull; JsFunction 0]
                          fresh_world)))
     = count_events null_slot (trace fresh_world).
Proof.
  assert (H : can_throw (node_failing_at 112))
    by (apply can_throw_node_failing_at; discriminate).
  split; [exact H |]. split; [vm_compute; reflexivity |].
  exact (handler_is_never_given_null (node_failing_at 112)
           (linux (-1, 1) (0, 0) (0, 0))
           [JsNumber 2; JsNull; JsNull; JsFunction 0] fresh_world H).
Defined.

(* ------------------------------------------------------------------ *)
(** ** Calls that a check stops *)

(** X22: Whatever the runtime answers, a call that a check of [open]
    stops only throws. The checks that stop a call are those after which
    [_open] returns: the number of arguments, the family, the type of
    the address and what [inet_pton] makes of its text, the type and the
    length of the interface name, the type of the handler. The request
    is never allocated, nothing is queued and no system call is made;
    and the event loop then has nothing to run, so that no worker thread
    starts and the completion handler is never invoked.
    When the N-API calls succeed, the call fails with the one exception
    it throws. *)
Theorem stopped_call_only_throws rt pf info w :
  queued w = None ->
  stopped_by_a_check pf info = true ->
  throws_only w (returned (js_open rt pf info w))
  /\ settled (js_open rt pf info w)
     = set_pending None (returned (js_open rt pf info w))
  /\ (napi_all_ok rt -> pending w = None ->
      exists e,
        exception (js_open rt pf info w) = Some e
        /\ trace (returned (js_open rt pf info w)) = trace w ++ [EvThrow e]).
Proof.
  intros Hq Hstop.
  destruct (stopped_call rt pf info w Hq Hstop) as (H1 & H2).
  split; [exact H1 | split; [exact H2 |]].
  intros Hok Hp. apply refused_call; try assumption.
  now apply stopped_by_a_check_spec.
Qed.

(** X22, at a call whose address is no IPv4 address: the call throws and
    the event loop finds nothing to run. *)
Lemma stopped_call_only_throws_witness :
  queued fresh_world = None
  /\ stopped_by_a_check linux_ok
       [JsNumber 2; JsString "localhost"; JsNull; JsFunction 0] = true
  /\ trace (settled (js_open node linux_ok
                       [JsNumber 2; JsString "localhost"; JsNull; JsFunction 0]
                       fresh_world))
     = [EvThrow (type_error "Invalid IPv4 from address: localhost")]
  /\ throws_only fresh_world
       (returned (js_open node linux_ok
                    [JsNumber 2; JsString "localhost"; JsNull; JsFunction 0]
                    fresh_world))
  /\ settled (js_open node linux_ok
                [JsNumber 2; JsString "localhost"; JsNull; JsFunction 0]
                fresh_world)
     = set_pending None
         (returned (js_open node linux_ok
                      [JsNumber 2; JsString "localhost"; JsNull; JsFunction 0]
                      fresh_world)).
Proof.
  split; [reflexivity |]. split; [vm_compute; reflexivity |].
  split; [vm_compute; reflexivity |].
  destruct (stopped_call_only_throws node linux_ok
              [JsNumber 2; JsString "localhost"; JsNull; JsFunction 0]
              fresh_world eq_refl eq_refl) as (H1 & H2 & _).
  split; [exact H1 | exact H2].
Defined.
